(** * pssetools: the capacity (headroom) search engine

    A shallow embedding of [pssetools/capacity_analysis.py] and
    [pssetools/subsystems.py].

    Conventions of the embedding.
    - A Python [float] is taken as a rational ([Q]); a Python [complex]
      is a pair of rationals.  The engine itself computes with exact
      arithmetic; the properties that depend on how the midpoint of the
      search is rounded are stated over [max_power_available_mva_rounded],
      the same search with the two arithmetic steps left open.
    - The PSS/E network model is an explicit value ([Network]) inside the
      interpreter state ([World]); every function of the source that calls
      into [wrapped_funcs] becomes a computation of the monad [M]
      (state + Python exceptions).
    - Calls that leave the two modules (the [wrapped_funcs] primitives, the
      violation check, the contingency check) append an [Event] to a ghost
      trace, so that "how many probes" and "before anything else happened"
      can be stated.
    - Logging, the [tqdm] progress bar and the [PowerFlows] counter have no
      effect on any result and are left out. *)

From Stdlib Require Import ZArith QArith Qabs Lqa Lia List String Bool Sorted.
From stdpp Require Import gmap.
Import ListNotations.

Local Open Scope string_scope.
Local Open Scope Z_scope.
Local Open Scope list_scope.

(** ** Numbers *)

Record complex : Type := Complex { real : Q; imag : Q }.

Definition c0 : complex := Complex 0 0.

Definition cadd (a b : complex) : complex :=
  Complex (real a + real b) (imag a + imag b).

(** [(a) / 2] for a complex [a] and the integer [2]. *)
Definition chalf (a : complex) : complex :=
  Complex (real a / 2) (imag a / 2).

Definition Q_eqb (a b : Q) : bool := Qeq_bool a b.

Definition ceqb (a b : complex) : bool :=
  Q_eqb (real a) (real b) && Q_eqb (imag a) (imag b).

(** [a < b] on floats, as a boolean. *)
Definition Q_ltb (a b : Q) : bool := negb (Qle_bool b a).

(** ** Records of [subsystems.py] *)

Record Bus : Type := mkBus { Bus_number : Z; Bus_ex_name : string }.

Record Load : Type := mkLoad {
  Load_number : Z;
  Load_ex_name : string;
  Load_id : string;
  Load_mva_act : complex
}.

Record Branch : Type := mkBranch {
  from_number : Z;
  to_number : Z;
  branch_id : string
}.

Definition Branch_eqb (a b : Branch) : bool :=
  (from_number a =? from_number b) && (to_number a =? to_number b)
  && String.eqb (branch_id a) (branch_id b).

(** Modelled from the spec: [Machine] is declared in the part of
    [subsystems.py] that is not available; the analyser reads its
    [number] and [pq_gen] attributes. *)
Record Machine : Type := mkMachine {
  Machine_number : Z;
  Machine_ex_name : string;
  Machine_id : string;
  Machine_pq_gen : complex
}.

(** Modelled from the spec: [Trafo] is declared in the part of
    [subsystems.py] that is not available; identity is (from-bus, to-bus,
    element id), as for a branch. *)
Record Trafo : Type := mkTrafo {
  Trafo_from_number : Z;
  Trafo_to_number : Z;
  Trafo_id : string
}.

Definition Trafo_eqb (a b : Trafo) : bool :=
  (Trafo_from_number a =? Trafo_from_number b)
  && (Trafo_to_number a =? Trafo_to_number b)
  && String.eqb (Trafo_id a) (Trafo_id b).

(** ** The network model behind [wrapped_funcs] *)

(** Service state of a switchable element: whether it is in service, and
    whether the model refuses to take it out of service. *)
Record Switch : Type := mkSwitch { in_service : bool; required : bool }.

Record Network : Type := mkNetwork {
  net_buses : list Bus;
  net_loads : list Load;
  net_machines : list Machine;
  net_branches : list (Branch * Switch);
  net_trafos : list (Trafo * Switch)
}.

Definition set_net_loads (ls : list Load) (n : Network) : Network :=
  mkNetwork (net_buses n) ls (net_machines n) (net_branches n) (net_trafos n).

Definition set_net_machines (ms : list Machine) (n : Network) : Network :=
  mkNetwork (net_buses n) (net_loads n) ms (net_branches n) (net_trafos n).

Definition set_net_branches (bs : list (Branch * Switch)) (n : Network) : Network :=
  mkNetwork (net_buses n) (net_loads n) (net_machines n) bs (net_trafos n).

Definition set_net_trafos (ts : list (Trafo * Switch)) (n : Network) : Network :=
  mkNetwork (net_buses n) (net_loads n) (net_machines n) (net_branches n) ts.

(** *** Load table *)

Definition load_has_key (bus : Z) (id : string) (l : Load) : bool :=
  (Load_number l =? bus) && String.eqb (Load_id l) id.

Definition find_load (bus : Z) (id : string) (ls : list Load) : option Load :=
  List.find (load_has_key bus id) ls.

(** A new load is stored behind the loads of smaller or equal bus number:
    the table stays ordered by bus number. *)
Fixpoint add_load (new : Load) (ls : list Load) : list Load :=
  match ls with
  | [] => [new]
  | l :: ls' =>
      if Load_number new <? Load_number l then new :: ls
      else l :: add_load new ls'
  end.

Fixpoint remove_load (bus : Z) (id : string) (ls : list Load) : list Load :=
  match ls with
  | [] => []
  | l :: ls' =>
      if load_has_key bus id l then ls' else l :: remove_load bus id ls'
  end.

Fixpoint change_load (bus : Z) (id : string) (p : complex) (ls : list Load)
  : list Load :=
  match ls with
  | [] => []
  | l :: ls' =>
      if load_has_key bus id l
      then mkLoad (Load_number l) (Load_ex_name l) (Load_id l) p :: ls'
      else l :: change_load bus id p ls'
  end.

(** *** Machine table *)

Definition machine_has_key (bus : Z) (id : string) (m : Machine) : bool :=
  (Machine_number m =? bus) && String.eqb (Machine_id m) id.

Definition find_machine (bus : Z) (id : string) (ms : list Machine)
  : option Machine :=
  List.find (machine_has_key bus id) ms.

Fixpoint add_machine (new : Machine) (ms : list Machine) : list Machine :=
  match ms with
  | [] => [new]
  | m :: ms' =>
      if Machine_number new <? Machine_number m then new :: ms
      else m :: add_machine new ms'
  end.

Fixpoint remove_machine (bus : Z) (id : string) (ms : list Machine)
  : list Machine :=
  match ms with
  | [] => []
  | m :: ms' =>
      if machine_has_key bus id m then ms' else m :: remove_machine bus id ms'
  end.

Fixpoint change_machine (bus : Z) (id : string) (p : complex)
  (ms : list Machine) : list Machine :=
  match ms with
  | [] => []
  | m :: ms' =>
      if machine_has_key bus id m
      then mkMachine (Machine_number m) (Machine_ex_name m) (Machine_id m) p
           :: ms'
      else m :: change_machine bus id p ms'
  end.

(** *** Switchable elements *)

Section SwitchTable.
Context {K : Type} (eqb : K -> K -> bool).

Fixpoint find_switch (k : K) (t : list (K * Switch)) : option Switch :=
  match t with
  | [] => None
  | (k', s) :: t' => if eqb k' k then Some s else find_switch k t'
  end.

(** Set the status of element [k]: closing always works, opening is
    refused (and leaves the status alone) for a required element.  The
    boolean tells whether the model took the change. *)
Fixpoint set_switch (k : K) (st : bool) (t : list (K * Switch))
  : list (K * Switch) * bool :=
  match t with
  | [] => ([], false)
  | (k', s) :: t' =>
      if eqb k' k then
        if negb st && required s then (t, false)
        else ((k', mkSwitch st (required s)) :: t', true)
      else
        let (t'', ok) := set_switch k st t' in ((k', s) :: t'', ok)
  end.

End SwitchTable.

(** ** Outcomes of the external analyses *)

(** Modelled from the spec: [Violations] is a flag enumeration of
    [violations_analysis]; [NO_VIOLATIONS] is the empty set of flags. *)
Definition Violations : Type := N.
Definition NO_VIOLATIONS : Violations := 0%N.

Definition Violations_eqb (a b : Violations) : bool := N.eqb a b.

Inductive Element : Type :=
| ElemBranch (b : Branch)
| ElemTrafo (t : Trafo).

(** Modelled from the spec: [LimitingFactor] of [contingency_analysis]
    pairs a [Violations] value ([v]) with the optional contingency element
    whose outage produced it ([ss]). *)
Record LimitingFactor : Type := mkLimitingFactor {
  v : Violations;
  ss : option Element
}.

(** Modelled from the spec: [ContingencyScenario] of
    [contingency_analysis], the non-critical branches and trafos. *)
Record ContingencyScenario : Type := mkContingencyScenario {
  sc_branches : list Branch;
  sc_trafos : list Trafo
}.

(** [dataclasses.asdict] of a [ViolationsLimits]: keyword names and values. *)
Definition ViolationsLimits : Type := list (string * Q).

Definition SolverOpts : Type := list (string * Z).

(** ** Interpreter state, exceptions, and the monad *)

Inductive Event : Type :=
| EvOpenCase (name : string)
| EvRunSolver (full : bool)
| EvCheckViolations
| EvContingencyCheck
| EvLoadData (bus : Z) (id : string)
| EvLoadChng (bus : Z) (id : string) (p : complex)
| EvPurgLoad (bus : Z) (id : string)
| EvMachineData (bus : Z) (id : string)
| EvMachineChng (bus : Z) (id : string) (p : complex)
| EvPurgMach (bus : Z) (id : string)
| EvBranchChng (b : Branch) (st : Z)
| EvTrafoChng (t : Trafo) (st : Z).

Record World : Type := mkWorld {
  net : Network;               (* the working case of PSS/E *)
  solved : bool;               (* did the last power flow converge *)
  heap : gmap nat bool;        (* [_context_manager_is_active] per object *)
  trace : list Event           (* ghost: calls that left the package *)
}.

Inductive exn : Type :=
| RuntimeError (msg : string)
| IOError (msg : string)
| AttributeError (msg : string)
| ValueError (msg : string).

Inductive Result (A : Type) : Type :=
| Ok (a : A)
| Raise (e : exn).
Arguments Ok {A} a.
Arguments Raise {A} e.

Definition M (A : Type) : Type := World -> Result A * World.

Definition ret {A} (a : A) : M A := fun w => (Ok a, w).

Definition raise {A} (e : exn) : M A := fun w => (Raise e, w).

Definition bind {A B} (m : M A) (k : A -> M B) : M B :=
  fun w =>
    match m w with
    | (Ok a, w') => k a w'
    | (Raise e, w') => (Raise e, w')
    end.

Declare Scope py_scope.
Delimit Scope py_scope with py.
Notation "'let*' x ':=' c 'in' k" := (bind c (fun x => k))
  (at level 10, x pattern, c at level 100, k at level 200) : py_scope.
Notation "c '>>' k" := (bind c (fun _ => k))
  (at level 100, k at level 200, right associativity) : py_scope.
Local Open Scope py_scope.

(** [try: m finally: f].  The [finally] block runs on both exits; an
    exception of [f] replaces the pending one. *)
Definition try_finally {A} (m : M A) (f : M unit) : M A :=
  fun w =>
    match m w with
    | (r, w') =>
        match f w' with
        | (Ok _, w'') => (r, w'')
        | (Raise e, w'') => (Raise e, w'')
        end
    end.

Definition get_net : M Network := fun w => (Ok (net w), w).

Definition modify_net (f : Network -> Network) : M unit :=
  fun w => (Ok tt, mkWorld (f (net w)) (solved w) (heap w) (trace w)).

Definition log (e : Event) : M unit :=
  fun w => (Ok tt, mkWorld (net w) (solved w) (heap w) (trace w ++ [e])).

Definition set_solved (b : bool) : M unit :=
  fun w => (Ok tt, mkWorld (net w) b (heap w) (trace w)).

Definition get_flag (r : nat) : M (option bool) :=
  fun w => (Ok (heap w !! r), w).

Definition set_flag (r : nat) (b : bool) : M unit :=
  fun w => (Ok tt, mkWorld (net w) (solved w) (<[r := b]> (heap w)) (trace w)).

Definition alloc_flag (b : bool) : M nat :=
  fun w =>
    let r := fresh (dom (heap w)) in
    (Ok r, mkWorld (net w) (solved w) (<[r := b]> (heap w)) (trace w)).

(** A value bound by [with ... as x]. *)
Inductive PyVal : Type :=
| PyNone
| PyBool (b : bool).

Definition truthy (x : PyVal) : bool :=
  match x with
  | PyNone => false
  | PyBool b => b
  end.

(** ** [wrapped_funcs]: the model mutation primitives *)

(** Modelled from the spec: [wrapped_funcs.load_data_6] adds a load with
    zero power at a bus (the element is left alone when it exists). *)
Definition wf_load_data_6 (bus : Z) (id : string) : M unit :=
  log (EvLoadData bus id) >>
  modify_net (fun n =>
    match find_load bus id (net_loads n) with
    | Some _ => n
    | None => set_net_loads (add_load (mkLoad bus "" id c0) (net_loads n)) n
    end).

(** Modelled from the spec: [wrapped_funcs.purgload] removes a load. *)
Definition wf_purgload (bus : Z) (id : string) : M unit :=
  log (EvPurgLoad bus id) >>
  modify_net (fun n => set_net_loads (remove_load bus id (net_loads n)) n).

(** Modelled from the spec: [wrapped_funcs.load_chng_6] overwrites the
    power of a load ([realar=[p, q]]). *)
Definition wf_load_chng_6 (bus : Z) (id : string) (realar : Q * Q) : M unit :=
  let p := Complex (fst realar) (snd realar) in
  log (EvLoadChng bus id p) >>
  modify_net (fun n => set_net_loads (change_load bus id p (net_loads n)) n).

(** Modelled from the spec: the same three primitives for a generator. *)
Definition wf_machine_data_4 (bus : Z) (id : string) : M unit :=
  log (EvMachineData bus id) >>
  modify_net (fun n =>
    match find_machine bus id (net_machines n) with
    | Some _ => n
    | None =>
        set_net_machines
          (add_machine (mkMachine bus "" id c0) (net_machines n)) n
    end).

Definition wf_purgmac (bus : Z) (id : string) : M unit :=
  log (EvPurgMach bus id) >>
  modify_net (fun n =>
    set_net_machines (remove_machine bus id (net_machines n)) n).

Definition wf_machine_chng_4 (bus : Z) (id : string) (realar : Q * Q)
  : M unit :=
  let p := Complex (fst realar) (snd realar) in
  log (EvMachineChng bus id p) >>
  modify_net (fun n =>
    set_net_machines (change_machine bus id p (net_machines n)) n).

(** Modelled from the spec: [wrapped_funcs.brnint(..., "STATUS")], the
    status of a branch ([0]: out of service). *)
Definition wf_brnint_STATUS (b : Branch) : M Z :=
  let* n := get_net in
  ret (match find_switch Branch_eqb b (net_branches n) with
       | Some s => if in_service s then 1 else 0
       | None => 0
       end).

(** Modelled from the spec: [wrapped_funcs.branch_chng_3(..., st=...)] sets
    the status of a branch; the model may refuse to open a branch, and the
    call returns nothing either way. *)
Definition wf_branch_chng_3 (b : Branch) (st : Z) : M unit :=
  log (EvBranchChng b st) >>
  modify_net (fun n =>
    set_net_branches
      (fst (set_switch Branch_eqb b (negb (st =? 0)) (net_branches n))) n).

(** Did the model take the last status change of [b] to [st]?  (Ghost: the
    source never asks.) *)
Definition branch_change_accepted (b : Branch) (st : Z) (n : Network) : bool :=
  snd (set_switch Branch_eqb b (negb (st =? 0)) (net_branches n)).

(** Modelled from the spec: the status primitives of a transformer, after
    the branch ones; [wf_trafo_chng] also tells whether the model took the
    change, which the element-disable contract reports. *)
Definition wf_trafo_STATUS (t : Trafo) : M Z :=
  let* n := get_net in
  ret (match find_switch Trafo_eqb t (net_trafos n) with
       | Some s => if in_service s then 1 else 0
       | None => 0
       end).

Definition wf_trafo_chng (t : Trafo) (st : Z) : M bool :=
  log (EvTrafoChng t st) >>
  let* n := get_net in
  let (ts, ok) := set_switch Trafo_eqb t (negb (st =? 0)) (net_trafos n) in
  modify_net (set_net_trafos ts) >>
  ret ok.

(** ** [subsystems.py]: readers *)

Definition Branch_is_enabled (self : Branch) : M bool :=
  let* status := wf_brnint_STATUS self in
  ret (negb (status =? 0)).

(** [list(Branches())]: the branches of the working case, in model order. *)
Definition Branches : M (list Branch) :=
  let* n := get_net in ret (map fst (net_branches n)).

Definition Buses : M (list Bus) :=
  let* n := get_net in ret (net_buses n).

Definition Loads : M (list Load) :=
  let* n := get_net in ret (net_loads n).

(** Modelled from the spec: [Machines], [Trafos] and [Trafo.is_enabled]
    are in the part of [subsystems.py] that is not available; they follow
    [Loads], [Branches] and [Branch.is_enabled]. *)
Definition Machines : M (list Machine) :=
  let* n := get_net in ret (net_machines n).

Definition Trafos : M (list Trafo) :=
  let* n := get_net in ret (map fst (net_trafos n)).

Definition Trafo_is_enabled (self : Trafo) : M bool :=
  let* status := wf_trafo_STATUS self in
  ret (negb (status =? 0)).

(** ** [subsystems.py]: scoped mutators *)

(** [@contextmanager def disable_branch(branch)]: the body of the [with]
    statement runs at the [yield], inside the [try]; the bare [yield]
    hands [None] to [with ... as]. *)
Definition disable_branch {A} (branch : Branch) (body : PyVal -> M A) : M A :=
  try_finally
    (wf_branch_chng_3 branch 0 >> body PyNone)
    (wf_branch_chng_3 branch 1).

(** Modelled from the spec: [disable_trafo] is in the part of
    [subsystems.py] that is not available.  "On entry, sets the element's
    status to disabled and reports whether the disable succeeded; on exit,
    unconditionally restores status to enabled." *)
Definition disable_trafo {A} (trafo : Trafo) (body : PyVal -> M A) : M A :=
  try_finally
    (let* ok := wf_trafo_chng trafo 0 in body (PyBool ok))
    (wf_trafo_chng trafo 1 >> ret tt).

(** [with obj: body] for an object with [__enter__] and [__exit__]; the
    [__exit__] methods here return [None], so an exception of the body is
    raised again after [__exit__]. *)
Definition with_stmt {A} (enter exit : M unit) (body : M A) : M A :=
  enter >> try_finally body exit.

Record TemporaryBusLoad : Type := mkTemporaryBusLoad {
  TemporaryBusLoad_bus : Bus;   (* [_bus], never reassigned *)
  TemporaryBusLoad_ref : nat    (* where [_context_manager_is_active] lives *)
}.

Definition TEMP_LOAD_ID : string := "Tm".

Definition TemporaryBusLoad___init__ (bus : Bus) : M TemporaryBusLoad :=
  let* r := alloc_flag false in
  ret (mkTemporaryBusLoad bus r).

Definition TemporaryBusLoad___enter__ (self : TemporaryBusLoad) : M unit :=
  wf_load_data_6 (Bus_number (TemporaryBusLoad_bus self)) TEMP_LOAD_ID >>
  set_flag (TemporaryBusLoad_ref self) true.

Definition TemporaryBusLoad___exit__ (self : TemporaryBusLoad) : M unit :=
  wf_purgload (Bus_number (TemporaryBusLoad_bus self)) TEMP_LOAD_ID >>
  set_flag (TemporaryBusLoad_ref self) false.

Definition TemporaryBusLoad___call__ (self : TemporaryBusLoad)
  (new_load : complex) : M unit :=
  let* active := get_flag (TemporaryBusLoad_ref self) in
  match active with
  | None => raise (AttributeError "_context_manager_is_active")
  | Some false =>
      raise (RuntimeError
        "Load modification without context manager is prohibited. Use `with TemporaryBusLoad(bus) as temp_load:`.")
  | Some true =>
      wf_load_chng_6 (Bus_number (TemporaryBusLoad_bus self)) TEMP_LOAD_ID
        (real new_load, imag new_load)
  end.

(** Modelled from the spec: [TemporaryBusMachine] is in the part of
    [subsystems.py] that is not available; it is the generator variant of
    [TemporaryBusLoad], with the same lifecycle. *)
Record TemporaryBusMachine : Type := mkTemporaryBusMachine {
  TemporaryBusMachine_bus : Bus;
  TemporaryBusMachine_ref : nat
}.

Definition TEMP_MACHINE_ID : string := "Tm".

Definition TemporaryBusMachine___init__ (bus : Bus) : M TemporaryBusMachine :=
  let* r := alloc_flag false in
  ret (mkTemporaryBusMachine bus r).

Definition TemporaryBusMachine___enter__ (self : TemporaryBusMachine) : M unit :=
  wf_machine_data_4 (Bus_number (TemporaryBusMachine_bus self)) TEMP_MACHINE_ID >>
  set_flag (TemporaryBusMachine_ref self) true.

Definition TemporaryBusMachine___exit__ (self : TemporaryBusMachine) : M unit :=
  wf_purgmac (Bus_number (TemporaryBusMachine_bus self)) TEMP_MACHINE_ID >>
  set_flag (TemporaryBusMachine_ref self) false.

Definition TemporaryBusMachine___call__ (self : TemporaryBusMachine)
  (new_gen : complex) : M unit :=
  let* active := get_flag (TemporaryBusMachine_ref self) in
  match active with
  | None => raise (AttributeError "_context_manager_is_active")
  | Some false =>
      raise (RuntimeError
        "Machine modification without context manager is prohibited.")
  | Some true =>
      wf_machine_chng_4 (Bus_number (TemporaryBusMachine_bus self))
        TEMP_MACHINE_ID (real new_gen, imag new_gen)
  end.

(** [TemporaryBusSubsystem]: what the search needs of a temporary element. *)
Class TemporaryBusSubsystem (T : Type) : Type := {
  subsystem_enter : T -> M unit;
  subsystem_exit : T -> M unit;
  subsystem_call : T -> complex -> M unit
}.

#[export] Instance TemporaryBusLoad_subsystem
  : TemporaryBusSubsystem TemporaryBusLoad := {|
  subsystem_enter := TemporaryBusLoad___enter__;
  subsystem_exit := TemporaryBusLoad___exit__;
  subsystem_call := TemporaryBusLoad___call__
|}.

#[export] Instance TemporaryBusMachine_subsystem
  : TemporaryBusSubsystem TemporaryBusMachine := {|
  subsystem_enter := TemporaryBusMachine___enter__;
  subsystem_exit := TemporaryBusMachine___exit__;
  subsystem_call := TemporaryBusMachine___call__
|}.

(** [with temp: body]. *)
Definition with_subsystem {T} `{TemporaryBusSubsystem T} {A}
  (temp : T) (body : M A) : M A :=
  with_stmt (subsystem_enter temp) (subsystem_exit temp) body.

(** ** External collaborators of the engine *)

(** What the engine consumes and this development does not look into: the
    case files, the power-flow solver, the violation classifier of
    [violations_analysis], the contingency screening of
    [contingency_analysis], and the value of [math.tan(math.acos(.))] on
    the domain [-1, 1] of [math.acos]. *)
Record External : Type := mkExternal {
  case_file : string -> option Network;
  power_flow_converges : bool -> SolverOpts -> Network -> bool;
  violations_of :
    option ViolationsLimits -> bool -> SolverOpts -> Network -> Violations;
  contingency_limiting_factor_of :
    ContingencyScenario -> option ViolationsLimits -> bool -> Network
    -> LimitingFactor;
  tan_acos : Q -> Q
}.

(** ** [capacity_analysis.py] *)

Record BusHeadroom : Type := mkBusHeadroom {
  bus : Bus;
  actual_load_mva : complex;
  actual_gen_mva : complex;
  load_avail_mva : complex;
  gen_avail_mva : complex;
  load_lf : option LimitingFactor;
  gen_lf : option LimitingFactor
}.

(** The persistent cursor over [Loads()]: the three attributes
    [_loads_iterator], [_loads_available] and [_load] of the analyser
    ([_load] is unset, [None] here, when there is no load at all). *)
Record LoadCursor : Type := mkLoadCursor {
  _loads_iterator : list Load;
  _loads_available : bool;
  _load : option Load
}.

Record MachineCursor : Type := mkMachineCursor {
  _machines_iterator : list Machine;
  _machines_available : bool;
  _machine : option Machine
}.

Record CapacityAnalyser : Type := mkCapacityAnalyser {
  _case_name : string;
  _upper_load_limit_mva : complex;
  _upper_gen_limit_mva : complex;
  _selected_buses_ids : option (list Z);
  _solver_tolerance_p_mw : Q;
  _solver_opts : SolverOpts;
  _max_iterations : Z;
  _normal_limits : option ViolationsLimits;
  _contingency_limits : option ViolationsLimits;
  _use_full_newton_raphson : bool;
  _contingency_scenario : ContingencyScenario;
  _loads_cursor : LoadCursor;
  _machines_cursor : MachineCursor
}.

Definition set_use_full_newton_raphson (b : bool) (a : CapacityAnalyser)
  : CapacityAnalyser :=
  mkCapacityAnalyser (_case_name a) (_upper_load_limit_mva a)
    (_upper_gen_limit_mva a) (_selected_buses_ids a)
    (_solver_tolerance_p_mw a) (_solver_opts a) (_max_iterations a)
    (_normal_limits a) (_contingency_limits a) b (_contingency_scenario a)
    (_loads_cursor a) (_machines_cursor a).

Definition set_contingency_scenario (sc : ContingencyScenario)
  (a : CapacityAnalyser) : CapacityAnalyser :=
  mkCapacityAnalyser (_case_name a) (_upper_load_limit_mva a)
    (_upper_gen_limit_mva a) (_selected_buses_ids a)
    (_solver_tolerance_p_mw a) (_solver_opts a) (_max_iterations a)
    (_normal_limits a) (_contingency_limits a) (_use_full_newton_raphson a)
    sc (_loads_cursor a) (_machines_cursor a).

Definition set_loads_cursor (c : LoadCursor) (a : CapacityAnalyser)
  : CapacityAnalyser :=
  mkCapacityAnalyser (_case_name a) (_upper_load_limit_mva a)
    (_upper_gen_limit_mva a) (_selected_buses_ids a)
    (_solver_tolerance_p_mw a) (_solver_opts a) (_max_iterations a)
    (_normal_limits a) (_contingency_limits a) (_use_full_newton_raphson a)
    (_contingency_scenario a) c (_machines_cursor a).

Definition set_machines_cursor (c : MachineCursor) (a : CapacityAnalyser)
  : CapacityAnalyser :=
  mkCapacityAnalyser (_case_name a) (_upper_load_limit_mva a)
    (_upper_gen_limit_mva a) (_selected_buses_ids a)
    (_solver_tolerance_p_mw a) (_solver_opts a) (_max_iterations a)
    (_normal_limits a) (_contingency_limits a) (_use_full_newton_raphson a)
    (_contingency_scenario a) (_loads_cursor a) c.

(** *** Streaming aggregation *)

(** [self._load = next(self._loads_iterator)], with [StopIteration] caught;
    also lines 104-109 of [__init__] when started from the whole list. *)
Definition next_load (it : list Load) (kept : option Load) : LoadCursor :=
  match it with
  | nxt :: it' => mkLoadCursor it' true (Some nxt)
  | [] => mkLoadCursor [] false kept
  end.

(** The [while] loop of [bus_actual_load_mva], entered with
    [_loads_available] true: it consumes the iterator. *)
Fixpoint bus_actual_load_loop (it : list Load) (cur : option Load)
  (bus_number : Z) (acc : complex) : Result (complex * LoadCursor) :=
  match cur with
  | None => Raise (AttributeError "_load")
  | Some l =>
      if Load_number l <=? bus_number then
        let acc' :=
          if Load_number l =? bus_number then cadd acc (Load_mva_act l)
          else acc in
        match it with
        | nxt :: it' => bus_actual_load_loop it' (Some nxt) bus_number acc'
        | [] => Ok (acc', mkLoadCursor [] false (Some l))
        end
      else Ok (acc, mkLoadCursor it true (Some l))
  end.

Definition bus_actual_load_mva (c : LoadCursor) (bus_number : Z)
  : Result (complex * LoadCursor) :=
  if _loads_available c
  then bus_actual_load_loop (_loads_iterator c) (_load c) bus_number c0
  else Ok (c0, c).

Definition next_machine (it : list Machine) (kept : option Machine)
  : MachineCursor :=
  match it with
  | nxt :: it' => mkMachineCursor it' true (Some nxt)
  | [] => mkMachineCursor [] false kept
  end.

Fixpoint bus_actual_gen_loop (it : list Machine) (cur : option Machine)
  (bus_number : Z) (acc : complex) : Result (complex * MachineCursor) :=
  match cur with
  | None => Raise (AttributeError "_machine")
  | Some m =>
      if Machine_number m <=? bus_number then
        let acc' :=
          if Machine_number m =? bus_number then cadd acc (Machine_pq_gen m)
          else acc in
        match it with
        | nxt :: it' => bus_actual_gen_loop it' (Some nxt) bus_number acc'
        | [] => Ok (acc', mkMachineCursor [] false (Some m))
        end
      else Ok (acc, mkMachineCursor it true (Some m))
  end.

Definition bus_actual_gen_mva (c : MachineCursor) (bus_number : Z)
  : Result (complex * MachineCursor) :=
  if _machines_available c
  then bus_actual_gen_loop (_machines_iterator c) (_machine c) bus_number c0
  else Ok (c0, c).

Definition lift {A} (r : Result A) : M A := fun w => (r, w).

(** The domain of [math.acos]. *)
Definition math_acos_defined (x : Q) : bool :=
  Qle_bool (-1) x && Qle_bool x 1.

Section Engine.
Variable ext : External.

(** Modelled from the spec: [wrapped_funcs.open_case] loads the case (an
    I/O error when the name does not resolve to a case). *)
Definition wf_open_case (case_name : string) : M unit :=
  log (EvOpenCase case_name) >>
  match case_file ext case_name with
  | Some n => modify_net (fun _ => n)
  | None => raise (IOError case_name)
  end.

(** Modelled from the spec: [violations_analysis.run_solver] runs one
    power flow; [wrapped_funcs.is_solved] tells whether it converged. *)
Definition run_solver (use_full_newton_raphson : bool)
  (solver_opts : SolverOpts) : M unit :=
  log (EvRunSolver use_full_newton_raphson) >>
  let* n := get_net in
  set_solved (power_flow_converges ext use_full_newton_raphson solver_opts n).

Definition wf_is_solved : M bool := fun w => (Ok (solved w), w).

(** Modelled from the spec: [violations_analysis.check_violations], with
    the limits as keywords, classifies the current network state. *)
Definition ext_check_violations (limits : option ViolationsLimits)
  (use_full_newton_raphson : bool) (solver_opts : SolverOpts)
  : M Violations :=
  log EvCheckViolations >>
  let* n := get_net in
  ret (violations_of ext limits use_full_newton_raphson solver_opts n).

(** Modelled from the spec:
    [contingency_analysis.get_contingency_limiting_factor] returns the first
    limiting factor with a violation over the scenario, or one with
    [NO_VIOLATIONS]. *)
Definition get_contingency_limiting_factor
  (contingency_scenario : ContingencyScenario)
  (limits : option ViolationsLimits) (use_full_newton_raphson : bool)
  : M LimitingFactor :=
  log EvContingencyCheck >>
  let* n := get_net in
  ret (contingency_limiting_factor_of ext contingency_scenario limits
         use_full_newton_raphson n).

(** [math.tan(math.acos(x))]: [math.acos] raises [ValueError] outside
    [-1, 1]; [math.tan] is defined on every value [math.acos] returns. *)
Definition math_tan_acos (x : Q) : M Q :=
  if math_acos_defined x then ret (tan_acos ext x)
  else raise (ValueError "math domain error").

Definition fdns_is_applicable (self : CapacityAnalyser) : M bool :=
  wf_open_case (_case_name self) >>
  run_solver false (_solver_opts self) >>
  let* is_applicable := wf_is_solved in
  (if negb is_applicable then
     wf_open_case (_case_name self) >>
     run_solver true (_solver_opts self)
   else ret tt) >>
  ret is_applicable.

(** Both arms of the source pass the limits when they are set and the
    defaults otherwise. *)
Definition check_violations (self : CapacityAnalyser) : M Violations :=
  ext_check_violations (_normal_limits self)
    (_use_full_newton_raphson self) (_solver_opts self).

Definition contingency_check (self : CapacityAnalyser) : M LimitingFactor :=
  get_contingency_limiting_factor (_contingency_scenario self)
    (_contingency_limits self) (_use_full_newton_raphson self).

Definition check_base_case_violations (self : CapacityAnalyser) : M unit :=
  let* base_case_violations := check_violations self in
  if negb (Violations_eqb base_case_violations NO_VIOLATIONS)
  then raise (RuntimeError "The base case has violations")
       (* the source formats the [Violations] value into the message *)
  else ret tt.

Definition feasibility_check (self : CapacityAnalyser)
  : M (bool * option LimitingFactor) :=
  let* violations := check_violations self in
  if negb (Violations_eqb violations NO_VIOLATIONS)
  then ret (false, Some (mkLimitingFactor violations None))
  else
    let* limiting_factor := contingency_check self in
    if negb (Violations_eqb (v limiting_factor) NO_VIOLATIONS)
    then ret (false, Some limiting_factor)
    else ret (true, None).

(** The body of the [with] statement either executes [return b]
    ([Some b]) or falls out of the block ([None]). *)
Definition branch_is_not_critical (self : CapacityAnalyser) (branch : Branch)
  : M bool :=
  let* enabled := Branch_is_enabled branch in
  if enabled then
    let* returned :=
      disable_branch branch (fun is_disabled =>
        if truthy is_disabled then
          let* violations := check_violations self in
          ret (Some (Violations_eqb violations NO_VIOLATIONS))
        else ret None) in
    match returned with
    | Some b => ret b
    | None => ret false
    end
  else ret false.

Definition trafo_is_not_critical (self : CapacityAnalyser) (trafo : Trafo)
  : M bool :=
  let* enabled := Trafo_is_enabled trafo in
  if enabled then
    let* returned :=
      disable_trafo trafo (fun is_disabled =>
        if truthy is_disabled then
          let* violations := check_violations self in
          ret (Some (Violations_eqb violations NO_VIOLATIONS))
        else ret None) in
    match returned with
    | Some b => ret b
    | None => ret false
    end
  else ret false.

(** [tuple(x for x in xs if keep(x))]. *)
Fixpoint filterM {A} (keep : A -> M bool) (xs : list A) : M (list A) :=
  match xs with
  | [] => ret []
  | x :: xs' =>
      let* k := keep x in
      let* rest := filterM keep xs' in
      ret (if k then x :: rest else rest)
  end.

Definition get_contingency_scenario (self : CapacityAnalyser)
  : M ContingencyScenario :=
  let* branches := Branches in
  let* not_critical_branches :=
    filterM (branch_is_not_critical self) branches in
  let* trafos := Trafos in
  let* not_critical_trafos := filterM (trafo_is_not_critical self) trafos in
  ret (mkContingencyScenario not_critical_branches not_critical_trafos).

Definition handle_empty_contingency_scenario (self : CapacityAnalyser)
  (contingency_scenario : option ContingencyScenario)
  : M ContingencyScenario :=
  match contingency_scenario with
  | Some sc => ret sc
  | None =>
      let* sc := get_contingency_scenario self in
      wf_open_case (_case_name self) >>
      ret sc
  end.

(** The [for] loop of [max_power_available_mva], [n] iterations left. *)
Fixpoint bisection {T} `{TemporaryBusSubsystem T} (self : CapacityAnalyser)
  (temp_subsystem : T) (n : nat) (lower_limit_mva upper_limit_mva : complex)
  (limiting_factor : option LimitingFactor)
  : M (complex * option LimitingFactor) :=
  match n with
  | O => ret (lower_limit_mva, limiting_factor)
  | S n' =>
      let middle_mva := chalf (cadd lower_limit_mva upper_limit_mva) in
      subsystem_call temp_subsystem middle_mva >>
      let* probe := feasibility_check self in
      let (is_feasible, limiting_factor') := probe in
      let lower' := if is_feasible then middle_mva else lower_limit_mva in
      let upper' := if is_feasible then upper_limit_mva else middle_mva in
      if Q_ltb (real upper' - real lower') (_solver_tolerance_p_mw self)
      then ret (lower', limiting_factor')
      else bisection self temp_subsystem n' lower' upper' limiting_factor'
  end.

Definition max_power_available_mva {T} `{TemporaryBusSubsystem T}
  (self : CapacityAnalyser) (temp_subsystem : T) (upper_limit_mva : complex)
  : M (complex * option LimitingFactor) :=
  let lower_limit_mva := c0 in
  subsystem_call temp_subsystem upper_limit_mva >>
  let* probe := feasibility_check self in
  let (is_feasible, limiting_factor) := probe in
  if is_feasible then ret (upper_limit_mva, limiting_factor)
  else
    bisection self temp_subsystem (Z.to_nat (_max_iterations self - 1))
      lower_limit_mva upper_limit_mva limiting_factor.

Definition bus_headroom (self : CapacityAnalyser) (b : Bus)
  : M (BusHeadroom * CapacityAnalyser) :=
  let* load_res := lift (bus_actual_load_mva (_loads_cursor self) (Bus_number b)) in
  let (actual_load, lc) := load_res in
  let self := set_loads_cursor lc self in
  let* gen_res := lift (bus_actual_gen_mva (_machines_cursor self) (Bus_number b)) in
  let (actual_gen, mc) := gen_res in
  let self := set_machines_cursor mc self in
  let* temp_load := TemporaryBusLoad___init__ b in
  let* load_res :=
    with_subsystem temp_load
      (max_power_available_mva self temp_load (_upper_load_limit_mva self)) in
  let (load_available_mva, load_lf) := load_res in
  let* gen_res :=
    if negb (ceqb actual_gen c0) && negb (ceqb load_available_mva c0) then
      let* temp_gen := TemporaryBusMachine___init__ b in
      with_subsystem temp_gen
        (max_power_available_mva self temp_gen (_upper_gen_limit_mva self))
    else ret (c0, None) in
  let (gen_available_mva, gen_lf) := gen_res in
  ret (mkBusHeadroom b actual_load actual_gen load_available_mva
         gen_available_mva load_lf gen_lf, self).

(** The generator expression of [buses_headroom], consumed by [tuple]. *)
Fixpoint buses_headroom_sweep (self : CapacityAnalyser) (buses : list Bus)
  : M (list BusHeadroom) :=
  match buses with
  | [] => ret []
  | b :: buses' =>
      let selected :=
        match _selected_buses_ids self with
        | None => true
        | Some ids => existsb (Z.eqb (Bus_number b)) ids
        end in
      if selected then
        let* r := bus_headroom self b in
        let (h, self') := r in
        let* rest := buses_headroom_sweep self' buses' in
        ret (h :: rest)
      else buses_headroom_sweep self buses'
  end.

Definition CapacityAnalyser_buses_headroom (self : CapacityAnalyser)
  : M (list BusHeadroom) :=
  let* buses := Buses in
  buses_headroom_sweep self buses.

Definition CapacityAnalyser___init__
  (case_name : string) (upper_load_limit_p_mw upper_gen_limit_p_mw : Q)
  (load_power_factor gen_power_factor : Q)
  (selected_buses_ids : option (list Z)) (solver_tolerance_p_mw : Q)
  (solver_opts : SolverOpts) (max_iterations : Z)
  (normal_limits contingency_limits : option ViolationsLimits)
  (contingency_scenario : option ContingencyScenario)
  : M CapacityAnalyser :=
  let* tan_load := math_tan_acos load_power_factor in
  let upper_load_limit_q_mw := (upper_load_limit_p_mw * tan_load)%Q in
  let* tan_gen := math_tan_acos gen_power_factor in
  let upper_gen_limit_q_mw := (upper_gen_limit_p_mw * tan_gen)%Q in
  (* attributes not assigned yet hold a placeholder; no method reads one *)
  let self :=
    mkCapacityAnalyser case_name
      (Complex upper_load_limit_p_mw upper_load_limit_q_mw)
      (Complex upper_gen_limit_p_mw upper_gen_limit_q_mw)
      selected_buses_ids solver_tolerance_p_mw solver_opts max_iterations
      normal_limits contingency_limits false (mkContingencyScenario [] [])
      (mkLoadCursor [] false None) (mkMachineCursor [] false None) in
  let* applicable := fdns_is_applicable self in
  let self := set_use_full_newton_raphson (negb applicable) self in
  check_base_case_violations self >>
  let* sc := handle_empty_contingency_scenario self contingency_scenario in
  let self := set_contingency_scenario sc self in
  let* loads := Loads in
  let self := set_loads_cursor (next_load loads None) self in
  let* machines := Machines in
  let self := set_machines_cursor (next_machine machines None) self in
  ret self.

(** The module-level [buses_headroom]. *)
Definition buses_headroom
  (case_name : string) (upper_load_limit_p_mw upper_gen_limit_p_mw : Q)
  (load_power_factor gen_power_factor : Q)
  (selected_buses_ids : option (list Z)) (solver_tolerance_p_mw : Q)
  (solver_opts : SolverOpts) (max_iterations : Z)
  (normal_limits contingency_limits : option ViolationsLimits)
  (contingency_scenario : option ContingencyScenario)
  : M (list BusHeadroom) :=
  let* capacity_analyser :=
    CapacityAnalyser___init__ case_name upper_load_limit_p_mw
      upper_gen_limit_p_mw load_power_factor gen_power_factor
      selected_buses_ids solver_tolerance_p_mw solver_opts max_iterations
      normal_limits contingency_limits contingency_scenario in
  CapacityAnalyser_buses_headroom capacity_analyser.

End Engine.

(** ** Reference notions for the streaming aggregation *)

(** Sum of [mva_act] over the loads of [ls] at [bus_number], added from
    [0j] in list order. *)
Definition bus_load_sum (bus_number : Z) (ls : list Load) : complex :=
  fold_left cadd
    (map Load_mva_act (List.filter (fun l => Load_number l =? bus_number) ls)) c0.

(** The loads a cursor has not consumed yet. *)
Definition remaining (c : LoadCursor) : list Load :=
  if _loads_available c then
    match _load c with
    | Some l => l :: _loads_iterator c
    | None => _loads_iterator c
    end
  else [].

(** A cursor that says a load is available holds one. *)
Definition cursor_ok (c : LoadCursor) : Prop :=
  _loads_available c = true -> exists l, _load c = Some l.

(** The cursor as [__init__] leaves it (lines 104-109). *)
Definition initial_cursor (loads : list Load) : LoadCursor :=
  next_load loads None.

(** Successive calls of [bus_actual_load_mva] on one analyser, as the bus
    sweep makes them. *)
Fixpoint query_sweep (c : LoadCursor) (bus_numbers : list Z)
  : Result (list complex * LoadCursor) :=
  match bus_numbers with
  | [] => Ok ([], c)
  | n :: ns =>
      match bus_actual_load_mva c n with
      | Ok (x, c') =>
          match query_sweep c' ns with
          | Ok (xs, c'') => Ok (x :: xs, c'')
          | Raise e => Raise e
          end
      | Raise e => Raise e
      end
  end.

Definition sorted_by_bus (ls : list Load) : Prop :=
  Sorted Z.le (map Load_number ls).

Definition load_at (n : Z) (p : Q) : Load :=
  mkLoad n "" "1" (Complex p 0).

Definition example_loads : list Load :=
  [load_at 1 5; load_at 1 3; load_at 4 2; load_at 9 1].

(** ** Reference notions for the search *)

(** What [feasibility_check] answers on a network state. *)
Definition feasible (ext : External) (self : CapacityAnalyser) (n : Network)
  : bool :=
  Violations_eqb
    (violations_of ext (_normal_limits self) (_use_full_newton_raphson self)
       (_solver_opts self) n) NO_VIOLATIONS
  && Violations_eqb
       (v (contingency_limiting_factor_of ext (_contingency_scenario self)
             (_contingency_limits self) (_use_full_newton_raphson self) n))
       NO_VIOLATIONS.

(** A feasibility oracle that is a threshold on the active power of the
    temporary load of bus [bus_number], on every network that holds such
    a load: feasible up to [T], not above.  This is the strongest reading
    of "threshold oracle"; [threshold_at_bus] below is the one that asks
    only for the states one search goes through. *)
Definition threshold_oracle (ext : External) (self : CapacityAnalyser)
  (bus_number : Z) (T : Q) : Prop :=
  forall (n : Network) (l : Load),
    find_load bus_number TEMP_LOAD_ID (net_loads n) = Some l ->
    feasible ext self n = Qle_bool (real (Load_mva_act l)) T.

(** The scope of a temporary load is active: the flag is set and the
    element is in the model (the state [__enter__] leaves). *)
Definition scope_active (temp : TemporaryBusLoad) (w : World) : Prop :=
  heap w !! TemporaryBusLoad_ref temp = Some true
  /\ exists l,
       find_load (Bus_number (TemporaryBusLoad_bus temp)) TEMP_LOAD_ID
         (net_loads (net w)) = Some l.

(** The limiting factor [feasibility_check] reports on a network state. *)
Definition limiting_factor_at (ext : External) (self : CapacityAnalyser)
  (n : Network) : option LimitingFactor :=
  let violations :=
    violations_of ext (_normal_limits self) (_use_full_newton_raphson self)
      (_solver_opts self) n in
  if negb (Violations_eqb violations NO_VIOLATIONS)
  then Some (mkLimitingFactor violations None)
  else
    let lf :=
      contingency_limiting_factor_of ext (_contingency_scenario self)
        (_contingency_limits self) (_use_full_newton_raphson self) n in
    if negb (Violations_eqb (v lf) NO_VIOLATIONS) then Some lf else None.

(** The external calls one feasibility probe makes. *)
Definition probe_events (ext : External) (self : CapacityAnalyser)
  (n : Network) : list Event :=
  if Violations_eqb
       (violations_of ext (_normal_limits self)
          (_use_full_newton_raphson self) (_solver_opts self) n)
       NO_VIOLATIONS
  then [EvCheckViolations; EvContingencyCheck]
  else [EvCheckViolations].

(** The world after [temp(p)] inside the scope of [temp]. *)
Definition set_temp_load (temp : TemporaryBusLoad) (p : complex) (w : World)
  : World :=
  let b := Bus_number (TemporaryBusLoad_bus temp) in
  let p' := Complex (real p) (imag p) in
  mkWorld
    (set_net_loads (change_load b TEMP_LOAD_ID p' (net_loads (net w))) (net w))
    (solved w) (heap w) (trace w ++ [EvLoadChng b TEMP_LOAD_ID p']).

(** A network with the temporary load of [temp] taken out. *)
Definition purged (temp : TemporaryBusLoad) (n : Network) : Network :=
  set_net_loads
    (remove_load (Bus_number (TemporaryBusLoad_bus temp)) TEMP_LOAD_ID
       (net_loads n)) n.

(** A computation that touches the network at most in the temporary load
    of [temp], on every path (normal or exceptional). *)
Definition keeps_purged {A} (temp : TemporaryBusLoad) (m : M A) : Prop :=
  forall w, purged temp (net (snd (m w))) = purged temp (net w).

Definition add_trace (evs : list Event) (w : World) : World :=
  mkWorld (net w) (solved w) (heap w) (trace w ++ evs).

(** ** Concrete cases used as examples *)

Definition bus_A : Bus := mkBus 1 "A".
Definition branch_12 : Branch := mkBranch 1 2 "1".

Definition example_net : Network :=
  mkNetwork [bus_A; mkBus 2 "B"; mkBus 3 "C"]
    [mkLoad 1 "A" "1" (Complex 10 5)] []
    [(branch_12, mkSwitch true false)] [].

(** Limits are violated exactly when the temporary load of bus 1 draws
    more than [T] MW; contingencies never add a violation. *)
Definition threshold_external (T : Q) : External :=
  mkExternal (fun _ => Some example_net) (fun _ _ _ => true)
    (fun _ _ _ n =>
       match find_load 1 TEMP_LOAD_ID (net_loads n) with
       | Some l => if Qle_bool (real (Load_mva_act l)) T then 0%N else 1%N
       | None => 0%N
       end)
    (fun _ _ _ _ => mkLimitingFactor NO_VIOLATIONS None)
    (fun _ => 1 # 2).

Definition example_analyser (tolerance : Q) (max_iterations : Z)
  : CapacityAnalyser :=
  mkCapacityAnalyser "case" (Complex 64 32) (Complex 64 32) None tolerance
    [] max_iterations None None false (mkContingencyScenario [] [])
    (mkLoadCursor [] false None) (mkMachineCursor [] false None).

Definition example_temp_load : TemporaryBusLoad := mkTemporaryBusLoad bus_A 0.

(** A world with the case loaded and a [TemporaryBusLoad(bus_A)] built but
    not entered. *)
Definition example_world : World :=
  mkWorld example_net true {[ 0%nat := false ]} [].

(** The same world inside [with temp_load:]. *)
Definition example_world_active : World :=
  snd (TemporaryBusLoad___enter__ example_temp_load example_world).

(** A body that fails before any set-power call. *)
Definition failing_body : M unit := raise (RuntimeError "solver crashed").

(** A case whose base state already violates limits. *)
Definition violating_external : External :=
  mkExternal (fun _ => Some example_net) (fun _ _ _ => true)
    (fun _ _ _ _ => 1%N)
    (fun _ _ _ _ => mkLimitingFactor NO_VIOLATIONS None)
    (fun _ => 1 # 2).

(** The example network with branch 1-2 structurally required: the model
    refuses to open it. *)
Definition example_net_required : Network :=
  set_net_branches [(branch_12, mkSwitch true true)] example_net.

Definition example_world_required : World :=
  mkWorld example_net_required true ∅ [].

(** The events with which the engine starts up on a case. *)
Definition startup_events (case_name : string) (fdns_converged : bool)
  : list Event :=
  if fdns_converged then [EvOpenCase case_name; EvRunSolver false]
  else [EvOpenCase case_name; EvRunSolver false;
        EvOpenCase case_name; EvRunSolver true].

(** ** [subsystems.py]: the raw columns behind the readers *)

(** [RawBuses], [RawBranches], [RawLoads]: parallel columns, as the array
    calls of [wrapped_funcs] return them. *)
Record RawBuses : Type := mkRawBuses {
  RawBuses_number : list Z;
  RawBuses_ex_name : list string
}.

Record RawBranches : Type := mkRawBranches {
  RawBranches_from_number : list Z;
  RawBranches_to_number : list Z;
  RawBranches_branch_id : list string
}.

Record RawLoads : Type := mkRawLoads {
  RawLoads_number : list Z;
  RawLoads_ex_name : list string;
  RawLoads_load_id : list string;
  RawLoads_mva_act : list complex
}.

(** What a generator gave before it stopped: the items it yielded, and
    whether it then ended or raised [IndexError] (a list subscript out of
    range). *)
Inductive Generated (A : Type) : Type :=
| Exhausted (items : list A)
| IndexError_after (items : list A).
Arguments Exhausted {A} items.
Arguments IndexError_after {A} items.

Definition yield_first {A} (x : A) (g : Generated A) : Generated A :=
  match g with
  | Exhausted xs => Exhausted (x :: xs)
  | IndexError_after xs => IndexError_after (x :: xs)
  end.

(** [for idx in range(...): yield row(idx)], [count] indices left from
    [idx]; [row idx] is [None] when a subscript of the row is out of
    range. *)
Fixpoint iter_rows {A} (row : nat -> option A) (idx count : nat)
  : Generated A :=
  match count with
  | O => Exhausted []
  | S count' =>
      match row idx with
      | Some r => yield_first r (iter_rows row (S idx) count')
      | None => IndexError_after []
      end
  end.

Definition Buses___len__ (raw : RawBuses) : nat :=
  length (RawBuses_number raw).

Definition Buses___iter__ (raw : RawBuses) : Generated Bus :=
  iter_rows
    (fun bus_idx =>
       match nth_error (RawBuses_number raw) bus_idx,
             nth_error (RawBuses_ex_name raw) bus_idx with
       | Some n, Some e => Some (mkBus n e)
       | _, _ => None
       end)
    0 (Buses___len__ raw).

Definition Branches___len__ (raw : RawBranches) : nat :=
  length (RawBranches_from_number raw).

Definition Branches___iter__ (raw : RawBranches) : Generated Branch :=
  iter_rows
    (fun branch_idx =>
       match nth_error (RawBranches_from_number raw) branch_idx,
             nth_error (RawBranches_to_number raw) branch_idx,
             nth_error (RawBranches_branch_id raw) branch_idx with
       | Some f, Some t, Some i => Some (mkBranch f t i)
       | _, _, _ => None
       end)
    0 (Branches___len__ raw).

Definition Loads___len__ (raw : RawLoads) : nat :=
  length (RawLoads_number raw).

Definition Loads___iter__ (raw : RawLoads) : Generated Load :=
  iter_rows
    (fun load_idx =>
       match nth_error (RawLoads_number raw) load_idx,
             nth_error (RawLoads_ex_name raw) load_idx,
             nth_error (RawLoads_load_id raw) load_idx,
             nth_error (RawLoads_mva_act raw) load_idx with
       | Some n, Some e, Some i, Some m => Some (mkLoad n e i m)
       | _, _, _, _ => None
       end)
    0 (Loads___len__ raw).

(** The rows the columns have in common. *)
Definition bus_rows (raw : RawBuses) : list Bus :=
  map (fun r => mkBus (fst r) (snd r))
    (combine (RawBuses_number raw) (RawBuses_ex_name raw)).

Definition branch_rows (raw : RawBranches) : list Branch :=
  map (fun r => mkBranch (fst r) (fst (snd r)) (snd (snd r)))
    (combine (RawBranches_from_number raw)
       (combine (RawBranches_to_number raw) (RawBranches_branch_id raw))).

Definition load_rows (raw : RawLoads) : list Load :=
  map (fun r =>
         mkLoad (fst r) (fst (snd r)) (fst (snd (snd r)))
           (snd (snd (snd r))))
    (combine (RawLoads_number raw)
       (combine (RawLoads_ex_name raw)
          (combine (RawLoads_load_id raw) (RawLoads_mva_act raw)))).

(** ** Further reference notions *)

(** An installation without the case file. *)
Definition no_case_external : External :=
  mkExternal (fun _ => None) (fun _ _ _ => true)
    (fun _ _ _ _ => NO_VIOLATIONS)
    (fun _ _ _ _ => mkLimitingFactor NO_VIOLATIONS None)
    (fun _ => 1 # 2).

(** The violations of the intact network, as [check_violations] of the
    analyser sees them. *)
Definition base_violations (ext : External) (self : CapacityAnalyser)
  (n : Network) : Violations :=
  violations_of ext (_normal_limits self) (_use_full_newton_raphson self)
    (_solver_opts self) n.

(** A computation that returns (raises nothing) from every state, and
    allocates no object. *)
Definition succeeds {A} (m : M A) : Prop :=
  forall w, exists a w', m w = (Ok a, w') /\ heap w' = heap w.

(** *** Streaming aggregation of the generation *)

(** Sum of [pq_gen] over the machines of [ms] at [bus_number], added from
    [0j] in list order. *)
Definition bus_gen_sum (bus_number : Z) (ms : list Machine) : complex :=
  fold_left cadd
    (map Machine_pq_gen
       (List.filter (fun m => Machine_number m =? bus_number) ms)) c0.

Definition machine_cursor_ok (c : MachineCursor) : Prop :=
  _machines_available c = true -> exists m, _machine c = Some m.

(** The machine cursor as [__init__] leaves it (lines 110-115). *)
Definition initial_machine_cursor (machines : list Machine) : MachineCursor :=
  next_machine machines None.

(** Successive calls of [bus_actual_gen_mva] on one analyser. *)
Fixpoint gen_query_sweep (c : MachineCursor) (bus_numbers : list Z)
  : Result (list complex * MachineCursor) :=
  match bus_numbers with
  | [] => Ok ([], c)
  | n :: ns =>
      match bus_actual_gen_mva c n with
      | Ok (x, c') =>
          match gen_query_sweep c' ns with
          | Ok (xs, c'') => Ok (x :: xs, c'')
          | Raise e => Raise e
          end
      | Raise e => Raise e
      end
  end.

(** A machine read as a load of the same bus and power: the two cursors
    of the analyser work alike. *)
Definition machine_as_load (m : Machine) : Load :=
  mkLoad (Machine_number m) (Machine_ex_name m) (Machine_id m)
    (Machine_pq_gen m).

Definition cursor_as_load (c : MachineCursor) : LoadCursor :=
  mkLoadCursor (map machine_as_load (_machines_iterator c))
    (_machines_available c) (option_map machine_as_load (_machine c)).

Definition machine_at (n : Z) (p : Q) : Machine :=
  mkMachine n "" "1" (Complex p 0).

Definition example_machines : list Machine :=
  [machine_at 2 7; machine_at 2 1; machine_at 5 4].

(** *** The search *)

Definition is_check (e : Event) : bool :=
  match e with
  | EvCheckViolations => true
  | _ => false
  end.

(** Number of violation checks (power flows of the intact network) among
    some events: one per feasibility probe. *)
Definition count_checks (evs : list Event) : nat :=
  length (List.filter is_check evs).

(** The events of the visit of one bus, [h] being its record: they start
    with the creation of the temporary load of that bus and hold at least
    one and at most [2 * max(1, max_iterations)] violation checks. *)
Definition bus_events (self : CapacityAnalyser) (h : BusHeadroom)
  (evs : list Event) : Prop :=
  (exists rest, evs = EvLoadData (Bus_number (bus h)) TEMP_LOAD_ID :: rest)
  /\ (1 <= count_checks evs)%nat
  /\ (count_checks evs
      <= 2 * Z.to_nat (Z.max 1 (_max_iterations self)))%nat.

(** [x] is the point [k * U] of the ray through [U]. *)
Definition on_ray (U : complex) (k : Q) (x : complex) : Prop :=
  (real x == k * real U)%Q /\ (imag x == k * imag U)%Q.

(** The load-headroom block of [bus_headroom] (lines 171-175). *)
Definition load_headroom_block (ext : External) (self : CapacityAnalyser)
  (b : Bus) : M (complex * option LimitingFactor) :=
  let* temp_load := TemporaryBusLoad___init__ b in
  with_subsystem temp_load
    (max_power_available_mva ext self temp_load (_upper_load_limit_mva self)).

(** *** The bus sweep *)

(** The scope of a temporary machine is active. *)
Definition machine_scope_active (temp : TemporaryBusMachine) (w : World)
  : Prop :=
  heap w !! TemporaryBusMachine_ref temp = Some true
  /\ exists m,
       find_machine (Bus_number (TemporaryBusMachine_bus temp))
         TEMP_MACHINE_ID (net_machines (net w)) = Some m.

(** The world after [temp(p)] inside the scope of a temporary machine. *)
Definition set_temp_machine (temp : TemporaryBusMachine) (p : complex)
  (w : World) : World :=
  let b := Bus_number (TemporaryBusMachine_bus temp) in
  let p' := Complex (real p) (imag p) in
  mkWorld
    (set_net_machines
       (change_machine b TEMP_MACHINE_ID p' (net_machines (net w))) (net w))
    (solved w) (heap w) (trace w ++ [EvMachineChng b TEMP_MACHINE_ID p']).

(** A network with the temporary machine of [temp] taken out. *)
Definition machine_purged (temp : TemporaryBusMachine) (n : Network)
  : Network :=
  set_net_machines
    (remove_machine (Bus_number (TemporaryBusMachine_bus temp))
       TEMP_MACHINE_ID (net_machines n)) n.

(** A computation under which [f] of the network does not change, on
    every path. *)
Definition net_frame {A} (f : Network -> Network) (m : M A) : Prop :=
  forall w, f (net (snd (m w))) = f (net w).

(** The generation-headroom block of [bus_headroom] (lines 179-183). *)
Definition gen_headroom_block (ext : External) (self : CapacityAnalyser)
  (b : Bus) : M (complex * option LimitingFactor) :=
  let* temp_gen := TemporaryBusMachine___init__ b in
  with_subsystem temp_gen
    (max_power_available_mva ext self temp_gen (_upper_gen_limit_mva self)).

(** The filter of the generator expression of [buses_headroom]. *)
Definition selected (self : CapacityAnalyser) (b : Bus) : bool :=
  match _selected_buses_ids self with
  | None => true
  | Some ids => existsb (Z.eqb (Bus_number b)) ids
  end.

(** No temporary element is left at a bus. *)
Definition no_temporary_element (n : Network) (b : Bus) : Prop :=
  find_load (Bus_number b) TEMP_LOAD_ID (net_loads n) = None
  /\ find_machine (Bus_number b) TEMP_MACHINE_ID (net_machines n) = None.

(** An analyser for the example case: loads at bus 1, a machine at bus 2,
    only buses 1 and 3 selected. *)
Definition example_sweep_net : Network :=
  mkNetwork [bus_A; mkBus 2 "B"; mkBus 3 "C"]
    [mkLoad 1 "A" "1" (Complex 10 5); mkLoad 2 "B" "1" (Complex 4 1)]
    [mkMachine 2 "B" "1" (Complex 20 3)]
    [(branch_12, mkSwitch true false)] [].

Definition example_sweep_analyser : CapacityAnalyser :=
  mkCapacityAnalyser "case" (Complex 64 32) (Complex 64 32) (Some [1; 3]) 1
    [] 10 None None false (mkContingencyScenario [] [])
    (initial_cursor (net_loads example_sweep_net))
    (initial_machine_cursor (net_machines example_sweep_net)).

Definition example_sweep_world : World :=
  mkWorld example_sweep_net true ∅ [].

(** ** The search under machine arithmetic

    The loop of [max_power_available_mva] has two arithmetic steps:
    [(lower_limit_mva + upper_limit_mva) / 2] and
    [upper_limit_mva.real - lower_limit_mva.real < tolerance].  Python
    evaluates them in binary64 and rounds each operation.  A finite
    binary64 value is a rational, so whatever the rounding does, each step
    is some function on rationals.  Below, the two steps are parameters
    and the rest is the search as the source has it; [bisection] and
    [max_power_available_mva] are the instance with exact arithmetic. *)

Section Rounded.
Context {Sub : Type} `{TemporaryBusSubsystem Sub}.
Variable ext : External.
(** [midpoint lower upper] is [(lower + upper) / 2]. *)
Variable midpoint : complex -> complex -> complex.
(** [narrow u l tolerance] is [u - l < tolerance]. *)
Variable narrow : Q -> Q -> Q -> bool.

Fixpoint bisection_rounded (self : CapacityAnalyser) (temp_subsystem : Sub)
  (n : nat) (lower_limit_mva upper_limit_mva : complex)
  (limiting_factor : option LimitingFactor)
  : M (complex * option LimitingFactor) :=
  match n with
  | O => ret (lower_limit_mva, limiting_factor)
  | S n' =>
      let middle_mva := midpoint lower_limit_mva upper_limit_mva in
      subsystem_call temp_subsystem middle_mva >>
      let* probe := feasibility_check ext self in
      let (is_feasible, limiting_factor') := probe in
      let lower' := if is_feasible then middle_mva else lower_limit_mva in
      let upper' := if is_feasible then upper_limit_mva else middle_mva in
      if narrow (real upper') (real lower') (_solver_tolerance_p_mw self)
      then ret (lower', limiting_factor')
      else bisection_rounded self temp_subsystem n' lower' upper'
             limiting_factor'
  end.

Definition max_power_available_mva_rounded (self : CapacityAnalyser)
  (temp_subsystem : Sub) (upper_limit_mva : complex)
  : M (complex * option LimitingFactor) :=
  let lower_limit_mva := c0 in
  subsystem_call temp_subsystem upper_limit_mva >>
  let* probe := feasibility_check ext self in
  let (is_feasible, limiting_factor) := probe in
  if is_feasible then ret (upper_limit_mva, limiting_factor)
  else
    bisection_rounded self temp_subsystem
      (Z.to_nat (_max_iterations self - 1))
      lower_limit_mva upper_limit_mva limiting_factor.

End Rounded.

(** The load-headroom block of [bus_headroom] (lines 171-175) under
    machine arithmetic. *)
Definition load_headroom_block_rounded (ext : External)
  (midpoint : complex -> complex -> complex) (narrow : Q -> Q -> Q -> bool)
  (self : CapacityAnalyser) (b : Bus) : M (complex * option LimitingFactor) :=
  let* temp_load := TemporaryBusLoad___init__ b in
  with_subsystem temp_load
    (max_power_available_mva_rounded ext midpoint narrow self temp_load
       (_upper_load_limit_mva self)).

(** Exact arithmetic. *)
Definition exact_midpoint (lower upper : complex) : complex :=
  chalf (cadd lower upper).

Definition exact_narrow (u l tolerance : Q) : bool := Q_ltb (u - l) tolerance.

(** What the properties below need of the arithmetic.  Both hold of exact
    arithmetic, and of round-to-nearest binary64 on finite values, because
    rounding is monotone and leaves machine numbers as they are. *)

(** A width reported below the tolerance is below it: when [u - l] is at
    least the tolerance, so is its rounding. *)
Definition narrow_sound (narrow : Q -> Q -> Q -> bool) : Prop :=
  forall u l tolerance : Q,
    narrow u l tolerance = true -> (u - l < tolerance)%Q.

(** [x] lies between [a] and [b], in either order. *)
Definition between (a b x : Q) : Prop :=
  (a <= x /\ x <= b)%Q \/ (b <= x /\ x <= a)%Q.

(** Each component of the midpoint lies between those of the two ends. *)
Definition midpoint_between (midpoint : complex -> complex -> complex)
  : Prop :=
  forall l u : complex,
    between (real l) (real u) (real (midpoint l u))
    /\ between (imag l) (imag u) (imag (midpoint l u)).

(** The feasibility oracle seen from one bus.  In the case as it stands
    in [w], the temporary load of bus [b] having been created, the check
    with that load set to [p] passes exactly when the active power of [p]
    is at most [T].  Nothing is asked of the oracle on any other state:
    it may read the whole case, and [T] may differ from bus to bus. *)
Definition threshold_at_bus (ext : External) (self : CapacityAnalyser)
  (b : Bus) (T : Q) (w : World) : Prop :=
  let temp := mkTemporaryBusLoad b (fresh (dom (heap w))) in
  let w1 := snd (TemporaryBusLoad___enter__ temp
                   (snd (TemporaryBusLoad___init__ b w))) in
  forall p : complex,
    feasible ext self (net (set_temp_load temp p w1)) = Qle_bool (real p) T.

(** The states one search goes through differ from the state [w1] it
    starts in by the power of the temporary load and by the trace only:
    setting the temporary load in [w] gives the network it gives in
    [w1]. *)
Definition same_case (temp : TemporaryBusLoad) (w1 w : World) : Prop :=
  forall p : complex,
    net (set_temp_load temp p w) = net (set_temp_load temp p w1).

(** [x] lies in the rectangle [[a, b] x [c, d]]. *)
Definition in_box (a b c d : Q) (x : complex) : Prop :=
  ((a <= real x)%Q /\ (real x <= b)%Q)
  /\ ((c <= imag x)%Q /\ (imag x <= d)%Q).

(** An oracle that reads the whole case: limits are violated exactly when
    the loads of the case draw more than [capacity] MW in total;
    contingencies never add a violation. *)
Definition total_active_load (n : Network) : Q :=
  fold_right (fun l acc => (real (Load_mva_act l) + acc)%Q) 0%Q (net_loads n).

Definition capacity_external (capacity : Q) : External :=
  mkExternal (fun _ => Some example_net) (fun _ _ _ => true)
    (fun _ _ _ n =>
       if Qle_bool (total_active_load n) capacity then 0%N else 1%N)
    (fun _ _ _ _ => mkLimitingFactor NO_VIOLATIONS None)
    (fun _ => 1 # 2).

(** * Properties *)

(** ** Streaming aggregation *)

Lemma fold_cadd_filter_none (n : Z) (ls : list Load) (acc : complex) :
  Forall (fun l => Load_number l <> n) ls ->
  fold_left cadd
    (map Load_mva_act (List.filter (fun l => Load_number l =? n) ls)) acc = acc.
Proof.
  induction 1 as [|l ls Hl _ IH]; simpl; [reflexivity|].
  destruct (Z.eqb_spec (Load_number l) n); [contradiction|exact IH].
Qed.

Lemma fold_cadd_filter_app (n : Z) (pre post : list Load) (acc : complex) :
  Forall (fun l => Load_number l <> n) post ->
  fold_left cadd
    (map Load_mva_act (List.filter (fun l => Load_number l =? n) (pre ++ post))) acc
  = fold_left cadd
      (map Load_mva_act (List.filter (fun l => Load_number l =? n) pre)) acc.
Proof.
  intros Hpost.
  rewrite List.filter_app, List.map_app, List.fold_left_app.
  apply fold_cadd_filter_none; exact Hpost.
Qed.

(** What one run of the loop does, whatever the order of the loads: it
    consumes a prefix [pre] of the unconsumed loads, all at or below the
    bus number, adds up the ones at the bus number, and stops on the first
    load above it. *)
Lemma cursor_ok_unavailable (it : list Load) (l : option Load) :
  cursor_ok (mkLoadCursor it false l).
Proof. intros Hav; discriminate Hav. Qed.

Lemma cursor_ok_holding (it : list Load) (b : bool) (l : Load) :
  cursor_ok (mkLoadCursor it b (Some l)).
Proof. intros _; exists l; reflexivity. Qed.

Create HintDb cursor.
#[local] Hint Resolve cursor_ok_unavailable cursor_ok_holding : cursor.

Lemma bus_actual_load_loop_spec (it : list Load) :
  forall (cur : Load) (n : Z) (acc : complex),
  exists (pre : list Load) (c' : LoadCursor),
    bus_actual_load_loop it (Some cur) n acc
    = Ok (fold_left cadd
            (map Load_mva_act (List.filter (fun l => Load_number l =? n) pre)) acc,
          c')
    /\ cur :: it = pre ++ remaining c'
    /\ Forall (fun l => Load_number l <= n) pre
    /\ cursor_ok c'
    /\ (forall l rest, remaining c' = l :: rest -> n < Load_number l).
Proof.
  induction it as [|nxt it IH]; intros cur n acc; simpl.
  - destruct (Z.leb_spec (Load_number cur) n) as [Hle|Hgt].
    + exists [cur], (mkLoadCursor [] false (Some cur)).
      simpl. split; [destruct (Load_number cur =? n); reflexivity|].
      split; [reflexivity|].
      split; [auto|]. split; [auto with cursor|].
      intros l rest Hrem; discriminate Hrem.
    + exists [], (mkLoadCursor [] true (Some cur)).
      simpl. split; [reflexivity|]. split; [reflexivity|].
      split; [auto|]. split; [auto with cursor|].
      intros l rest Hrem; injection Hrem as <- _; exact Hgt.
  - destruct (Z.leb_spec (Load_number cur) n) as [Hle|Hgt].
    + destruct (IH nxt n
                  (if Load_number cur =? n then cadd acc (Load_mva_act cur)
                   else acc))
        as (pre & c' & Hrun & Hsplit & Hpre & Hok & Hstop).
      exists (cur :: pre), c'. rewrite Hrun. simpl.
      split; [destruct (Load_number cur =? n); reflexivity|].
      split; [rewrite Hsplit; reflexivity|].
      split; [auto|]. split; assumption.
    + exists [], (mkLoadCursor (nxt :: it) true (Some cur)).
      simpl. split; [reflexivity|]. split; [reflexivity|].
      split; [auto|]. split; [auto with cursor|].
      intros l rest Hrem; injection Hrem as <- _; exact Hgt.
Qed.

Lemma bus_actual_load_mva_spec (c : LoadCursor) (n : Z) :
  cursor_ok c ->
  exists (pre : list Load) (c' : LoadCursor),
    bus_actual_load_mva c n = Ok (bus_load_sum n pre, c')
    /\ remaining c = pre ++ remaining c'
    /\ Forall (fun l => Load_number l <= n) pre
    /\ cursor_ok c'
    /\ (forall l rest, remaining c' = l :: rest -> n < Load_number l).
Proof.
  intros Hok. unfold bus_actual_load_mva, remaining at 1.
  destruct (_loads_available c) eqn:Hav.
  - destruct (Hok Hav) as [cur Hcur]. rewrite Hcur.
    apply bus_actual_load_loop_spec.
  - exists [], c. unfold bus_load_sum, remaining. rewrite Hav. simpl.
    split; [reflexivity|]. split; [reflexivity|].
    split; [auto|]. split; [assumption|].
    intros l rest Hrem; discriminate Hrem.
Qed.

Lemma sorted_by_bus_suffix (pre post : list Load) :
  sorted_by_bus (pre ++ post) -> sorted_by_bus post.
Proof.
  unfold sorted_by_bus. induction pre as [|l pre IH]; simpl; [auto|].
  intros Hs. apply Sorted_inv in Hs. apply IH, Hs.
Qed.

Lemma sorted_by_bus_above (n : Z) (l : Load) (rest : list Load) :
  sorted_by_bus (l :: rest) -> n < Load_number l ->
  Forall (fun x => n < Load_number x) (l :: rest).
Proof.
  unfold sorted_by_bus. simpl. intros Hs Hn.
  apply Sorted_StronglySorted in Hs; [|intros x y z; apply Z.le_trans].
  apply StronglySorted_inv in Hs as [_ Hall].
  constructor; [exact Hn|].
  rewrite List.Forall_map in Hall.
  eapply List.Forall_impl; [|exact Hall]. simpl. intros x Hx. lia.
Qed.

(** On loads ordered by bus number, one call returns the sum over all the
    unconsumed loads of the bus, and leaves only loads of larger buses. *)
Lemma bus_actual_load_mva_sorted (c : LoadCursor) (n : Z) :
  cursor_ok c -> sorted_by_bus (remaining c) ->
  exists (pre : list Load) (c' : LoadCursor),
    bus_actual_load_mva c n = Ok (bus_load_sum n (remaining c), c')
    /\ remaining c = pre ++ remaining c'
    /\ Forall (fun l => Load_number l <= n) pre
    /\ cursor_ok c'
    /\ Forall (fun l => n < Load_number l) (remaining c').
Proof.
  intros Hok Hs.
  destruct (bus_actual_load_mva_spec c n Hok)
    as (pre & c' & Hrun & Hsplit & Hpre & Hok' & Hstop).
  assert (Habove : Forall (fun l => n < Load_number l) (remaining c')).
  { destruct (remaining c') as [|l rest] eqn:Hrem; [constructor|].
    apply sorted_by_bus_above.
    - apply (sorted_by_bus_suffix pre). rewrite <- Hsplit. exact Hs.
    - apply (Hstop l rest eq_refl). }
  exists pre, c'. split; [|auto].
  rewrite Hrun. f_equal. f_equal. unfold bus_load_sum.
  rewrite Hsplit. symmetry. apply fold_cadd_filter_app.
  eapply List.Forall_impl; [|exact Habove]. simpl. intros l Hl. lia.
Qed.

Lemma initial_cursor_ok (loads : list Load) : cursor_ok (initial_cursor loads).
Proof. destruct loads; simpl; auto with cursor. Qed.

Lemma remaining_initial_cursor (loads : list Load) :
  remaining (initial_cursor loads) = loads.
Proof. destruct loads; reflexivity. Qed.

(** A sweep never raises, in whatever order the buses are asked for, and
    the cursor only moves forward. *)
Lemma query_sweep_total (ns : list Z) :
  forall c : LoadCursor, cursor_ok c ->
  exists (rs : list complex) (c' : LoadCursor) (pre : list Load),
    query_sweep c ns = Ok (rs, c')
    /\ cursor_ok c'
    /\ remaining c = pre ++ remaining c'.
Proof.
  induction ns as [|n ns IH]; intros c Hok; simpl.
  - exists [], c, []. auto.
  - destruct (bus_actual_load_mva_spec c n Hok)
      as (pre & c1 & Hrun & Hsplit & _ & Hok1 & _).
    destruct (IH c1 Hok1) as (rs & c' & pre' & Hsw & Hok' & Hsplit').
    exists (bus_load_sum n pre :: rs), c', (pre ++ pre').
    rewrite Hrun, Hsw. split; [reflexivity|]. split; [assumption|].
    rewrite Hsplit, Hsplit', app_assoc. reflexivity.
Qed.

(** After a sweep over ordered loads, every load left is of a bus above
    every bus asked for. *)
Lemma query_sweep_sorted (ns : list Z) :
  forall c : LoadCursor, cursor_ok c -> sorted_by_bus (remaining c) ->
  exists (rs : list complex) (c' : LoadCursor) (pre : list Load),
    query_sweep c ns = Ok (rs, c')
    /\ cursor_ok c'
    /\ remaining c = pre ++ remaining c'
    /\ Forall (fun l => Forall (fun n => n < Load_number l) ns) (remaining c').
Proof.
  induction ns as [|n ns IH]; intros c Hok Hs; simpl.
  - exists [], c, []. split; [reflexivity|]. split; [assumption|].
    split; [reflexivity|]. apply List.Forall_forall. intros; constructor.
  - destruct (bus_actual_load_mva_sorted c n Hok Hs)
      as (pre & c1 & Hrun & Hsplit & _ & Hok1 & Habove).
    assert (Hs1 : sorted_by_bus (remaining c1)).
    { apply (sorted_by_bus_suffix pre). rewrite <- Hsplit. exact Hs. }
    destruct (IH c1 Hok1 Hs1) as (rs & c' & pre' & Hsw & Hok' & Hsplit' & Hall).
    exists (bus_load_sum n (remaining c) :: rs), c', (pre ++ pre').
    rewrite Hrun, Hsw. split; [reflexivity|]. split; [assumption|].
    split; [rewrite Hsplit, Hsplit', app_assoc; reflexivity|].
    rewrite Hsplit' in Habove. apply List.Forall_app in Habove as [_ Habove].
    apply List.Forall_forall. intros l Hl. constructor.
    + rewrite List.Forall_forall in Habove. apply Habove, Hl.
    + rewrite List.Forall_forall in Hall. apply Hall, Hl.
Qed.

(** The sweep of an ordered load list by strictly increasing bus numbers,
    started with the loads in [pre] consumed. *)
Lemma query_sweep_increasing (ns : list Z) :
  forall (c : LoadCursor) (pre : list Load),
  cursor_ok c -> sorted_by_bus (remaining c) ->
  StronglySorted Z.lt ns ->
  Forall (fun l => Forall (fun n => Load_number l < n) ns) pre ->
  exists (c' : LoadCursor) (pre' : list Load),
    query_sweep c ns
    = Ok (map (fun n => bus_load_sum n (pre ++ remaining c)) ns, c')
    /\ remaining c = pre' ++ remaining c'.
Proof.
  induction ns as [|n ns IH]; intros c pre Hok Hs Hns Hpre; simpl.
  - exists c, []. auto.
  - destruct (bus_actual_load_mva_sorted c n Hok Hs)
      as (pre1 & c1 & Hrun & Hsplit & Hpre1 & Hok1 & _).
    apply StronglySorted_inv in Hns as [Hns Hn].
    assert (Hs1 : sorted_by_bus (remaining c1)).
    { apply (sorted_by_bus_suffix pre1). rewrite <- Hsplit. exact Hs. }
    destruct (IH c1 (pre ++ pre1) Hok1 Hs1 Hns) as (c' & pre' & Hsw & Hsplit').
    { apply List.Forall_app. split.
      - eapply List.Forall_impl; [|exact Hpre]. simpl. intros l Hl.
        apply List.Forall_inv_tail in Hl. exact Hl.
      - eapply List.Forall_impl; [|exact Hpre1]. simpl. intros l Hl.
        eapply List.Forall_impl; [|exact Hn]. simpl. intros m Hm. lia. }
    exists c', (pre1 ++ pre'). rewrite Hrun, Hsw.
    split; [|rewrite Hsplit, Hsplit', app_assoc; reflexivity].
    assert (Hnone : Forall (fun l => Load_number l <> n) pre).
    { eapply List.Forall_impl; [|exact Hpre]. simpl. intros l Hl.
      apply List.Forall_inv in Hl. lia. }
    assert (Hhead : bus_load_sum n (remaining c)
                    = bus_load_sum n (pre ++ remaining c)).
    { unfold bus_load_sum.
      rewrite List.filter_app, List.map_app, List.fold_left_app.
      rewrite (fold_cadd_filter_none n pre c0 Hnone). reflexivity. }
    rewrite Hhead, Hsplit, app_assoc. reflexivity.
Qed.

(** C6, as the claim words it, fails: a bus number asked for twice is a
    non-decreasing sequence, and the second answer is [0j]. *)
Lemma bus_actual_load_mva_repeated_query :
  ~ (forall (loads : list Load) (ns : list Z),
       sorted_by_bus loads -> Sorted Z.le ns ->
       exists c',
         query_sweep (initial_cursor loads) ns
         = Ok (map (fun n => bus_load_sum n loads) ns, c')).
Proof.
  intros Hclaim.
  destruct (Hclaim [load_at 1 5] [1; 1]) as [c' Hrun].
  - repeat constructor.
  - repeat constructor; discriminate.
  - vm_compute in Hrun. discriminate Hrun.
Qed.

(** C6 (amended): for every loads list that is non-decreasing in bus
    number and every strictly increasing sequence of queried bus numbers,
    each call of [bus_actual_load_mva] returns the sum of [mva_act] over
    all loads of that bus, and the single cursor only moves forward (what
    is left is a suffix of the loads). *)
Theorem bus_actual_load_mva_streaming (loads : list Load) (ns : list Z) :
  sorted_by_bus loads -> Sorted Z.lt ns ->
  exists c',
    query_sweep (initial_cursor loads) ns
    = Ok (map (fun n => bus_load_sum n loads) ns, c')
    /\ exists consumed, loads = consumed ++ remaining c'.
Proof.
  intros Hs Hns.
  apply Sorted_StronglySorted in Hns; [|intros x y z; apply Z.lt_trans].
  destruct (query_sweep_increasing ns (initial_cursor loads) [])
    as (c' & pre' & Hsw & Hsplit); auto using initial_cursor_ok.
  - rewrite remaining_initial_cursor. exact Hs.
  - rewrite remaining_initial_cursor in Hsw, Hsplit.
    exists c'. split; [exact Hsw|]. exists pre'. exact Hsplit.
Qed.

(** The example of the spec: loads [(1,5), (1,3), (4,2), (9,1)], buses
    [1, 4, 9]. *)
Lemma bus_actual_load_mva_streaming_example :
  sorted_by_bus example_loads /\ Sorted Z.lt [1; 4; 9] /\
  exists c',
    query_sweep (initial_cursor example_loads) [1; 4; 9]
    = Ok ([Complex 8 0; Complex 2 0; Complex 1 0], c').
Proof.
  assert (H1 : sorted_by_bus example_loads)
    by (repeat constructor; discriminate).
  assert (H2 : Sorted Z.lt [1; 4; 9]) by (repeat constructor).
  split; [exact H1|]. split; [exact H2|].
  destruct (bus_actual_load_mva_streaming example_loads [1; 4; 9] H1 H2)
    as [c' [Hrun _]].
  exists c'. exact Hrun.
Defined.

Lemma bus_load_sum_none (n : Z) (ls : list Load) :
  Forall (fun l => Load_number l <> n) ls -> bus_load_sum n ls = c0.
Proof. apply fold_cadd_filter_none. Qed.

(** A call that finds the cursor on a load of a larger bus, or finds it
    exhausted, does nothing. *)
Lemma bus_actual_load_mva_noop (c : LoadCursor) (n : Z) :
  cursor_ok c ->
  (forall l rest, remaining c = l :: rest -> n < Load_number l) ->
  bus_actual_load_mva c n = Ok (c0, c).
Proof.
  intros Hok Habove. unfold bus_actual_load_mva.
  destruct c as [it av cur]. simpl in *. destruct av; [|reflexivity].
  destruct (Hok eq_refl) as [l Hl]. simpl in Hl. subst cur.
  unfold remaining in Habove. simpl in Habove.
  specialize (Habove l it eq_refl).
  destruct it as [|nxt it]; simpl;
    destruct (Z.leb_spec (Load_number l) n); try lia; reflexivity.
Qed.

(** After a sweep, in whatever order the buses were asked for and
    whatever the order of the loads, the cursor stands on a load of a bus
    above every bus asked for (or is exhausted), and every load it has
    passed is at or below a bus asked for. *)
Lemma query_sweep_head_above (ns : list Z) :
  forall (c : LoadCursor) (earlier : list Z),
  cursor_ok c ->
  (forall l rest, remaining c = l :: rest ->
     Forall (fun q => q < Load_number l) earlier) ->
  exists (rs : list complex) (c' : LoadCursor) (pre : list Load),
    query_sweep c ns = Ok (rs, c')
    /\ cursor_ok c'
    /\ remaining c = pre ++ remaining c'
    /\ Forall (fun l => exists q, In q ns /\ Load_number l <= q) pre
    /\ (forall l rest, remaining c' = l :: rest ->
          Forall (fun q => q < Load_number l) (earlier ++ ns)).
Proof.
  induction ns as [|n ns IH]; intros c earlier Hok Hhead; simpl.
  - exists [], c, []. split; [reflexivity|]. split; [assumption|].
    split; [reflexivity|]. split; [constructor|].
    rewrite app_nil_r. exact Hhead.
  - destruct (bus_actual_load_mva_spec c n Hok)
      as (pre & c1 & Hrun & Hsplit & Hpre & Hok1 & Hstop).
    destruct (IH c1 (earlier ++ [n]) Hok1)
      as (rs & c' & pre' & Hsw & Hok' & Hsplit' & Hpre' & Hhead').
    { intros l rest Hrem. apply List.Forall_app. split.
      - destruct pre as [|l0 pre0].
        + simpl in Hsplit. rewrite Hrem in Hsplit.
          exact (Hhead l rest Hsplit).
        + simpl in Hsplit. specialize (Hhead l0 _ Hsplit).
          apply List.Forall_inv in Hpre.
          specialize (Hstop l rest Hrem).
          eapply List.Forall_impl; [|exact Hhead]. simpl. intros q Hq. lia.
      - constructor; [exact (Hstop l rest Hrem)|constructor]. }
    exists (bus_load_sum n pre :: rs), c', (pre ++ pre').
    rewrite Hrun, Hsw. split; [reflexivity|]. split; [assumption|].
    split; [rewrite Hsplit, Hsplit', app_assoc; reflexivity|].
    split.
    + apply List.Forall_app. split.
      * eapply List.Forall_impl; [|exact Hpre]. simpl. intros l Hl.
        exists n. split; [left; reflexivity|exact Hl].
      * eapply List.Forall_impl; [|exact Hpre']. simpl.
        intros l (q & Hq & Hl). exists q. split; [right; exact Hq|exact Hl].
    + intros l rest Hrem. specialize (Hhead' l rest Hrem).
      rewrite <- app_assoc in Hhead'. exact Hhead'.
Qed.

(** C10, as the claim words it, fails on loads that are not ordered by
    bus number: with the loads [(9,1), (1,5)] and bus 4 asked for first,
    nothing is consumed; the load of bus 1 is still ahead of the cursor,
    so the sum over the unconsumed loads of bus 1 is [5], but the call
    for bus 1 answers [0j]. *)
Lemma bus_actual_load_mva_unconsumed_ignored :
  ~ (forall (loads : list Load) (history : list Z) (q n : Z),
       In q history -> n < q ->
       exists (rs : list complex) (c c' : LoadCursor),
         query_sweep (initial_cursor loads) history = Ok (rs, c)
         /\ bus_actual_load_mva c n
            = Ok (bus_load_sum n (remaining c), c')).
Proof.
  intros Hclaim.
  destruct (Hclaim [load_at 9 1; load_at 1 5] [4] 4 1)
    as (rs & c & c' & Hsw & Hrun).
  - left; reflexivity.
  - reflexivity.
  - vm_compute in Hsw. injection Hsw as _ <-.
    vm_compute in Hrun. discriminate Hrun.
Qed.

(** C10 (amended): a call with a bus number below one already asked for
    raises nothing, answers [0j] and leaves the cursor as it was, whatever
    the order of the loads: after the earlier calls the cursor is
    exhausted or stands on a load of a bus above every bus asked for, all
    loads it has passed being at or below one of them.  Loads of that bus
    that are still ahead of the cursor are not counted; on loads ordered
    by bus number there are none. *)
Theorem bus_actual_load_mva_decreasing_order
  (loads : list Load) (history : list Z) (q n : Z) :
  In q history -> n < q ->
  exists (rs : list complex) (c : LoadCursor) (consumed : list Load),
    query_sweep (initial_cursor loads) history = Ok (rs, c)
    /\ loads = consumed ++ remaining c
    /\ Forall (fun l => exists q', In q' history /\ Load_number l <= q')
         consumed
    /\ (forall l rest, remaining c = l :: rest ->
          Forall (fun q' => q' < Load_number l) history)
    /\ bus_actual_load_mva c n = Ok (c0, c)
    /\ (sorted_by_bus loads -> bus_load_sum n (remaining c) = c0).
Proof.
  intros Hq Hlt.
  destruct (query_sweep_head_above history (initial_cursor loads) []
              (initial_cursor_ok loads))
    as (rs & c & consumed & Hsw & Hok & Hsplit & Hconsumed & Hhead).
  { intros; constructor. }
  rewrite remaining_initial_cursor in Hsplit. simpl in Hhead.
  exists rs, c, consumed.
  split; [exact Hsw|]. split; [exact Hsplit|]. split; [exact Hconsumed|].
  split; [exact Hhead|]. split.
  - apply bus_actual_load_mva_noop; [exact Hok|].
    intros l rest Hrem. specialize (Hhead l rest Hrem).
    rewrite List.Forall_forall in Hhead. specialize (Hhead q Hq). lia.
  - intros Hs. apply bus_load_sum_none.
    destruct (query_sweep_sorted history (initial_cursor loads)
                (initial_cursor_ok loads))
      as (rs2 & c2 & pre2 & Hsw2 & _ & _ & Habove).
    { rewrite remaining_initial_cursor. exact Hs. }
    rewrite Hsw in Hsw2. injection Hsw2 as _ <-.
    eapply List.Forall_impl; [|exact Habove]. simpl. intros l Hl.
    rewrite List.Forall_forall in Hl. specialize (Hl q Hq). lia.
Qed.

(** The order the spec rules out: bus 4, then bus 1 again.  Nothing is
    raised, the answer for bus 1 is [0j], not [8+0j], and the cursor has
    not moved. *)
Lemma bus_actual_load_mva_decreasing_order_example :
  In 4 [4] /\ 1 < 4 /\
  exists rs c,
    query_sweep (initial_cursor example_loads) [4] = Ok (rs, c)
    /\ bus_actual_load_mva c 1 = Ok (c0, c).
Proof.
  assert (H1 : In 4 [4]) by (left; reflexivity).
  assert (H2 : 1 < 4) by reflexivity.
  split; [exact H1|]. split; [exact H2|].
  destruct (bus_actual_load_mva_decreasing_order example_loads [4] 4 1 H1 H2)
    as (rs & c & consumed & Hsw & _ & _ & _ & Hrun & _).
  exists rs, c. split; [exact Hsw|exact Hrun].
Defined.

(** ** Running computations *)

Lemma bind_run {A B} (m : M A) (k : A -> M B) (w w' : World) (a : A) :
  m w = (Ok a, w') -> bind m k w = k a w'.
Proof. intros Hm. unfold bind. rewrite Hm. reflexivity. Qed.

Section SearchFacts.
Variable ext : External.
Variable self : CapacityAnalyser.

Lemma feasibility_check_run (w : World) :
  feasibility_check ext self w
  = (Ok (feasible ext self (net w), limiting_factor_at ext self (net w)),
     add_trace (probe_events ext self (net w)) w).
Proof.
  unfold feasibility_check, check_violations, contingency_check,
    ext_check_violations, get_contingency_limiting_factor, feasible,
    limiting_factor_at, probe_events, bind, log, get_net, ret, add_trace.
  simpl.
  destruct (Violations_eqb (violations_of ext _ _ _ (net w)) NO_VIOLATIONS);
    simpl; [|reflexivity].
  rewrite <- app_assoc. simpl.
  destruct (Violations_eqb (v _) NO_VIOLATIONS); reflexivity.
Qed.

End SearchFacts.

(** ** The temporary load inside its scope *)

Lemma find_load_change_load (b : Z) (id : string) (p : complex)
  (ls : list Load) (l : Load) :
  find_load b id ls = Some l ->
  find_load b id (change_load b id p ls)
  = Some (mkLoad (Load_number l) (Load_ex_name l) (Load_id l) p).
Proof.
  unfold find_load. induction ls as [|x ls IH]; simpl; [discriminate|].
  destruct (load_has_key b id x) eqn:Hx; simpl.
  - intros [= ->]. unfold load_has_key in *. simpl. rewrite Hx. reflexivity.
  - rewrite Hx. exact IH.
Qed.

Lemma TemporaryBusLoad_call_active (temp : TemporaryBusLoad) (p : complex)
  (w : World) :
  heap w !! TemporaryBusLoad_ref temp = Some true ->
  TemporaryBusLoad___call__ temp p w = (Ok tt, set_temp_load temp p w).
Proof.
  intros Hflag.
  unfold TemporaryBusLoad___call__, bind, get_flag. rewrite Hflag.
  reflexivity.
Qed.

Lemma scope_active_set_temp_load (temp : TemporaryBusLoad) (p : complex)
  (w : World) :
  scope_active temp w -> scope_active temp (set_temp_load temp p w).
Proof.
  intros [Hflag [l Hl]]. split; [exact Hflag|]. simpl.
  eexists. apply find_load_change_load. exact Hl.
Qed.

Lemma scope_active_add_trace (temp : TemporaryBusLoad) (evs : list Event)
  (w : World) :
  scope_active temp w -> scope_active temp (add_trace evs w).
Proof. intros H. exact H. Qed.

Lemma temp_load_power (temp : TemporaryBusLoad) (p : complex) (w : World) :
  scope_active temp w ->
  exists l,
    find_load (Bus_number (TemporaryBusLoad_bus temp)) TEMP_LOAD_ID
      (net_loads (net (set_temp_load temp p w))) = Some l
    /\ real (Load_mva_act l) = real p.
Proof.
  intros [_ [l Hl]]. eexists. split.
  - simpl. apply find_load_change_load. exact Hl.
  - reflexivity.
Qed.

Lemma Q_ltb_true (a b : Q) : Q_ltb a b = true <-> (a < b)%Q.
Proof.
  unfold Q_ltb. rewrite negb_true_iff. split.
  - intros H. apply Qnot_le_lt. intros Hle.
    apply Qle_bool_iff in Hle. congruence.
  - intros H. destruct (Qle_bool b a) eqn:Hb; [|reflexivity].
    apply Qle_bool_iff in Hb. lra.
Qed.

Lemma Qle_bool_false (a b : Q) : Qle_bool a b = false <-> (b < a)%Q.
Proof.
  split.
  - intros H. apply Qnot_le_lt. intros Hle.
    apply Qle_bool_iff in Hle. congruence.
  - intros H. destruct (Qle_bool a b) eqn:Hb; [|reflexivity].
    apply Qle_bool_iff in Hb. lra.
Qed.

Lemma feasible_limiting_factor (ext : External) (self : CapacityAnalyser)
  (n : Network) :
  feasible ext self n = true ->
  limiting_factor_at ext self n = None
  /\ probe_events ext self n = [EvCheckViolations; EvContingencyCheck].
Proof.
  unfold feasible, limiting_factor_at, probe_events.
  intros H. apply andb_true_iff in H as [H1 H2].
  rewrite H1. simpl. rewrite H2. split; reflexivity.
Qed.

Lemma infeasible_limiting_factor (ext : External) (self : CapacityAnalyser)
  (n : Network) :
  feasible ext self n = false ->
  exists lf, limiting_factor_at ext self n = Some lf
             /\ v lf <> NO_VIOLATIONS.
Proof.
  unfold feasible, limiting_factor_at.
  destruct (Violations_eqb (violations_of ext _ _ _ n) NO_VIOLATIONS) eqn:H1;
    simpl.
  - intros H2. rewrite H2. simpl. eexists. split; [reflexivity|].
    intros Heq. unfold Violations_eqb in H2. rewrite Heq in H2.
    discriminate H2.
  - intros _. eexists. split; [reflexivity|]. simpl.
    intros Heq. unfold Violations_eqb in H1. rewrite Heq in H1.
    discriminate H1.
Qed.

(** C5: when the upper bound [U] is feasible, [max_power_available_mva]
    returns [U] itself, with no limiting factor, and the only things it
    did are the one set-power call and the one feasibility check (one
    violation check and one contingency check): no bisection step. *)
Theorem max_power_available_mva_upper_feasible
  {S : Type} `{TemporaryBusSubsystem S}
  (ext : External) (self : CapacityAnalyser) (temp_subsystem : S)
  (U : complex) (w w1 : World) :
  subsystem_call temp_subsystem U w = (Ok tt, w1) ->
  feasible ext self (net w1) = true ->
  max_power_available_mva ext self temp_subsystem U w
  = (Ok (U, None), add_trace [EvCheckViolations; EvContingencyCheck] w1).
Proof.
  intros Hcall Hfeas. unfold max_power_available_mva.
  rewrite (bind_run _ _ _ _ _ Hcall).
  rewrite (bind_run _ _ _ _ _ (feasibility_check_run ext self w1)).
  rewrite Hfeas.
  destruct (feasible_limiting_factor ext self (net w1) Hfeas) as [-> ->].
  reflexivity.
Qed.

Lemma threshold_external_oracle (T : Q) (self : CapacityAnalyser) :
  threshold_oracle (threshold_external T) self 1 T.
Proof.
  intros n l Hl. unfold feasible. simpl. rewrite Hl.
  destruct (Qle_bool (real (Load_mva_act l)) T); reflexivity.
Qed.

(** With an upper bound of 64 MW and everything up to 100 MW feasible, the
    answer is the upper bound after one probe. *)
Lemma max_power_available_mva_upper_feasible_example :
  max_power_available_mva (threshold_external 100) (example_analyser 1 10)
    example_temp_load (Complex 64 32) example_world_active
  = (Ok (Complex 64 32, None),
     add_trace [EvCheckViolations; EvContingencyCheck]
       (set_temp_load example_temp_load (Complex 64 32)
          example_world_active)).
Proof.
  apply (max_power_available_mva_upper_feasible (threshold_external 100)
           (example_analyser 1 10) example_temp_load (Complex 64 32)
           example_world_active).
  - reflexivity.
  - reflexivity.
Defined.

(** ** Scoped mutators *)

Lemma load_has_key_refl (b : Z) (name id : string) (p : complex) :
  load_has_key b id (mkLoad b name id p) = true.
Proof.
  unfold load_has_key. simpl. rewrite Z.eqb_refl, String.eqb_refl.
  reflexivity.
Qed.

Lemma find_load_add_load (b : Z) (name id : string) (p : complex)
  (ls : list Load) :
  find_load b id ls = None ->
  find_load b id (add_load (mkLoad b name id p) ls)
  = Some (mkLoad b name id p).
Proof.
  unfold find_load. induction ls as [|x ls IH]; simpl.
  - intros _. rewrite load_has_key_refl. reflexivity.
  - destruct (load_has_key b id x) eqn:Hx; [discriminate|]. intros Hnone.
    destruct (b <? Load_number x); simpl.
    + rewrite load_has_key_refl. reflexivity.
    + rewrite Hx. apply IH, Hnone.
Qed.

Lemma remove_load_add_load (b : Z) (name id : string) (p : complex)
  (ls : list Load) :
  find_load b id ls = None ->
  remove_load b id (add_load (mkLoad b name id p) ls) = ls.
Proof.
  unfold find_load. induction ls as [|x ls IH]; simpl.
  - intros _. rewrite load_has_key_refl. reflexivity.
  - destruct (load_has_key b id x) eqn:Hx; [discriminate|]. intros Hnone.
    destruct (b <? Load_number x); simpl.
    + rewrite load_has_key_refl. reflexivity.
    + rewrite Hx, (IH Hnone). reflexivity.
Qed.

Lemma remove_load_change_load (b : Z) (id : string) (p : complex)
  (ls : list Load) :
  remove_load b id (change_load b id p ls) = remove_load b id ls.
Proof.
  induction ls as [|x ls IH]; simpl; [reflexivity|].
  destruct (load_has_key b id x) eqn:Hx; simpl.
  - unfold load_has_key in *. simpl. rewrite Hx. reflexivity.
  - rewrite Hx, IH. reflexivity.
Qed.

Lemma purged_after_enter (temp : TemporaryBusLoad) (w : World) :
  find_load (Bus_number (TemporaryBusLoad_bus temp)) TEMP_LOAD_ID
    (net_loads (net w)) = None ->
  purged temp (net (snd (TemporaryBusLoad___enter__ temp w))) = net w.
Proof.
  intros Hnone. unfold purged. simpl. rewrite Hnone. simpl.
  rewrite (remove_load_add_load _ _ _ _ _ Hnone).
  destruct (net w); reflexivity.
Qed.

(** [__call__] outside the scope: a usage error, and nothing else. *)
Lemma TemporaryBusLoad_call_inactive (temp : TemporaryBusLoad) (p : complex)
  (w : World) :
  heap w !! TemporaryBusLoad_ref temp = Some false ->
  exists msg,
    TemporaryBusLoad___call__ temp p w = (Raise (RuntimeError msg), w).
Proof.
  intros Hflag. unfold TemporaryBusLoad___call__, bind, get_flag.
  rewrite Hflag. eexists. reflexivity.
Qed.

(** C9: a [TemporaryBusLoad] called before [__enter__] or after
    [__exit__] raises [RuntimeError] and leaves the whole state (network
    included) as it was; called inside the scope it returns and the
    temporary element carries the new power. *)
Theorem TemporaryBusLoad_call_lifecycle (b : Bus) (p : complex) (w0 : World) :
  exists (temp : TemporaryBusLoad) (w1 w2 w3 w4 : World),
    TemporaryBusLoad___init__ b w0 = (Ok temp, w1)
    /\ (exists msg,
          TemporaryBusLoad___call__ temp p w1 = (Raise (RuntimeError msg), w1))
    /\ TemporaryBusLoad___enter__ temp w1 = (Ok tt, w2)
    /\ TemporaryBusLoad___call__ temp p w2 = (Ok tt, w3)
    /\ (exists l,
          find_load (Bus_number b) TEMP_LOAD_ID (net_loads (net w3)) = Some l
          /\ Load_mva_act l = p)
    /\ TemporaryBusLoad___exit__ temp w3 = (Ok tt, w4)
    /\ (exists msg,
          TemporaryBusLoad___call__ temp p w4 = (Raise (RuntimeError msg), w4)).
Proof.
  set (r := fresh (dom (heap w0))).
  set (temp := mkTemporaryBusLoad b r).
  set (w1 := mkWorld (net w0) (solved w0) (<[r := false]> (heap w0)) (trace w0)).
  assert (H1 : heap w1 !! TemporaryBusLoad_ref temp = Some false)
    by apply lookup_insert_eq.
  set (w2 := snd (TemporaryBusLoad___enter__ temp w1)).
  assert (H2 : heap w2 !! TemporaryBusLoad_ref temp = Some true)
    by apply lookup_insert_eq.
  assert (Hact : scope_active temp w2).
  { split; [exact H2|]. simpl.
    destruct (find_load (Bus_number b) TEMP_LOAD_ID (net_loads (net w0)))
      as [l|] eqn:Hl; simpl.
    - exists l. exact Hl.
    - eexists. apply find_load_add_load. exact Hl. }
  set (w3 := set_temp_load temp p w2).
  set (w4 := snd (TemporaryBusLoad___exit__ temp w3)).
  assert (H4 : heap w4 !! TemporaryBusLoad_ref temp = Some false)
    by apply lookup_insert_eq.
  exists temp, w1, w2, w3, w4.
  split; [reflexivity|].
  split; [apply TemporaryBusLoad_call_inactive; exact H1|].
  split; [reflexivity|].
  split; [apply TemporaryBusLoad_call_active; exact H2|].
  split.
  { destruct Hact as [_ [l Hl]]. eexists. split.
    - simpl. apply find_load_change_load. exact Hl.
    - destruct p; reflexivity. }
  split; [reflexivity|].
  apply TemporaryBusLoad_call_inactive; exact H4.
Qed.

(** *** Switch tables *)

Section SwitchFacts.
Context {K : Type} (eqb : K -> K -> bool).

Lemma set_switch_restore (k : K) (t : list (K * Switch)) (s : Switch) :
  find_switch eqb k t = Some s -> in_service s = true ->
  fst (set_switch eqb k true (fst (set_switch eqb k false t))) = t.
Proof.
  induction t as [|[k' s'] t IH]; simpl; [discriminate|].
  destruct (eqb k' k) eqn:Hk.
  - intros [= ->] Hs. destruct s as [ins req]. simpl in *. subst ins.
    destruct req; simpl; rewrite Hk; reflexivity.
  - intros Hfind Hs. specialize (IH Hfind Hs).
    destruct (set_switch eqb k false t) as [t1 ok1] eqn:H1. simpl in *.
    rewrite Hk.
    destruct (set_switch eqb k true t1) as [t2 ok2] eqn:H2. simpl in *.
    rewrite IH. reflexivity.
Qed.

Lemma find_switch_closed (k : K) (t : list (K * Switch)) (s : Switch) :
  find_switch eqb k t = Some s ->
  exists s', find_switch eqb k (fst (set_switch eqb k true t)) = Some s'
             /\ in_service s' = true.
Proof.
  induction t as [|[k' s'] t IH]; simpl; [discriminate|].
  destruct (eqb k' k) eqn:Hk.
  - intros _. simpl. rewrite Hk. eexists. split; reflexivity.
  - intros Hfind. destruct (IH Hfind) as (s2 & Hs2 & Hin).
    destruct (set_switch eqb k true t) as [t1 ok1]. simpl in *.
    rewrite Hk. exists s2. split; assumption.
Qed.

End SwitchFacts.

(** *** The probes leave the rest of the network alone *)

Lemma keeps_purged_bind {A B} (temp : TemporaryBusLoad) (m : M A)
  (k : A -> M B) :
  keeps_purged temp m -> (forall a, keeps_purged temp (k a)) ->
  keeps_purged temp (bind m k).
Proof.
  intros Hm Hk w. unfold bind. specialize (Hm w).
  destruct (m w) as [[a|e] w1]; simpl in *.
  - rewrite (Hk a w1). exact Hm.
  - exact Hm.
Qed.

Lemma keeps_purged_ret {A} (temp : TemporaryBusLoad) (a : A) :
  keeps_purged temp (ret a).
Proof. intros w. reflexivity. Qed.

Lemma keeps_purged_call (temp : TemporaryBusLoad) (p : complex) :
  keeps_purged temp (TemporaryBusLoad___call__ temp p).
Proof.
  intros w. unfold TemporaryBusLoad___call__, bind, get_flag.
  destruct (heap w !! TemporaryBusLoad_ref temp) as [[|]|]; simpl;
    try reflexivity.
  unfold purged. simpl. rewrite remove_load_change_load. reflexivity.
Qed.

Lemma keeps_purged_feasibility_check (ext : External)
  (self : CapacityAnalyser) (temp : TemporaryBusLoad) :
  keeps_purged temp (feasibility_check ext self).
Proof. intros w. rewrite feasibility_check_run. reflexivity. Qed.

Lemma keeps_purged_bisection (ext : External) (self : CapacityAnalyser)
  (temp : TemporaryBusLoad) (n : nat) :
  forall (lower upper : complex) (lf : option LimitingFactor),
  keeps_purged temp (bisection ext self temp n lower upper lf).
Proof.
  induction n as [|n IH]; intros lower upper lf; simpl.
  - apply keeps_purged_ret.
  - apply keeps_purged_bind; [apply keeps_purged_call|]. intros _.
    apply keeps_purged_bind; [apply keeps_purged_feasibility_check|].
    intros [feas lf'].
    destruct (Q_ltb _ _); [apply keeps_purged_ret|apply IH].
Qed.

Lemma keeps_purged_max_power_available_mva (ext : External)
  (self : CapacityAnalyser) (temp : TemporaryBusLoad) (U : complex) :
  keeps_purged temp (max_power_available_mva ext self temp U).
Proof.
  unfold max_power_available_mva.
  apply keeps_purged_bind; [apply keeps_purged_call|]. intros _.
  apply keeps_purged_bind; [apply keeps_purged_feasibility_check|].
  intros [feas lf].
  destruct feas; [apply keeps_purged_ret|apply keeps_purged_bisection].
Qed.

(** [with temp: body], whatever the body does and however it ends. *)
Lemma with_TemporaryBusLoad_run {A} (temp : TemporaryBusLoad) (body : M A)
  (w : World) :
  let w1 := snd (TemporaryBusLoad___enter__ temp w) in
  let wb := snd (body w1) in
  with_subsystem temp body w
  = (fst (body w1), snd (TemporaryBusLoad___exit__ temp wb)).
Proof.
  intros w1 wb. unfold with_subsystem, with_stmt.
  cbn [subsystem_enter subsystem_exit TemporaryBusLoad_subsystem].
  rewrite (bind_run _ _ w w1 tt) by reflexivity.
  unfold try_finally. fold wb.
  destruct (body w1) as [r wb'] eqn:Hb. reflexivity.
Qed.

(** [with disable_branch(branch): body], whatever the body does. *)
Lemma disable_branch_run {A} (branch : Branch) (body : PyVal -> M A)
  (w : World) :
  let w1 := snd (wf_branch_chng_3 branch 0 w) in
  let wb := snd (body PyNone w1) in
  disable_branch branch body w
  = (fst (body PyNone w1), snd (wf_branch_chng_3 branch 1 wb)).
Proof.
  intros w1 wb. unfold disable_branch, try_finally.
  rewrite (bind_run _ _ w w1 tt) by reflexivity.
  fold wb. destruct (body PyNone w1) as [r wb'] eqn:Hb. reflexivity.
Qed.

Lemma Branch_is_enabled_run (branch : Branch) (w : World) :
  Branch_is_enabled branch w
  = (Ok (match find_switch Branch_eqb branch (net_branches (net w)) with
         | Some s => in_service s
         | None => false
         end), w).
Proof.
  unfold Branch_is_enabled, wf_brnint_STATUS, bind, get_net, ret.
  destruct (find_switch Branch_eqb branch (net_branches (net w))) as [s|];
    [destruct (in_service s)|]; reflexivity.
Qed.

Lemma net_branches_after_chng (branch : Branch) (st : Z) (w : World) :
  net_branches (net (snd (wf_branch_chng_3 branch st w)))
  = fst (set_switch Branch_eqb branch (negb (st =? 0)) (net_branches (net w))).
Proof. reflexivity. Qed.

Lemma disable_branch_restores_net {A} (branch : Branch)
  (body : PyVal -> M A) (w : World) (s : Switch) :
  find_switch Branch_eqb branch (net_branches (net w)) = Some s ->
  in_service s = true ->
  net (snd (body PyNone (snd (wf_branch_chng_3 branch 0 w))))
  = net (snd (wf_branch_chng_3 branch 0 w)) ->
  net (snd (disable_branch branch body w)) = net w.
Proof.
  intros Hfind Hin Hframe. rewrite disable_branch_run. simpl.
  simpl in Hframe. rewrite Hframe. simpl.
  rewrite (set_switch_restore Branch_eqb branch _ s Hfind Hin).
  destruct (net w); reflexivity.
Qed.

Lemma branch_is_not_critical_net (ext : External) (self : CapacityAnalyser)
  (branch : Branch) (w : World) :
  net (snd (branch_is_not_critical ext self branch w)) = net w.
Proof.
  unfold branch_is_not_critical.
  rewrite (bind_run _ _ _ _ _ (Branch_is_enabled_run branch w)).
  destruct (find_switch Branch_eqb branch (net_branches (net w)))
    as [s|] eqn:Hfind; [|reflexivity].
  destruct (in_service s) eqn:Hin; [|reflexivity].
  unfold bind at 1.
  pose proof (disable_branch_restores_net branch
                (fun is_disabled : PyVal =>
                   if truthy is_disabled
                   then bind (check_violations ext self)
                          (fun violations =>
                             ret (Some (Violations_eqb violations
                                          NO_VIOLATIONS)))
                   else ret None)
                w s Hfind Hin eq_refl) as Hnet.
  destruct (disable_branch branch _ w) as [[[b|]|e] w'] eqn:Hrun;
    simpl in *; exact Hnet.
Qed.

(** C7: a [TemporaryBusLoad] scope and a [disable_branch] scope undo their
    mutation however the body ends: the result of the whole [with]
    statement is the result of the body, an exception included, and by
    then the temporary load has been purged (inactive flag) and the branch
    closed again.  When the body touches nothing but the temporary load
    (resp. nothing at all) the network is the one before the scope; this
    holds for the headroom probe and for the criticality probe. *)
Theorem scoped_mutations_rolled_back {A} (body : M A)
  (temp : TemporaryBusLoad) (branch : Branch) (w : World) :
  (let w1 := snd (TemporaryBusLoad___enter__ temp w) in
   let wb := snd (body w1) in
   exists w',
     with_subsystem temp body w = (fst (body w1), w')
     /\ net w' = purged temp (net wb)
     /\ heap w' !! TemporaryBusLoad_ref temp = Some false
     /\ (find_load (Bus_number (TemporaryBusLoad_bus temp)) TEMP_LOAD_ID
           (net_loads (net w)) = None ->
         keeps_purged temp body -> net w' = net w))
  /\ (let w1 := snd (wf_branch_chng_3 branch 0 w) in
      let wb := snd (body w1) in
      exists w',
        disable_branch branch (fun _ => body) w = (fst (body w1), w')
        /\ (forall s,
              find_switch Branch_eqb branch (net_branches (net wb)) = Some s ->
              Branch_is_enabled branch w' = (Ok true, w'))
        /\ (Branch_is_enabled branch w = (Ok true, w) ->
            net wb = net w1 -> net w' = net w))
  /\ (forall (ext : External) (self : CapacityAnalyser) (U : complex),
        find_load (Bus_number (TemporaryBusLoad_bus temp)) TEMP_LOAD_ID
          (net_loads (net w)) = None ->
        net (snd (with_subsystem temp
                    (max_power_available_mva ext self temp U) w)) = net w)
  /\ (forall (ext : External) (self : CapacityAnalyser),
        net (snd (branch_is_not_critical ext self branch w)) = net w).
Proof.
  assert (Hload : forall (B : Type) (m : M B),
            find_load (Bus_number (TemporaryBusLoad_bus temp)) TEMP_LOAD_ID
              (net_loads (net w)) = None ->
            keeps_purged temp m ->
            purged temp
              (net (snd (m (snd (TemporaryBusLoad___enter__ temp w)))))
            = net w).
  { intros B m Hnone Hkeep. rewrite Hkeep. apply purged_after_enter, Hnone. }
  split; [|split; [|split]].
  - intros w1 wb. eexists. split; [apply with_TemporaryBusLoad_run|].
    split; [reflexivity|]. split; [apply lookup_insert_eq|].
    intros Hnone Hkeep. simpl. apply (Hload A body Hnone Hkeep).
  - intros w1 wb. eexists.
    split; [apply (disable_branch_run branch (fun _ => body))|].
    split.
    + intros s Hs. rewrite Branch_is_enabled_run.
      destruct (find_switch_closed Branch_eqb branch _ s Hs)
        as (s' & Hs' & Hin').
      subst wb w1. rewrite net_branches_after_chng.
      change (negb (1 =? 0)) with true.
      rewrite Hs', Hin'. reflexivity.
    + intros Hen Hframe. rewrite Branch_is_enabled_run in Hen.
      destruct (find_switch Branch_eqb branch (net_branches (net w)))
        as [s|] eqn:Hfind; [|discriminate Hen].
      assert (Hin : in_service s = true) by congruence.
      pose proof (disable_branch_restores_net branch (fun _ => body) w s
                    Hfind Hin Hframe) as Hnet.
      rewrite (disable_branch_run branch (fun _ => body)) in Hnet.
      exact Hnet.
  - intros ext self U Hnone. rewrite with_TemporaryBusLoad_run. simpl.
    apply (Hload _ (max_power_available_mva ext self temp U) Hnone).
    apply keeps_purged_max_power_available_mva.
  - intros ext self. apply branch_is_not_critical_net.
Qed.

(** A body that raises inside both scopes: the exception comes out, the
    temporary load is gone, the branch is closed, the network is the
    example network again. *)
Lemma scoped_mutations_rolled_back_example :
  (exists w',
     with_subsystem example_temp_load failing_body example_world
     = (Raise (RuntimeError "solver crashed"), w')
     /\ net w' = example_net)
  /\ (exists w',
        disable_branch branch_12 (fun _ => failing_body) example_world
        = (Raise (RuntimeError "solver crashed"), w')
        /\ net w' = example_net).
Proof.
  destruct (scoped_mutations_rolled_back failing_body example_temp_load
              branch_12 example_world)
    as [[w1 [Hrun1 [_ [_ Hnet1]]]] [[w2 [Hrun2 [_ Hnet2]]] _]].
  split.
  - exists w1. split; [exact Hrun1|].
    apply Hnet1; [reflexivity|]. intros w. reflexivity.
  - exists w2. split; [exact Hrun2|].
    apply Hnet2; reflexivity.
Defined.

Lemma scope_active_after_enter (b : Bus) (w : World) :
  scope_active (mkTemporaryBusLoad b (fresh (dom (heap w))))
    (snd (TemporaryBusLoad___enter__
            (mkTemporaryBusLoad b (fresh (dom (heap w))))
            (snd (TemporaryBusLoad___init__ b w)))).
Proof.
  split; [apply lookup_insert_eq|]. simpl.
  destruct (find_load (Bus_number b) TEMP_LOAD_ID (net_loads (net w)))
    as [l|] eqn:Hl; simpl.
  - exists l. exact Hl.
  - eexists. apply find_load_add_load. exact Hl.
Qed.

(** The load-headroom block of [bus_headroom] (lines 171-175), from any
    state, returns what the search returns inside the scope. *)
Lemma load_headroom_block_run (ext : External) (self : CapacityAnalyser)
  (b : Bus) (w : World) :
  let temp := mkTemporaryBusLoad b (fresh (dom (heap w))) in
  let w1 := snd (TemporaryBusLoad___enter__ temp
                   (snd (TemporaryBusLoad___init__ b w))) in
  (let* temp_load := TemporaryBusLoad___init__ b in
   with_subsystem temp_load
     (max_power_available_mva ext self temp_load
        (_upper_load_limit_mva self))) w
  = (fst (max_power_available_mva ext self temp
            (_upper_load_limit_mva self) w1),
     snd (TemporaryBusLoad___exit__ temp
            (snd (max_power_available_mva ext self temp
                    (_upper_load_limit_mva self) w1)))).
Proof.
  intros temp w1.
  rewrite (bind_run _ _ w (snd (TemporaryBusLoad___init__ b w)) temp)
    by reflexivity.
  apply with_TemporaryBusLoad_run.
Qed.


(** ** Construction of the analyser *)

(** C8: when the violation check of the freshly opened and solved base
    case is not [NO_VIOLATIONS], the constructor raises, and so does the
    module-level [buses_headroom] with the same exception: the caller gets
    no result.  With power factors in the domain of [math.acos] the
    exception is the [RuntimeError] of [check_base_case_violations]; up to
    then the engine has opened the case, run the solver and made that
    single violation check: no element was disabled (no scenario was
    built) and no temporary load was created (no bus was probed).  With a
    power factor outside [-1, 1] the constructor has already raised
    [ValueError] in its first statements, before the case was opened. *)
Theorem base_case_violations_abort (ext : External)
  (case_name : string) (upper_load_limit_p_mw upper_gen_limit_p_mw : Q)
  (load_power_factor gen_power_factor : Q)
  (selected_buses_ids : option (list Z)) (solver_tolerance_p_mw : Q)
  (solver_opts : SolverOpts) (max_iterations : Z)
  (normal_limits contingency_limits : option ViolationsLimits)
  (contingency_scenario : option ContingencyScenario)
  (w : World) (base : Network) :
  case_file ext case_name = Some base ->
  violations_of ext normal_limits
    (negb (power_flow_converges ext false solver_opts base)) solver_opts base
  <> NO_VIOLATIONS ->
  exists e w',
    CapacityAnalyser___init__ ext case_name upper_load_limit_p_mw
      upper_gen_limit_p_mw load_power_factor gen_power_factor
      selected_buses_ids solver_tolerance_p_mw solver_opts max_iterations
      normal_limits contingency_limits contingency_scenario w
    = (Raise e, w')
    /\ buses_headroom ext case_name upper_load_limit_p_mw
         upper_gen_limit_p_mw load_power_factor gen_power_factor
         selected_buses_ids solver_tolerance_p_mw solver_opts max_iterations
         normal_limits contingency_limits contingency_scenario w
       = (Raise e, w')
    /\ heap w' = heap w
    /\ (math_acos_defined load_power_factor
         && math_acos_defined gen_power_factor = true ->
        (exists msg, e = RuntimeError msg)
        /\ trace w'
           = trace w
             ++ startup_events case_name
                  (power_flow_converges ext false solver_opts base)
             ++ [EvCheckViolations]
        /\ net w' = base)
    /\ (math_acos_defined load_power_factor
         && math_acos_defined gen_power_factor = false ->
        e = ValueError "math domain error" /\ w' = w).
Proof.
  intros Hcase Hviol.
  assert (Hneq : Violations_eqb
                   (violations_of ext normal_limits
                      (negb (power_flow_converges ext false solver_opts base))
                      solver_opts base) NO_VIOLATIONS = false).
  { unfold Violations_eqb. apply N.eqb_neq. exact Hviol. }
  unfold buses_headroom, CapacityAnalyser___init__, math_tan_acos.
  destruct (math_acos_defined load_power_factor) eqn:Hload;
    [destruct (math_acos_defined gen_power_factor) eqn:Hgen|].
  - unfold fdns_is_applicable,
      check_base_case_violations, check_violations, ext_check_violations,
      wf_open_case, run_solver, wf_is_solved, startup_events,
      bind, log, modify_net, get_net, set_solved, ret, raise.
    simpl. rewrite Hcase. simpl.
    destruct (power_flow_converges ext false solver_opts base) eqn:Hconv;
      simpl; rewrite ?Hcase; simpl.
    + simpl in Hneq. rewrite Hneq. simpl.
      eexists _, _. split; [reflexivity|]. split; [reflexivity|]. simpl.
      split; [reflexivity|]. split; [|discriminate].
      intros _. split; [eexists; reflexivity|]. split; [|reflexivity].
      rewrite <- !app_assoc. reflexivity.
    + simpl in Hneq. rewrite Hneq. simpl.
      eexists _, _. split; [reflexivity|]. split; [reflexivity|]. simpl.
      split; [reflexivity|]. split; [|discriminate].
      intros _. split; [eexists; reflexivity|]. split; [|reflexivity].
      rewrite <- !app_assoc. reflexivity.
  - unfold bind, ret, raise. simpl.
    eexists _, _. split; [reflexivity|]. split; [reflexivity|].
    split; [reflexivity|]. split; [discriminate|].
    intros _. split; reflexivity.
  - unfold bind, raise. simpl.
    eexists _, _. split; [reflexivity|]. split; [reflexivity|].
    split; [reflexivity|]. split; [discriminate|].
    intros _. split; reflexivity.
Qed.

(** A base case in violation: [buses_headroom] with the default settings
    raises after one violation check. *)
Lemma base_case_violations_abort_example :
  exists msg w',
    buses_headroom violating_external "case" 50 50 (9 # 10) (9 # 10) None 5
      [("options1", 1); ("options5", 1)] 10 None None None example_world
    = (Raise (RuntimeError msg), w')
    /\ trace w'
       = [EvOpenCase "case"; EvRunSolver false; EvCheckViolations].
Proof.
  destruct (base_case_violations_abort violating_external "case" 50 50
              (9 # 10) (9 # 10) None 5 [("options1", 1); ("options5", 1)] 10
              None None None example_world example_net)
    as (e & w' & _ & Hrun & _ & Hok & _).
  - reflexivity.
  - discriminate.
  - destruct (Hok eq_refl) as ((msg & He) & Htrace & _).
    exists msg, w'. rewrite <- He. split; [exact Hrun|exact Htrace].
Defined.

(** ** The contingency scenario *)

(** [disable_branch] hands [None] to its body, so the guarded block of
    [branch_is_not_critical] is skipped: the answer is [False] for every
    branch in every state, and the only external calls are the two status
    changes (no violation check). *)
Lemma branch_is_not_critical_false (ext : External) (self : CapacityAnalyser)
  (branch : Branch) (w : World) :
  exists w',
    branch_is_not_critical ext self branch w = (Ok false, w')
    /\ (trace w' = trace w
        \/ trace w' = trace w ++ [EvBranchChng branch 0;
                                   EvBranchChng branch 1]).
Proof.
  unfold branch_is_not_critical.
  rewrite (bind_run _ _ _ _ _ (Branch_is_enabled_run branch w)).
  destruct (match find_switch Branch_eqb branch (net_branches (net w)) with
            | Some s => in_service s
            | None => false
            end).
  - unfold bind at 1. rewrite disable_branch_run. simpl.
    eexists. split; [reflexivity|]. simpl. rewrite <- app_assoc. simpl.
    right. reflexivity.
  - exists w. split; [reflexivity|]. left. reflexivity.
Qed.

Lemma filterM_never {A} (keep : A -> M bool) :
  (forall x w, exists w', keep x w = (Ok false, w')) ->
  forall xs w, exists w', filterM keep xs w = (Ok [], w').
Proof.
  intros Hkeep xs. induction xs as [|x xs IH]; intros w; simpl.
  - exists w. reflexivity.
  - destruct (Hkeep x w) as [w1 H1]. rewrite (bind_run _ _ _ _ _ H1).
    destruct (IH w1) as [w2 H2]. rewrite (bind_run _ _ _ _ _ H2).
    exists w2. reflexivity.
Qed.

(** Whatever the case, the scenario the engine builds has no branch. *)
Lemma get_contingency_scenario_no_branch (ext : External)
  (self : CapacityAnalyser) (w w' : World) (sc : ContingencyScenario) :
  get_contingency_scenario ext self w = (Ok sc, w') -> sc_branches sc = [].
Proof.
  unfold get_contingency_scenario.
  rewrite (bind_run _ _ w w (map fst (net_branches (net w)))) by reflexivity.
  destruct (filterM_never (branch_is_not_critical ext self)
              (fun x w0 =>
                 match branch_is_not_critical_false ext self x w0 with
                 | ex_intro _ w1 (conj H _) => ex_intro _ w1 H
                 end)
              (map fst (net_branches (net w))) w) as [w1 H1].
  rewrite (bind_run _ _ _ _ _ H1).
  unfold bind.
  destruct (Trafos w1) as [[ts|e] w2]; [|discriminate].
  destruct (filterM (trafo_is_not_critical ext self) ts w2) as [[kept|e] w3];
    [|discriminate].
  unfold ret. intros [= <- _]. reflexivity.
Qed.

(** C2 (evaluation at the failing input): in the example network branch
    1-2 is enabled, the model accepts its disablement, and with it out of
    service the violation check says [NO_VIOLATIONS]; the claim puts it in
    the scenario.  [get_contingency_scenario] returns the empty scenario. *)
Theorem get_contingency_scenario_misses_branch :
  let ext := threshold_external 100 in
  let self := example_analyser 5 10 in
  fst (Branch_is_enabled branch_12 example_world) = Ok true
  /\ branch_change_accepted branch_12 0 example_net = true
  /\ fst (check_violations ext self
            (snd (wf_branch_chng_3 branch_12 0 example_world)))
     = Ok NO_VIOLATIONS
  /\ fst (get_contingency_scenario ext self example_world)
     = Ok (mkContingencyScenario [] []).
Proof. vm_compute. repeat split. Qed.

(** C3 (evaluation at the failing input): the value bound by
    [with disable_branch(branch) as is_disabled] is [None] when the model
    accepts the disablement and [None] when it refuses it, and
    [branch_is_not_critical] makes no violation check on a branch whose
    disablement was accepted. *)
Theorem disable_branch_yields_none :
  branch_change_accepted branch_12 0 (net example_world) = true
  /\ fst (disable_branch branch_12 (fun is_disabled => ret is_disabled)
            example_world) = Ok PyNone
  /\ branch_change_accepted branch_12 0 (net example_world_required) = false
  /\ fst (disable_branch branch_12 (fun is_disabled => ret is_disabled)
            example_world_required) = Ok PyNone
  /\ fst (branch_is_not_critical (threshold_external 100)
            (example_analyser 5 10) branch_12 example_world) = Ok false
  /\ trace (snd (branch_is_not_critical (threshold_external 100)
                   (example_analyser 5 10) branch_12 example_world))
     = [EvBranchChng branch_12 0; EvBranchChng branch_12 1].
Proof. vm_compute. repeat split. Qed.

(** ** The limiting factor of the answer *)

(** What the code returns: the limiting factor of the most recent probe,
    which is [None] when that probe was feasible. *)
Lemma bisection_returns_last_probe (ext : External) (self : CapacityAnalyser)
  (temp : TemporaryBusLoad) (n : nat) :
  forall (lower upper r : complex) (lf lf' : option LimitingFactor)
         (w w' : World),
  bisection ext self temp n lower upper lf w = (Ok (r, lf'), w') ->
  lf = limiting_factor_at ext self (net w) ->
  lf' = limiting_factor_at ext self (net w').
Proof.
  induction n as [|n IH]; intros lower upper r lf lf' w w'; simpl.
  - intros [= _ <- <-] Hlf. exact Hlf.
  - unfold bind at 1.
    destruct (TemporaryBusLoad___call__ temp _ w) as [[[]|e] w1];
      [|discriminate].
    rewrite (bind_run _ _ _ _ _ (feasibility_check_run ext self w1)).
    destruct (Q_ltb _ _).
    + intros [= _ <- <-] _. reflexivity.
    + intros Hrun _. apply (IH _ _ _ _ _ _ _ Hrun). reflexivity.
Qed.

Lemma max_power_available_mva_returns_last_probe (ext : External)
  (self : CapacityAnalyser) (temp : TemporaryBusLoad) (U r : complex)
  (lf : option LimitingFactor) (w w' : World) :
  max_power_available_mva ext self temp U w = (Ok (r, lf), w') ->
  lf = limiting_factor_at ext self (net w').
Proof.
  unfold max_power_available_mva. unfold bind at 1.
  cbn [subsystem_call TemporaryBusLoad_subsystem].
  destruct (TemporaryBusLoad___call__ temp U w) as [[[]|e] w1];
    [|discriminate].
  rewrite (bind_run _ _ _ _ _ (feasibility_check_run ext self w1)).
  destruct (feasible ext self (net w1)).
  - intros [= _ <- <-]. reflexivity.
  - intros Hrun. apply (bisection_returns_last_probe _ _ _ _ _ _ _ _ _ _ _ Hrun).
    reflexivity.
Qed.

(** C4 (evaluation at the failing input): the end-to-end scenario of the
    spec, upper limit 50 MW, tolerance 5 MW, ten iterations, infeasible
    above 30 MW.  The probes are 50 (infeasible), 25 (feasible), 37.5
    (infeasible), 31.25 (infeasible) and 28.125 (feasible); the search
    stops there and returns 28.125 MW with limiting factor [None], not the
    limiting factor of the probe at 31.25 MW. *)
Theorem max_power_available_mva_drops_limiting_factor :
  let ext := threshold_external 30 in
  let self := example_analyser 5 10 in
  let run :=
    max_power_available_mva ext self example_temp_load (Complex 50 24)
      example_world_active in
  fst run = Ok (Complex (1800 # 64) (864 # 64), None)
  /\ trace (snd run)
     = [EvLoadData 1 "Tm";
        EvLoadChng 1 "Tm" (Complex 50 24); EvCheckViolations;
        EvLoadChng 1 "Tm" (Complex (50 # 2) (24 # 2));
        EvCheckViolations; EvContingencyCheck;
        EvLoadChng 1 "Tm" (Complex (150 # 4) (72 # 4)); EvCheckViolations;
        EvLoadChng 1 "Tm" (Complex (500 # 16) (240 # 16)); EvCheckViolations;
        EvLoadChng 1 "Tm" (Complex (1800 # 64) (864 # 64));
        EvCheckViolations; EvContingencyCheck]
  /\ fst (feasibility_check ext self
            (set_temp_load example_temp_load (Complex (500 # 16) (240 # 16))
               example_world_active))
     = Ok (false, Some (mkLimitingFactor 1%N None)).
Proof. vm_compute. repeat split. Qed.

(** * Further properties of the code *)

(** ** The readers of [subsystems.py] *)

Lemma iter_rows_list {A} (row : nat -> option A) (count : nat) :
  forall (l : list A) (idx : nat),
  (forall i, row (idx + i)%nat = nth_error l i) ->
  iter_rows row idx count
  = if (count <=? length l)%nat then Exhausted (firstn count l)
    else IndexError_after l.
Proof.
  induction count as [|count IH]; intros l idx Hrow; simpl.
  - reflexivity.
  - specialize (Hrow 0%nat) as H0. rewrite Nat.add_0_r in H0. rewrite H0.
    destruct l as [|x l]; simpl; [reflexivity|].
    rewrite (IH l (S idx)).
    + destruct (count <=? length l)%nat; reflexivity.
    + intros i. rewrite Nat.add_succ_comm. exact (Hrow (S i)).
Qed.

Lemma nth_error_combine {A B} (xs : list A) (ys : list B) (i : nat) :
  nth_error (combine xs ys) i
  = match nth_error xs i, nth_error ys i with
    | Some x, Some y => Some (x, y)
    | _, _ => None
    end.
Proof.
  revert ys i. induction xs as [|x xs IH]; intros ys i.
  - destruct i; reflexivity.
  - destruct ys as [|y ys]; simpl.
    + destruct i; simpl; [reflexivity|]. destruct (nth_error xs i); reflexivity.
    + destruct i; simpl; [reflexivity|]. apply IH.
Qed.

Lemma firstn_length_le {A} (l : list A) (n : nat) :
  (length l <= n)%nat -> firstn n l = l.
Proof. intros H. apply firstn_all2. exact H. Qed.

(** [Loads]: four columns, [len] from [number]. *)
Lemma Loads_iter_rows (raw : RawLoads) :
  Loads___iter__ raw
  = if (Loads___len__ raw <=? length (load_rows raw))%nat
    then Exhausted (load_rows raw)
    else IndexError_after (load_rows raw).
Proof.
  unfold Loads___iter__.
  rewrite (iter_rows_list _ _ (load_rows raw) 0%nat).
  - destruct (Loads___len__ raw <=? length (load_rows raw))%nat eqn:Hle;
      [|reflexivity].
    f_equal. apply firstn_length_le. unfold load_rows, Loads___len__.
    rewrite length_map, length_combine. lia.
  - intros i. simpl. unfold load_rows.
    rewrite nth_error_map, !nth_error_combine.
    destruct (nth_error (RawLoads_number raw) i),
             (nth_error (RawLoads_ex_name raw) i),
             (nth_error (RawLoads_load_id raw) i),
             (nth_error (RawLoads_mva_act raw) i); reflexivity.
Qed.

(** [Branches]: three columns, [len] from [from_number]. *)
Lemma Branches_iter_rows (raw : RawBranches) :
  Branches___iter__ raw
  = if (Branches___len__ raw <=? length (branch_rows raw))%nat
    then Exhausted (branch_rows raw)
    else IndexError_after (branch_rows raw).
Proof.
  unfold Branches___iter__.
  rewrite (iter_rows_list _ _ (branch_rows raw) 0%nat).
  - destruct (Branches___len__ raw <=? length (branch_rows raw))%nat eqn:Hle;
      [|reflexivity].
    f_equal. apply firstn_length_le. unfold branch_rows, Branches___len__.
    rewrite length_map, length_combine. lia.
  - intros i. simpl. unfold branch_rows.
    rewrite nth_error_map, !nth_error_combine.
    destruct (nth_error (RawBranches_from_number raw) i),
             (nth_error (RawBranches_to_number raw) i),
             (nth_error (RawBranches_branch_id raw) i); reflexivity.
Qed.

(** [Buses]: two columns, [len] from [number]. *)
Lemma Buses_iter_rows (raw : RawBuses) :
  Buses___iter__ raw
  = if (Buses___len__ raw <=? length (bus_rows raw))%nat
    then Exhausted (bus_rows raw)
    else IndexError_after (bus_rows raw).
Proof.
  unfold Buses___iter__.
  rewrite (iter_rows_list _ _ (bus_rows raw) 0%nat).
  - destruct (Buses___len__ raw <=? length (bus_rows raw))%nat eqn:Hle;
      [|reflexivity].
    f_equal. apply firstn_length_le. unfold bus_rows, Buses___len__.
    rewrite length_map, length_combine. lia.
  - intros i. simpl. unfold bus_rows.
    rewrite nth_error_map, !nth_error_combine.
    destruct (nth_error (RawBuses_number raw) i),
             (nth_error (RawBuses_ex_name raw) i); reflexivity.
Qed.

(** X1: iterating [Buses], [Branches] or [Loads] yields the rows the
    columns have in common, in order, and ends normally exactly when no
    column is shorter than the first one (which alone gives [len]);
    otherwise [IndexError] is raised after those rows.  Entries of a
    longer column are never read. *)
Theorem readers_iterate_common_rows
  (buses : RawBuses) (branches : RawBranches) (loads : RawLoads) :
  Buses___iter__ buses
  = (if (Buses___len__ buses <=? length (bus_rows buses))%nat
     then Exhausted (bus_rows buses)
     else IndexError_after (bus_rows buses))
  /\ Branches___iter__ branches
     = (if (Branches___len__ branches <=? length (branch_rows branches))%nat
        then Exhausted (branch_rows branches)
        else IndexError_after (branch_rows branches))
  /\ Loads___iter__ loads
     = (if (Loads___len__ loads <=? length (load_rows loads))%nat
        then Exhausted (load_rows loads)
        else IndexError_after (load_rows loads)).
Proof.
  split; [apply Buses_iter_rows|].
  split; [apply Branches_iter_rows|apply Loads_iter_rows].
Qed.

(** ** The feasibility oracle *)

(** X2: [feasibility_check] always answers, and leaves the network alone.
    It says feasible exactly when it gives no limiting factor; a limiting
    factor it gives always carries a violation.  A violation of the intact
    network is reported with no element, and then the contingency check is
    not run at all. *)
Theorem feasibility_check_verdict (ext : External) (self : CapacityAnalyser)
  (w : World) :
  exists (is_feasible : bool) (lf : option LimitingFactor) (w' : World),
    feasibility_check ext self w = (Ok (is_feasible, lf), w')
    /\ net w' = net w
    /\ (is_feasible = true <-> lf = None)
    /\ (forall f, lf = Some f -> v f <> NO_VIOLATIONS)
    /\ (base_violations ext self (net w) <> NO_VIOLATIONS ->
        is_feasible = false
        /\ lf = Some (mkLimitingFactor (base_violations ext self (net w)) None)
        /\ trace w' = trace w ++ [EvCheckViolations])
    /\ (base_violations ext self (net w) = NO_VIOLATIONS ->
        trace w' = trace w ++ [EvCheckViolations; EvContingencyCheck]).
Proof.
  eexists _, _, _. split; [apply feasibility_check_run|].
  split; [reflexivity|].
  destruct (feasible ext self (net w)) eqn:Hfeas.
  - destruct (feasible_limiting_factor ext self (net w) Hfeas) as [Hlf Hev].
    rewrite Hlf. split; [tauto|]. split; [discriminate|].
    unfold feasible in Hfeas. apply andb_true_iff in Hfeas as [Hbase _].
    apply N.eqb_eq in Hbase. unfold base_violations.
    split; [intros Hne; contradiction|].
    intros _. simpl. rewrite Hev. reflexivity.
  - destruct (infeasible_limiting_factor ext self (net w) Hfeas)
      as (f & Hlf & Hv).
    rewrite Hlf. split; [split; discriminate|].
    split; [intros f' [= <-]; exact Hv|].
    unfold base_violations. split.
    + intros Hne. split; [reflexivity|].
      apply N.eqb_neq in Hne.
      unfold limiting_factor_at in Hlf. unfold probe_events.
      unfold Violations_eqb in *. simpl. rewrite Hne in *. simpl in *.
      split; [symmetry; exact Hlf|reflexivity].
    + intros Heq. simpl. unfold probe_events, Violations_eqb.
      rewrite Heq. reflexivity.
Qed.

(** ** Start-up of the engine *)

Lemma fdns_is_applicable_run (ext : External) (self : CapacityAnalyser)
  (w : World) (base : Network) :
  case_file ext (_case_name self) = Some base ->
  exists w',
    fdns_is_applicable ext self w
    = (Ok (power_flow_converges ext false (_solver_opts self) base), w')
    /\ net w' = base
    /\ heap w' = heap w
    /\ solved w'
       = (if power_flow_converges ext false (_solver_opts self) base
          then true
          else power_flow_converges ext true (_solver_opts self) base)
    /\ trace w'
       = trace w
         ++ startup_events (_case_name self)
              (power_flow_converges ext false (_solver_opts self) base).
Proof.
  intros Hcase.
  unfold fdns_is_applicable, wf_open_case, run_solver, wf_is_solved,
    startup_events, bind, log, modify_net, get_net, set_solved, ret.
  simpl. rewrite Hcase. simpl.
  destruct (power_flow_converges ext false (_solver_opts self) base) eqn:Hc;
    simpl; rewrite ?Hcase; simpl.
  - eexists. split; [reflexivity|]. simpl.
    rewrite <- !app_assoc. repeat split; reflexivity.
  - eexists. split; [reflexivity|]. simpl.
    rewrite <- !app_assoc. repeat split; reflexivity.
Qed.

(** X3: when the case exists, [fdns_is_applicable] returns whether the
    decoupled solve converged.  If it did not, the case is opened a second
    time and solved with the full method; either way the working network
    at the end is the case as stored. *)
Theorem fdns_is_applicable_fallback (ext : External) (self : CapacityAnalyser)
  (w : World) (base : Network) :
  case_file ext (_case_name self) = Some base ->
  exists w',
    fdns_is_applicable ext self w
    = (Ok (power_flow_converges ext false (_solver_opts self) base), w')
    /\ net w' = base
    /\ heap w' = heap w
    /\ solved w'
       = (if power_flow_converges ext false (_solver_opts self) base
          then true
          else power_flow_converges ext true (_solver_opts self) base)
    /\ trace w'
       = trace w
         ++ startup_events (_case_name self)
              (power_flow_converges ext false (_solver_opts self) base).
Proof. apply fdns_is_applicable_run. Qed.

Lemma fdns_is_applicable_fallback_example :
  exists w',
    fdns_is_applicable (threshold_external 30) (example_analyser 5 10)
      example_world
    = (Ok true, w')
    /\ net w' = example_net
    /\ trace w' = [EvOpenCase "case"; EvRunSolver false].
Proof.
  destruct (fdns_is_applicable_fallback (threshold_external 30)
              (example_analyser 5 10) example_world example_net eq_refl)
    as (w' & Hrun & Hnet & _ & _ & Htrace).
  exists w'. split; [exact Hrun|]. split; [exact Hnet|exact Htrace].
Defined.

(** X4: with power factors in the domain of [math.acos], when the case
    name does not resolve to a case, the module-level [buses_headroom]
    raises the I/O error of [open_case]; the only thing that happened is
    the attempt to open the case (no solver run, no check, nothing
    created). *)
Theorem buses_headroom_missing_case (ext : External)
  (case_name : string) (upper_load_limit_p_mw upper_gen_limit_p_mw : Q)
  (load_power_factor gen_power_factor : Q)
  (selected_buses_ids : option (list Z)) (solver_tolerance_p_mw : Q)
  (solver_opts : SolverOpts) (max_iterations : Z)
  (normal_limits contingency_limits : option ViolationsLimits)
  (contingency_scenario : option ContingencyScenario) (w : World) :
  math_acos_defined load_power_factor = true ->
  math_acos_defined gen_power_factor = true ->
  case_file ext case_name = None ->
  buses_headroom ext case_name upper_load_limit_p_mw upper_gen_limit_p_mw
    load_power_factor gen_power_factor selected_buses_ids
    solver_tolerance_p_mw solver_opts max_iterations normal_limits
    contingency_limits contingency_scenario w
  = (Raise (IOError case_name), add_trace [EvOpenCase case_name] w).
Proof.
  intros Hload Hgen Hcase.
  unfold buses_headroom, CapacityAnalyser___init__, math_tan_acos.
  rewrite Hload, Hgen.
  unfold fdns_is_applicable, wf_open_case, bind, log, raise, ret, add_trace.
  simpl. rewrite Hcase. reflexivity.
Qed.

Lemma buses_headroom_missing_case_example :
  buses_headroom no_case_external "missing.sav" 50 50 (9 # 10) (9 # 10) None
    5 [("options1", 1); ("options5", 1)] 10 None None None example_world
  = (Raise (IOError "missing.sav"),
     add_trace [EvOpenCase "missing.sav"] example_world).
Proof.
  apply (buses_headroom_missing_case no_case_external "missing.sav");
    reflexivity.
Defined.

(** X17: a power factor outside [-1, 1] makes [math.acos] raise in the
    first statements of the constructor: the constructor and the
    module-level [buses_headroom] raise [ValueError] and nothing has
    happened (the case was not opened, the state is the one before the
    call), whatever the case and the other settings. *)
Theorem buses_headroom_power_factor_domain (ext : External)
  (case_name : string) (upper_load_limit_p_mw upper_gen_limit_p_mw : Q)
  (load_power_factor gen_power_factor : Q)
  (selected_buses_ids : option (list Z)) (solver_tolerance_p_mw : Q)
  (solver_opts : SolverOpts) (max_iterations : Z)
  (normal_limits contingency_limits : option ViolationsLimits)
  (contingency_scenario : option ContingencyScenario) (w : World) :
  math_acos_defined load_power_factor && math_acos_defined gen_power_factor
  = false ->
  CapacityAnalyser___init__ ext case_name upper_load_limit_p_mw
    upper_gen_limit_p_mw load_power_factor gen_power_factor
    selected_buses_ids solver_tolerance_p_mw solver_opts max_iterations
    normal_limits contingency_limits contingency_scenario w
  = (Raise (ValueError "math domain error"), w)
  /\ buses_headroom ext case_name upper_load_limit_p_mw upper_gen_limit_p_mw
       load_power_factor gen_power_factor selected_buses_ids
       solver_tolerance_p_mw solver_opts max_iterations normal_limits
       contingency_limits contingency_scenario w
     = (Raise (ValueError "math domain error"), w).
Proof.
  intros Hdom.
  unfold buses_headroom, CapacityAnalyser___init__, math_tan_acos.
  destruct (math_acos_defined load_power_factor);
    [destruct (math_acos_defined gen_power_factor); [discriminate|]|];
    unfold bind, ret, raise; simpl; split; reflexivity.
Qed.

(** A generator power factor of 1.2 on a case that exists. *)
Lemma buses_headroom_power_factor_domain_example :
  buses_headroom (threshold_external 30) "case" 50 50 (9 # 10) (12 # 10) None
    5 [("options1", 1); ("options5", 1)] 10 None None None example_world
  = (Raise (ValueError "math domain error"), example_world).
Proof.
  apply (buses_headroom_power_factor_domain (threshold_external 30) "case").
  reflexivity.
Defined.

(** ** Computations that always return *)

Lemma succeeds_ret {A} (a : A) : succeeds (ret a).
Proof. intros w. exists a, w. split; reflexivity. Qed.

Lemma succeeds_bind {A B} (m : M A) (k : A -> M B) :
  succeeds m -> (forall a, succeeds (k a)) -> succeeds (bind m k).
Proof.
  intros Hm Hk w. destruct (Hm w) as (a & w1 & Hrun & Hheap).
  destruct (Hk a w1) as (b & w2 & Hrun2 & Hheap2).
  exists b, w2. rewrite (bind_run _ _ _ _ _ Hrun).
  split; [exact Hrun2|congruence].
Qed.

Lemma succeeds_try_finally {A} (m : M A) (f : M unit) :
  succeeds m -> succeeds f -> succeeds (try_finally m f).
Proof.
  intros Hm Hf w. destruct (Hm w) as (a & w1 & Hrun & Hheap).
  destruct (Hf w1) as ([] & w2 & Hrun2 & Hheap2).
  exists a, w2. unfold try_finally. rewrite Hrun, Hrun2.
  split; [reflexivity|congruence].
Qed.

Lemma succeeds_log (e : Event) : succeeds (log e).
Proof. intros w. eexists _, _. split; reflexivity. Qed.

Lemma succeeds_modify_net (f : Network -> Network) : succeeds (modify_net f).
Proof. intros w. eexists _, _. split; reflexivity. Qed.

Lemma succeeds_get_net : succeeds get_net.
Proof. intros w. eexists _, _. split; reflexivity. Qed.

Create HintDb succeeds.
#[local] Hint Resolve succeeds_ret succeeds_log succeeds_modify_net
  succeeds_get_net : succeeds.

Ltac succeeds_step :=
  first [ solve [auto with succeeds]
        | apply succeeds_bind; [|intro]
        | apply succeeds_try_finally
        | match goal with
          | |- succeeds (if ?b then _ else _) => destruct b
          | |- succeeds (match ?x with _ => _ end) => destruct x
          end ].

Lemma succeeds_check_violations (ext : External) (self : CapacityAnalyser) :
  succeeds (check_violations ext self).
Proof.
  unfold check_violations, ext_check_violations. repeat succeeds_step.
Qed.

Lemma succeeds_wf_branch_chng_3 (b : Branch) (st : Z) :
  succeeds (wf_branch_chng_3 b st).
Proof. unfold wf_branch_chng_3. repeat succeeds_step. Qed.

Lemma succeeds_wf_trafo_chng (t : Trafo) (st : Z) :
  succeeds (wf_trafo_chng t st).
Proof.
  unfold wf_trafo_chng. repeat succeeds_step.
Qed.

#[local] Hint Resolve succeeds_check_violations succeeds_wf_branch_chng_3
  succeeds_wf_trafo_chng : succeeds.

Lemma succeeds_branch_is_not_critical (ext : External)
  (self : CapacityAnalyser) (branch : Branch) :
  succeeds (branch_is_not_critical ext self branch).
Proof.
  unfold branch_is_not_critical, Branch_is_enabled, wf_brnint_STATUS,
    disable_branch.
  repeat succeeds_step.
Qed.

Lemma succeeds_trafo_is_not_critical (ext : External)
  (self : CapacityAnalyser) (trafo : Trafo) :
  succeeds (trafo_is_not_critical ext self trafo).
Proof.
  unfold trafo_is_not_critical, Trafo_is_enabled, wf_trafo_STATUS,
    disable_trafo.
  repeat succeeds_step.
Qed.

Lemma succeeds_filterM {A} (keep : A -> M bool) (xs : list A) :
  (forall x, succeeds (keep x)) -> succeeds (filterM keep xs).
Proof.
  intros Hkeep. induction xs as [|x xs IH]; simpl; repeat succeeds_step.
Qed.

Lemma succeeds_get_contingency_scenario (ext : External)
  (self : CapacityAnalyser) :
  succeeds (get_contingency_scenario ext self).
Proof.
  unfold get_contingency_scenario, Branches, Trafos.
  repeat succeeds_step;
    apply succeeds_filterM;
    auto using succeeds_branch_is_not_critical,
      succeeds_trafo_is_not_critical.
Qed.

Lemma check_base_case_violations_pass (ext : External)
  (self : CapacityAnalyser) (w : World) :
  base_violations ext self (net w) = NO_VIOLATIONS ->
  check_base_case_violations ext self w
  = (Ok tt, add_trace [EvCheckViolations] w).
Proof.
  intros Hbase.
  unfold check_base_case_violations, check_violations, ext_check_violations,
    bind, log, get_net, ret, add_trace.
  simpl. unfold base_violations in Hbase. rewrite Hbase. reflexivity.
Qed.

Lemma handle_empty_contingency_scenario_run (ext : External)
  (self : CapacityAnalyser) (given : option ContingencyScenario)
  (w : World) (base : Network) :
  case_file ext (_case_name self) = Some base ->
  net w = base ->
  exists sc w',
    handle_empty_contingency_scenario ext self given w = (Ok sc, w')
    /\ net w' = base
    /\ heap w' = heap w
    /\ (forall sc0, given = Some sc0 -> sc = sc0 /\ w' = w).
Proof.
  intros Hcase Hnet. destruct given as [sc0|]; simpl.
  - exists sc0, w. split; [reflexivity|]. split; [exact Hnet|].
    split; [reflexivity|]. intros sc1 [= <-]. split; reflexivity.
  - destruct (succeeds_get_contingency_scenario ext self w)
      as (sc & w1 & Hrun & Hheap).
    rewrite (bind_run _ _ _ _ _ Hrun).
    unfold wf_open_case, bind, log, modify_net, ret. simpl.
    rewrite Hcase. simpl. eexists _, _. split; [reflexivity|]. simpl.
    split; [reflexivity|]. split; [exact Hheap|]. discriminate.
Qed.

Lemma CapacityAnalyser_init_run (ext : External)
  (case_name : string) (upper_load_limit_p_mw upper_gen_limit_p_mw : Q)
  (load_power_factor gen_power_factor : Q)
  (selected_buses_ids : option (list Z)) (solver_tolerance_p_mw : Q)
  (solver_opts : SolverOpts) (max_iterations : Z)
  (normal_limits contingency_limits : option ViolationsLimits)
  (contingency_scenario : option ContingencyScenario)
  (w : World) (base : Network) :
  math_acos_defined load_power_factor = true ->
  math_acos_defined gen_power_factor = true ->
  case_file ext case_name = Some base ->
  violations_of ext normal_limits
    (negb (power_flow_converges ext false solver_opts base)) solver_opts base
  = NO_VIOLATIONS ->
  exists self w',
    CapacityAnalyser___init__ ext case_name upper_load_limit_p_mw
      upper_gen_limit_p_mw load_power_factor gen_power_factor
      selected_buses_ids solver_tolerance_p_mw solver_opts max_iterations
      normal_limits contingency_limits contingency_scenario w
    = (Ok self, w')
    /\ net w' = base
    /\ heap w' = heap w
    /\ _use_full_newton_raphson self
       = negb (power_flow_converges ext false solver_opts base)
    /\ _loads_cursor self = initial_cursor (net_loads base)
    /\ _machines_cursor self = next_machine (net_machines base) None
    /\ _selected_buses_ids self = selected_buses_ids
    /\ real (_upper_load_limit_mva self) = upper_load_limit_p_mw
    /\ real (_upper_gen_limit_mva self) = upper_gen_limit_p_mw
    /\ (forall sc,
          contingency_scenario = Some sc ->
          _contingency_scenario self = sc
          /\ trace w'
             = trace w
               ++ startup_events case_name
                    (power_flow_converges ext false solver_opts base)
               ++ [EvCheckViolations]).
Proof.
  intros Hload Hgen Hcase Hbase.
  unfold CapacityAnalyser___init__, math_tan_acos. rewrite Hload, Hgen.
  rewrite (bind_run _ _ w w (tan_acos ext load_power_factor) eq_refl).
  rewrite (bind_run _ _ w w (tan_acos ext gen_power_factor) eq_refl).
  match goal with
  | |- context [fdns_is_applicable ext ?s] => set (self0 := s)
  end.
  destruct (fdns_is_applicable_run ext self0 w base Hcase)
    as (w1 & Hrun1 & Hnet1 & Hheap1 & _ & Htrace1).
  rewrite (bind_run _ _ _ _ _ Hrun1).
  set (self1 := set_use_full_newton_raphson _ self0).
  rewrite (bind_run _ _ w1 (add_trace [EvCheckViolations] w1) tt).
  2:{ apply check_base_case_violations_pass. rewrite Hnet1. exact Hbase. }
  destruct (handle_empty_contingency_scenario_run ext self1
              contingency_scenario (add_trace [EvCheckViolations] w1) base
              Hcase Hnet1)
    as (sc & w2 & Hrun2 & Hnet2 & Hheap2 & Hgiven).
  rewrite (bind_run _ _ _ _ _ Hrun2).
  unfold Loads, Machines, bind, get_net, ret. simpl.
  eexists _, _. split; [reflexivity|]. simpl.
  rewrite Hnet2.
  split; [reflexivity|]. split; [simpl in Hheap2; congruence|].
  split; [reflexivity|]. split; [reflexivity|]. split; [reflexivity|].
  split; [reflexivity|]. split; [reflexivity|]. split; [reflexivity|].
  intros sc0 Hsc. destruct (Hgiven sc0 Hsc) as [-> ->].
  split; [reflexivity|]. simpl. rewrite Htrace1, <- app_assoc. reflexivity.
Qed.

(** X5: with power factors in the domain of [math.acos], when the case
    exists and its base state has no violation, the constructor returns
    an analyser.  The working network is then the case
    as stored, whether a scenario was supplied or built (the case is
    reopened after building one); the solver method is the full one
    exactly when the decoupled solve failed; the load and machine cursors
    stand on the first load and machine of the case; a supplied scenario
    is kept as it is, and then nothing beyond start-up and the one
    violation check has happened. *)
Theorem CapacityAnalyser_init_ready (ext : External)
  (case_name : string) (upper_load_limit_p_mw upper_gen_limit_p_mw : Q)
  (load_power_factor gen_power_factor : Q)
  (selected_buses_ids : option (list Z)) (solver_tolerance_p_mw : Q)
  (solver_opts : SolverOpts) (max_iterations : Z)
  (normal_limits contingency_limits : option ViolationsLimits)
  (contingency_scenario : option ContingencyScenario)
  (w : World) (base : Network) :
  math_acos_defined load_power_factor = true ->
  math_acos_defined gen_power_factor = true ->
  case_file ext case_name = Some base ->
  violations_of ext normal_limits
    (negb (power_flow_converges ext false solver_opts base)) solver_opts base
  = NO_VIOLATIONS ->
  exists self w',
    CapacityAnalyser___init__ ext case_name upper_load_limit_p_mw
      upper_gen_limit_p_mw load_power_factor gen_power_factor
      selected_buses_ids solver_tolerance_p_mw solver_opts max_iterations
      normal_limits contingency_limits contingency_scenario w
    = (Ok self, w')
    /\ net w' = base
    /\ heap w' = heap w
    /\ _use_full_newton_raphson self
       = negb (power_flow_converges ext false solver_opts base)
    /\ _loads_cursor self = initial_cursor (net_loads base)
    /\ _machines_cursor self = next_machine (net_machines base) None
    /\ real (_upper_load_limit_mva self) = upper_load_limit_p_mw
    /\ real (_upper_gen_limit_mva self) = upper_gen_limit_p_mw
    /\ (forall sc,
          contingency_scenario = Some sc ->
          _contingency_scenario self = sc
          /\ trace w'
             = trace w
               ++ startup_events case_name
                    (power_flow_converges ext false solver_opts base)
               ++ [EvCheckViolations]).
Proof.
  intros Hload Hgen Hcase Hbase.
  destruct (CapacityAnalyser_init_run ext case_name upper_load_limit_p_mw
              upper_gen_limit_p_mw load_power_factor gen_power_factor
              selected_buses_ids solver_tolerance_p_mw solver_opts
              max_iterations normal_limits contingency_limits
              contingency_scenario w base Hload Hgen Hcase Hbase)
    as (self & w' & H1 & H2 & H3 & H4 & H5 & H6 & _ & H7 & H8 & H9).
  exists self, w'. repeat (split; [assumption|]). exact H9.
Qed.

(** The example case with the default settings and no scenario given. *)
Lemma CapacityAnalyser_init_ready_example :
  exists self w',
    CapacityAnalyser___init__ (threshold_external 30) "case" 50 50 (9 # 10)
      (9 # 10) None 5 [("options1", 1); ("options5", 1)] 10 None None None
      example_world
    = (Ok self, w')
    /\ net w' = example_net
    /\ _loads_cursor self = initial_cursor (net_loads example_net).
Proof.
  destruct (CapacityAnalyser_init_ready (threshold_external 30) "case" 50 50
              (9 # 10) (9 # 10) None 5 [("options1", 1); ("options5", 1)] 10
              None None None example_world example_net eq_refl eq_refl
              eq_refl eq_refl)
    as (self & w' & Hrun & Hnet & _ & _ & Hcur & _).
  exists self, w'. split; [exact Hrun|]. split; [exact Hnet|exact Hcur].
Defined.

(** ** Streaming aggregation of the generation *)

Lemma bus_actual_gen_loop_as_load (it : list Machine) :
  forall (cur : Machine) (n : Z) (acc : complex),
  bus_actual_load_loop (map machine_as_load it) (Some (machine_as_load cur))
    n acc
  = match bus_actual_gen_loop it (Some cur) n acc with
    | Ok (x, mc) => Ok (x, cursor_as_load mc)
    | Raise e => Raise e
    end.
Proof.
  induction it as [|nxt it IH]; intros cur n acc; simpl.
  - destruct (Machine_number cur <=? n); reflexivity.
  - destruct (Machine_number cur <=? n); [|reflexivity]. apply IH.
Qed.

Lemma machine_cursor_ok_as_load (c : MachineCursor) :
  machine_cursor_ok c <-> cursor_ok (cursor_as_load c).
Proof.
  unfold machine_cursor_ok, cursor_ok. simpl. split; intros H Hav.
  - destruct (H Hav) as [m ->]. eexists. reflexivity.
  - destruct (H Hav) as [l Hl]. destruct (_machine c) as [m|]; [|discriminate].
    exists m. reflexivity.
Qed.

(** One call on the machine cursor is the call on the cursor read as a
    load cursor. *)
Lemma bus_actual_gen_mva_as_load (c : MachineCursor) (n : Z) :
  machine_cursor_ok c ->
  exists x c',
    bus_actual_gen_mva c n = Ok (x, c')
    /\ bus_actual_load_mva (cursor_as_load c) n = Ok (x, cursor_as_load c')
    /\ machine_cursor_ok c'.
Proof.
  intros Hok.
  destruct (bus_actual_load_mva_spec (cursor_as_load c) n
              (proj1 (machine_cursor_ok_as_load c) Hok))
    as (pre & lc & Hrun & _ & _ & Hok' & _).
  assert (Hsim : bus_actual_load_mva (cursor_as_load c) n
                 = match bus_actual_gen_mva c n with
                   | Ok (x, mc) => Ok (x, cursor_as_load mc)
                   | Raise e => Raise e
                   end).
  { unfold bus_actual_gen_mva, bus_actual_load_mva. simpl.
    destruct (_machines_available c) eqn:Hav; [|reflexivity].
    destruct (Hok Hav) as [m Hm]. rewrite Hm. simpl.
    apply bus_actual_gen_loop_as_load. }
  rewrite Hsim in Hrun. rewrite Hsim.
  destruct (bus_actual_gen_mva c n) as [[x c']|e]; [|discriminate].
  injection Hrun as _ Hc. exists x, c'. split; [reflexivity|].
  split; [reflexivity|].
  apply machine_cursor_ok_as_load. rewrite Hc. exact Hok'.
Qed.

Lemma gen_query_sweep_as_load (ns : list Z) :
  forall c : MachineCursor, machine_cursor_ok c ->
  exists xs c',
    gen_query_sweep c ns = Ok (xs, c')
    /\ query_sweep (cursor_as_load c) ns = Ok (xs, cursor_as_load c')
    /\ machine_cursor_ok c'.
Proof.
  induction ns as [|n ns IH]; intros c Hok; simpl.
  - exists [], c. auto.
  - destruct (bus_actual_gen_mva_as_load c n Hok)
      as (x & c1 & Hgen & Hload & Hok1).
    destruct (IH c1 Hok1) as (xs & c' & Hgens & Hloads & Hok').
    rewrite Hgen, Hload, Hgens, Hloads. exists (x :: xs), c'. auto.
Qed.

Lemma bus_gen_sum_as_load (n : Z) (ms : list Machine) :
  bus_load_sum n (map machine_as_load ms) = bus_gen_sum n ms.
Proof.
  unfold bus_load_sum, bus_gen_sum. generalize c0.
  induction ms as [|m ms IH]; intros acc; simpl; [reflexivity|].
  destruct (Machine_number m =? n); simpl; apply IH.
Qed.

Lemma initial_machine_cursor_ok (machines : list Machine) :
  machine_cursor_ok (initial_machine_cursor machines).
Proof.
  destruct machines; intros Hav; [discriminate Hav|].
  eexists. reflexivity.
Qed.

Lemma initial_machine_cursor_as_load (machines : list Machine) :
  cursor_as_load (initial_machine_cursor machines)
  = initial_cursor (map machine_as_load machines).
Proof. destruct machines; reflexivity. Qed.

Lemma gen_query_sweep_sums (machines : list Machine) (ns : list Z) :
  Sorted Z.le (map Machine_number machines) -> StronglySorted Z.lt ns ->
  exists c',
    gen_query_sweep (initial_machine_cursor machines) ns
    = Ok (map (fun n => bus_gen_sum n machines) ns, c').
Proof.
  intros Hs Hns.
  destruct (gen_query_sweep_as_load ns (initial_machine_cursor machines)
              (initial_machine_cursor_ok machines))
    as (xs & c' & Hgen & Hload & _).
  rewrite initial_machine_cursor_as_load in Hload.
  destruct (query_sweep_increasing ns
              (initial_cursor (map machine_as_load machines)) [])
    as (lc & pre & Hsw & _); auto using initial_cursor_ok.
  - rewrite remaining_initial_cursor. unfold sorted_by_bus.
    rewrite map_map. exact Hs.
  - rewrite remaining_initial_cursor in Hsw. simpl in Hsw.
    rewrite Hsw in Hload. injection Hload as Hxs _.
    exists c'. rewrite Hgen. f_equal. f_equal. rewrite <- Hxs.
    apply map_ext. intros n. apply bus_gen_sum_as_load.
Qed.

(** X6: for every machine list that is non-decreasing in bus number and
    every strictly increasing sequence of bus numbers, each call of
    [bus_actual_gen_mva] returns the sum of [pq_gen] over all machines of
    that bus (in particular [0j] for a bus without a machine, and for
    every bus when the case has no machine at all). *)
Theorem bus_actual_gen_mva_streaming (machines : list Machine) (ns : list Z) :
  Sorted Z.le (map Machine_number machines) -> Sorted Z.lt ns ->
  exists c',
    gen_query_sweep (initial_machine_cursor machines) ns
    = Ok (map (fun n => bus_gen_sum n machines) ns, c').
Proof.
  intros Hs Hns. apply gen_query_sweep_sums; [exact Hs|].
  apply Sorted_StronglySorted; [intros x y z; apply Z.lt_trans|exact Hns].
Qed.

(** Machines [(2,7), (2,1), (5,4)], buses [1, 2, 3, 5]. *)
Lemma bus_actual_gen_mva_streaming_example :
  exists c',
    gen_query_sweep (initial_machine_cursor example_machines) [1; 2; 3; 5]
    = Ok ([c0; Complex 8 0; c0; Complex 4 0], c').
Proof.
  assert (H1 : Sorted Z.le (map Machine_number example_machines))
    by (repeat constructor; discriminate).
  assert (H2 : Sorted Z.lt [1; 2; 3; 5]) by (repeat constructor).
  destruct (bus_actual_gen_mva_streaming example_machines [1; 2; 3; 5] H1 H2)
    as [c' Hrun].
  exists c'. exact Hrun.
Defined.

(** ** The search, whatever the oracle *)

Lemma count_checks_app (e1 e2 : list Event) :
  count_checks (e1 ++ e2) = (count_checks e1 + count_checks e2)%nat.
Proof.
  unfold count_checks. rewrite List.filter_app, length_app. reflexivity.
Qed.

Lemma count_checks_probe_events (ext : External) (self : CapacityAnalyser)
  (n : Network) :
  count_checks (probe_events ext self n) = 1%nat.
Proof.
  unfold probe_events. destruct (Violations_eqb _ _); reflexivity.
Qed.

Lemma trace_add_trace (evs : list Event) (w : World) :
  trace (add_trace evs w) = trace w ++ evs.
Proof. reflexivity. Qed.

(** Where the answer lies: between the bounds, on their ray. *)
Lemma bisection_on_ray {Sub : Type} `{TemporaryBusSubsystem Sub}
  (ext : External) (self : CapacityAnalyser) (temp : Sub) (U : complex)
  (n : nat) :
  forall (lower upper r : complex) (lf lf' : option LimitingFactor)
         (w w' : World) (a b : Q),
  bisection ext self temp n lower upper lf w = (Ok (r, lf'), w') ->
  on_ray U a lower -> on_ray U b upper -> (a <= b)%Q ->
  exists k, (a <= k)%Q /\ (k <= b)%Q /\ on_ray U k r.
Proof.
  induction n as [|n IH]; intros lower upper r lf lf' w w' a b; simpl.
  - intros [= <- _ _] Hlo _ Hab. exists a. split; [lra|]. split; assumption.
  - unfold bind at 1.
    destruct (subsystem_call temp _ w) as [[[]|e] w1]; [|discriminate].
    rewrite (bind_run _ _ _ _ _ (feasibility_check_run ext self w1)).
    intros Hrun [Hlr Hli] [Hur Hui] Hab.
    assert (Hmid : on_ray U ((a + b) / 2) (chalf (cadd lower upper))).
    { split; simpl; [rewrite Hlr, Hur|rewrite Hli, Hui]; field. }
    assert (Ham : (a <= (a + b) / 2)%Q).
    { apply Qle_shift_div_l; lra. }
    assert (Hmb : ((a + b) / 2 <= b)%Q).
    { apply Qle_shift_div_r; lra. }
    destruct (feasible ext self (net w1)).
    + destruct (Q_ltb _ _).
      * injection Hrun as <- _ _. exists ((a + b) / 2)%Q.
        split; [exact Ham|]. split; [exact Hmb|exact Hmid].
      * destruct (IH _ _ _ _ _ _ _ _ _ Hrun Hmid (conj Hur Hui) Hmb)
          as (k & Hk1 & Hk2 & Hk).
        exists k. split; [lra|]. split; assumption.
    + destruct (Q_ltb _ _).
      * injection Hrun as <- _ _. exists a.
        split; [lra|]. split; [exact Hab|]. split; assumption.
      * destruct (IH _ _ _ _ _ _ _ _ _ Hrun (conj Hlr Hli) Hmid Ham)
          as (k & Hk1 & Hk2 & Hk).
        exists k. split; [exact Hk1|]. split; [lra|exact Hk].
Qed.

Lemma max_power_available_mva_on_ray {Sub : Type} `{TemporaryBusSubsystem Sub}
  (ext : External) (self : CapacityAnalyser) (temp : Sub) (U r : complex)
  (lf : option LimitingFactor) (w w' : World) :
  max_power_available_mva ext self temp U w = (Ok (r, lf), w') ->
  exists k, (0 <= k)%Q /\ (k <= 1)%Q /\ on_ray U k r.
Proof.
  unfold max_power_available_mva. unfold bind at 1.
  destruct (subsystem_call temp U w) as [[[]|e] w1]; [|discriminate].
  rewrite (bind_run _ _ _ _ _ (feasibility_check_run ext self w1)).
  destruct (feasible ext self (net w1)).
  - intros [= <- _ _]. exists 1%Q. split; [lra|]. split; [lra|].
    split; ring.
  - intros Hrun.
    apply (bisection_on_ray ext self temp U _ _ _ _ _ _ _ _ 0%Q 1%Q Hrun).
    + split; simpl; ring.
    + split; ring.
    + lra.
Qed.

(** *** Inside an active scope *)

Section ActiveScope.
Context {Sub : Type} `{TemporaryBusSubsystem Sub}.
Variable ext : External.
Variable self : CapacityAnalyser.
Variable temp : Sub.
Variable active : World -> Prop.
Variable after_call : complex -> World -> World.
Hypothesis call_run :
  forall p w, active w -> subsystem_call temp p w = (Ok tt, after_call p w).
Hypothesis active_after_call :
  forall p w, active w -> active (after_call p w).
Hypothesis active_add_trace :
  forall evs w, active w -> active (add_trace evs w).
Hypothesis call_trace :
  forall p w, exists e,
    trace (after_call p w) = trace w ++ [e] /\ is_check e = false.

Lemma probe_in_scope (p : complex) (w : World) :
  active w ->
  exists w1 evs,
    subsystem_call temp p w = (Ok tt, after_call p w)
    /\ feasibility_check ext self (after_call p w)
       = (Ok (feasible ext self (net (after_call p w)),
              limiting_factor_at ext self (net (after_call p w))), w1)
    /\ active w1
    /\ trace w1 = trace w ++ evs
    /\ count_checks evs = 1%nat.
Proof.
  intros Hact. destruct (call_trace p w) as (e & Htr & He).
  eexists _, _. split; [apply call_run, Hact|].
  split; [apply feasibility_check_run|].
  split; [apply active_add_trace, active_after_call, Hact|].
  split.
  - rewrite trace_add_trace, Htr, <- app_assoc. reflexivity.
  - rewrite count_checks_app, count_checks_probe_events.
    unfold count_checks. simpl. rewrite He. reflexivity.
Qed.

Lemma bisection_in_scope (n : nat) :
  forall (lower upper : complex) (lf : option LimitingFactor) (w : World),
  active w ->
  exists r lf' w' evs,
    bisection ext self temp n lower upper lf w = (Ok (r, lf'), w')
    /\ active w'
    /\ trace w' = trace w ++ evs
    /\ (count_checks evs <= n)%nat.
Proof.
  induction n as [|n IH]; intros lower upper lf w Hact; simpl.
  - exists lower, lf, w, []. split; [reflexivity|]. split; [exact Hact|].
    split; [rewrite app_nil_r; reflexivity|]. apply Nat.le_refl.
  - destruct (probe_in_scope (chalf (cadd lower upper)) w Hact)
      as (w1 & evs1 & Hcall & Hcheck & Hact1 & Htr1 & Hcount1).
    rewrite (bind_run _ _ _ _ _ Hcall), (bind_run _ _ _ _ _ Hcheck).
    destruct (Q_ltb _ _).
    + eexists _, _, w1, evs1. split; [reflexivity|]. split; [exact Hact1|].
      split; [exact Htr1|]. lia.
    + match goal with
      | |- context [bisection ext self temp n ?lo ?up ?f w1] =>
          destruct (IH lo up f w1 Hact1)
            as (r & lf' & w' & evs & Hrun & Hact' & Htr & Hcount)
      end.
      exists r, lf', w', (evs1 ++ evs). split; [exact Hrun|].
      split; [exact Hact'|].
      split; [rewrite Htr, Htr1, app_assoc; reflexivity|].
      rewrite count_checks_app. lia.
Qed.

Lemma max_power_available_mva_in_scope (U : complex) (w : World) :
  active w ->
  exists r lf w' evs,
    max_power_available_mva ext self temp U w = (Ok (r, lf), w')
    /\ active w'
    /\ trace w' = trace w ++ evs
    /\ (1 <= count_checks evs)%nat
    /\ (count_checks evs <= S (Z.to_nat (_max_iterations self - 1)))%nat.
Proof.
  intros Hact. unfold max_power_available_mva.
  destruct (probe_in_scope U w Hact)
    as (w1 & evs1 & Hcall & Hcheck & Hact1 & Htr1 & Hcount1).
  rewrite (bind_run _ _ _ _ _ Hcall), (bind_run _ _ _ _ _ Hcheck).
  destruct (feasible ext self (net (after_call U w))).
  - eexists _, _, w1, evs1. split; [reflexivity|]. split; [exact Hact1|].
    split; [exact Htr1|]. lia.
  - match goal with
    | |- context [bisection ext self temp ?n ?lo ?up ?f w1] =>
        destruct (bisection_in_scope n lo up f w1 Hact1)
          as (r & lf' & w' & evs & Hrun & Hact' & Htr & Hcount)
    end.
    exists r, lf', w', (evs1 ++ evs). split; [exact Hrun|].
    split; [exact Hact'|].
    split; [rewrite Htr, Htr1, app_assoc; reflexivity|].
    rewrite count_checks_app. lia.
Qed.

End ActiveScope.

(** *** The temporary load as an active scope *)

Lemma set_temp_load_trace (temp : TemporaryBusLoad) (p : complex) (w : World) :
  exists e, trace (set_temp_load temp p w) = trace w ++ [e]
            /\ is_check e = false.
Proof. eexists. split; reflexivity. Qed.

Lemma max_power_available_mva_load_in_scope (ext : External)
  (self : CapacityAnalyser) (temp : TemporaryBusLoad) (U : complex)
  (w : World) :
  scope_active temp w ->
  exists r lf w' evs,
    max_power_available_mva ext self temp U w = (Ok (r, lf), w')
    /\ scope_active temp w'
    /\ trace w' = trace w ++ evs
    /\ (1 <= count_checks evs)%nat
    /\ (count_checks evs <= S (Z.to_nat (_max_iterations self - 1)))%nat.
Proof.
  apply (max_power_available_mva_in_scope ext self temp (scope_active temp)
           (set_temp_load temp)).
  - intros p w0 [Hflag _]. apply TemporaryBusLoad_call_active, Hflag.
  - intros p w0. apply scope_active_set_temp_load.
  - intros evs w0. apply scope_active_add_trace.
  - intros p w0. apply set_temp_load_trace.
Qed.

Lemma load_headroom_block_unfold (ext : External) (self : CapacityAnalyser)
  (b : Bus) (w : World) :
  let temp := mkTemporaryBusLoad b (fresh (dom (heap w))) in
  let w1 := snd (TemporaryBusLoad___enter__ temp
                   (snd (TemporaryBusLoad___init__ b w))) in
  load_headroom_block ext self b w
  = (fst (max_power_available_mva ext self temp
            (_upper_load_limit_mva self) w1),
     snd (TemporaryBusLoad___exit__ temp
            (snd (max_power_available_mva ext self temp
                    (_upper_load_limit_mva self) w1)))).
Proof. apply load_headroom_block_run. Qed.

Lemma load_headroom_block_budget (ext : External) (self : CapacityAnalyser)
  (b : Bus) (w : World) :
  exists r lf w' evs,
    load_headroom_block ext self b w = (Ok (r, lf), w')
    /\ trace w' = trace w ++ evs
    /\ (1 <= count_checks evs)%nat
    /\ (count_checks evs <= Z.to_nat (Z.max 1 (_max_iterations self)))%nat
    /\ exists rest, evs = EvLoadData (Bus_number b) TEMP_LOAD_ID :: rest.
Proof.
  rewrite load_headroom_block_unfold.
  destruct (max_power_available_mva_load_in_scope ext self _
              (_upper_load_limit_mva self) _ (scope_active_after_enter b w))
    as (r & lf & w' & evs & Hrun & _ & Htr & Hlo & Hhi).
  rewrite Hrun. simpl fst. simpl snd.
  exists r, lf. eexists.
  exists ([EvLoadData (Bus_number b) TEMP_LOAD_ID] ++ evs
          ++ [EvPurgLoad (Bus_number b) TEMP_LOAD_ID]).
  split; [reflexivity|]. split.
  - simpl. rewrite Htr. simpl. rewrite <- !app_assoc. reflexivity.
  - rewrite !count_checks_app.
    change (count_checks [EvLoadData (Bus_number b) TEMP_LOAD_ID]) with 0%nat.
    change (count_checks [EvPurgLoad (Bus_number b) TEMP_LOAD_ID]) with 0%nat.
    assert (Hbound : S (Z.to_nat (_max_iterations self - 1))
                     = Z.to_nat (Z.max 1 (_max_iterations self))) by lia.
    rewrite <- Hbound. split; [lia|]. split; [lia|].
    eexists. reflexivity.
Qed.

(** X7: the load-headroom search of a bus (the [with temp_load:] block of
    [bus_headroom]) returns from every state, and makes at least one and
    at most [max(1, max_iterations)] violation checks of the intact
    network, whatever the oracle answers. *)
Theorem load_headroom_probe_budget (ext : External) (self : CapacityAnalyser)
  (b : Bus) (w : World) :
  exists r lf w' evs,
    load_headroom_block ext self b w = (Ok (r, lf), w')
    /\ trace w' = trace w ++ evs
    /\ (1 <= count_checks evs)%nat
    /\ (count_checks evs <= Z.to_nat (Z.max 1 (_max_iterations self)))%nat.
Proof.
  destruct (load_headroom_block_budget ext self b w)
    as (r & lf & w' & evs & Hrun & Htr & Hlo & Hhi & _).
  exists r, lf, w', evs. auto.
Qed.

Lemma change_load_change_load (b : Z) (id : string) (p q : complex)
  (ls : list Load) :
  change_load b id p (change_load b id q ls) = change_load b id p ls.
Proof.
  induction ls as [|x ls IH]; simpl; [reflexivity|].
  destruct (load_has_key b id x) eqn:Hx; simpl.
  - unfold load_has_key in *. simpl. rewrite Hx. reflexivity.
  - rewrite Hx, IH. reflexivity.
Qed.

Lemma net_set_temp_load_twice (temp : TemporaryBusLoad) (p q : complex)
  (w : World) :
  net (set_temp_load temp p (set_temp_load temp q w))
  = net (set_temp_load temp p w).
Proof.
  unfold set_temp_load. simpl. rewrite change_load_change_load.
  destruct (net w); reflexivity.
Qed.

Lemma bisection_answer_probed (ext : External) (self : CapacityAnalyser)
  (temp : TemporaryBusLoad) (w0 : World) (n : nat) :
  forall (lower upper r : complex) (lf lf' : option LimitingFactor)
         (w w' : World),
  scope_active temp w ->
  (forall p, net (set_temp_load temp p w) = net (set_temp_load temp p w0)) ->
  bisection ext self temp n lower upper lf w = (Ok (r, lf'), w') ->
  (r = lower \/ feasible ext self (net (set_temp_load temp r w0)) = true)
  /\ (forall p,
        net (set_temp_load temp p w') = net (set_temp_load temp p w0)).
Proof.
  induction n as [|n IH]; intros lower upper r lf lf' w w' Hact Hsame; simpl.
  - intros [= <- _ <-]. split; [left; reflexivity|exact Hsame].
  - cbn [subsystem_call TemporaryBusLoad_subsystem].
    set (mid := chalf (cadd lower upper)).
    rewrite (bind_run _ _ w (set_temp_load temp mid w) tt);
      [|apply TemporaryBusLoad_call_active, Hact].
    rewrite (bind_run _ _ _ _ _ (feasibility_check_run ext self _)).
    assert (Hact1 : forall evs,
               scope_active temp (add_trace evs (set_temp_load temp mid w)))
      by (intros evs;
          apply scope_active_add_trace, scope_active_set_temp_load, Hact).
    assert (Hsame1 : forall evs p,
               net (set_temp_load temp p
                      (add_trace evs (set_temp_load temp mid w)))
               = net (set_temp_load temp p w0)).
    { intros evs p. rewrite <- Hsame. apply net_set_temp_load_twice. }
    rewrite (Hsame mid).
    destruct (feasible ext self (net (set_temp_load temp mid w0))) eqn:Hfeas.
    + destruct (Q_ltb _ _).
      * intros [= <- _ <-]. split; [right; exact Hfeas|apply Hsame1].
      * intros Hrun.
        destruct (IH _ _ _ _ _ _ _ (Hact1 _) (Hsame1 _) Hrun)
          as [[->|Hr] Hnet]; (split; [right; assumption|exact Hnet]).
    + destruct (Q_ltb _ _).
      * intros [= <- _ <-]. split; [left; reflexivity|apply Hsame1].
      * intros Hrun. apply (IH _ _ _ _ _ _ _ (Hact1 _) (Hsame1 _) Hrun).
Qed.

Lemma max_power_available_mva_answer_probed (ext : External)
  (self : CapacityAnalyser) (temp : TemporaryBusLoad) (U r : complex)
  (lf : option LimitingFactor) (w w' : World) :
  scope_active temp w ->
  max_power_available_mva ext self temp U w = (Ok (r, lf), w') ->
  (r = c0 \/ feasible ext self (net (set_temp_load temp r w)) = true)
  /\ (forall p, net (set_temp_load temp p w') = net (set_temp_load temp p w)).
Proof.
  intros Hact. unfold max_power_available_mva.
  cbn [subsystem_call TemporaryBusLoad_subsystem].
  rewrite (bind_run _ _ w (set_temp_load temp U w) tt);
    [|apply TemporaryBusLoad_call_active, Hact].
  rewrite (bind_run _ _ _ _ _ (feasibility_check_run ext self _)).
  destruct (feasible ext self (net (set_temp_load temp U w))) eqn:Hfeas.
  - intros [= <- _ <-]. split; [right; exact Hfeas|].
    intros p. apply net_set_temp_load_twice.
  - apply (bisection_answer_probed ext self temp w).
    + apply scope_active_add_trace, scope_active_set_temp_load, Hact.
    + intros p. apply net_set_temp_load_twice.
Qed.

(** X9: inside the scope of a temporary load the search returns, and its
    answer is either [0j] or a power that the oracle finds feasible for
    this bus (the answer itself was probed and accepted, or nothing above
    zero was). *)
Theorem max_power_available_mva_answer_feasible (ext : External)
  (self : CapacityAnalyser) (temp : TemporaryBusLoad) (U : complex)
  (w : World) :
  scope_active temp w ->
  exists r lf w',
    max_power_available_mva ext self temp U w = (Ok (r, lf), w')
    /\ (r = c0 \/ feasible ext self (net (set_temp_load temp r w)) = true).
Proof.
  intros Hact.
  destruct (max_power_available_mva_load_in_scope ext self temp U w Hact)
    as (r & lf & w' & evs & Hrun & _).
  exists r, lf, w'. split; [exact Hrun|].
  apply (max_power_available_mva_answer_probed ext self temp U r lf w w' Hact
           Hrun).
Qed.

(** Upper bound 64 MW, feasible up to 10 MW: the answer is feasible. *)
Lemma max_power_available_mva_answer_feasible_example :
  exists r lf w',
    max_power_available_mva (threshold_external 10) (example_analyser 1 10)
      example_temp_load (Complex 64 32) example_world_active
    = (Ok (r, lf), w')
    /\ (r = c0
        \/ feasible (threshold_external 10) (example_analyser 1 10)
             (net (set_temp_load example_temp_load r example_world_active))
           = true).
Proof.
  apply (max_power_available_mva_answer_feasible (threshold_external 10)
           (example_analyser 1 10) example_temp_load (Complex 64 32)
           example_world_active).
  split; [reflexivity|]. eexists. reflexivity.
Defined.

(** X10: with [max_iterations <= 1] there is no halving at all: when the
    upper bound is infeasible the answer is [0j], with the limiting factor
    of the upper bound, after that single probe. *)
Theorem max_power_available_mva_no_halving (ext : External)
  (self : CapacityAnalyser) (temp : TemporaryBusLoad) (U : complex)
  (w : World) :
  scope_active temp w ->
  _max_iterations self <= 1 ->
  feasible ext self (net (set_temp_load temp U w)) = false ->
  max_power_available_mva ext self temp U w
  = (Ok (c0, limiting_factor_at ext self (net (set_temp_load temp U w))),
     add_trace (probe_events ext self (net (set_temp_load temp U w)))
       (set_temp_load temp U w)).
Proof.
  intros Hact Hmax Hfeas. unfold max_power_available_mva.
  cbn [subsystem_call TemporaryBusLoad_subsystem].
  rewrite (bind_run _ _ w (set_temp_load temp U w) tt);
    [|apply TemporaryBusLoad_call_active, Hact].
  rewrite (bind_run _ _ _ _ _ (feasibility_check_run ext self _)).
  rewrite Hfeas.
  replace (Z.to_nat (_max_iterations self - 1)) with 0%nat by lia.
  reflexivity.
Qed.

Lemma max_power_available_mva_no_halving_example :
  max_power_available_mva (threshold_external 10) (example_analyser 1 1)
    example_temp_load (Complex 64 32) example_world_active
  = (Ok (c0, Some (mkLimitingFactor 1%N None)),
     add_trace [EvCheckViolations]
       (set_temp_load example_temp_load (Complex 64 32)
          example_world_active)).
Proof.
  apply (max_power_available_mva_no_halving (threshold_external 10)
           (example_analyser 1 1) example_temp_load (Complex 64 32)
           example_world_active).
  - split; [reflexivity|]. eexists. reflexivity.
  - discriminate.
  - reflexivity.
Defined.

(** X14: the search is idempotent.  Searching again, in the same scope,
    with the first answer as the upper bound gives the same power; and
    when the first answer is not [0j] the second search is a single probe
    that returns it unchanged, with no limiting factor. *)
Theorem max_power_available_mva_idempotent (ext : External)
  (self : CapacityAnalyser) (temp : TemporaryBusLoad) (U : complex)
  (w : World) :
  scope_active temp w ->
  exists r lf w1 r2 lf2 w2,
    max_power_available_mva ext self temp U w = (Ok (r, lf), w1)
    /\ max_power_available_mva ext self temp r w1 = (Ok (r2, lf2), w2)
    /\ (real r2 == real r)%Q /\ (imag r2 == imag r)%Q
    /\ (r <> c0 ->
        r2 = r /\ lf2 = None
        /\ w2 = add_trace [EvCheckViolations; EvContingencyCheck]
                  (set_temp_load temp r w1)).
Proof.
  intros Hact.
  destruct (max_power_available_mva_load_in_scope ext self temp U w Hact)
    as (r & lf & w1 & evs & Hrun & Hact1 & _).
  destruct (max_power_available_mva_answer_probed ext self temp U r lf w w1
              Hact Hrun) as [Hr Hnet].
  destruct (max_power_available_mva_load_in_scope ext self temp r w1 Hact1)
    as (r2 & lf2 & w2 & evs2 & Hrun2 & _).
  exists r, lf, w1, r2, lf2, w2. split; [exact Hrun|]. split; [exact Hrun2|].
  assert (Hfeasible :
            feasible ext self (net (set_temp_load temp r w)) = true ->
            r2 = r /\ lf2 = None
            /\ w2 = add_trace [EvCheckViolations; EvContingencyCheck]
                      (set_temp_load temp r w1)).
  { intros Hfeas. rewrite <- (Hnet r) in Hfeas.
    revert Hrun2. unfold max_power_available_mva.
    cbn [subsystem_call TemporaryBusLoad_subsystem].
    rewrite (bind_run _ _ w1 (set_temp_load temp r w1) tt);
      [|apply TemporaryBusLoad_call_active, Hact1].
    rewrite (bind_run _ _ _ _ _ (feasibility_check_run ext self _)).
    rewrite Hfeas.
    destruct (feasible_limiting_factor ext self _ Hfeas) as [-> ->].
    intros [= <- <- <-]. repeat split. }
  destruct Hr as [->|Hfeas].
  - destruct (max_power_available_mva_on_ray ext self temp c0 r2 lf2 w1 w2
                Hrun2) as (k & _ & _ & Hk1 & Hk2).
    simpl in Hk1, Hk2. split; [rewrite Hk1; simpl; ring|].
    split; [rewrite Hk2; simpl; ring|]. intros Hne. contradiction.
  - destruct (Hfeasible Hfeas) as (-> & Hlf & Hw).
    split; [reflexivity|]. split; [reflexivity|]. intros _.
    split; [reflexivity|]. split; assumption.
Qed.

(** Upper bound 64 MW, feasible up to 10 MW: 10 MW, then 10 MW again. *)
Lemma max_power_available_mva_idempotent_example :
  exists r lf w1 r2 lf2 w2,
    max_power_available_mva (threshold_external 10) (example_analyser 1 10)
      example_temp_load (Complex 64 32) example_world_active
    = (Ok (r, lf), w1)
    /\ max_power_available_mva (threshold_external 10)
         (example_analyser 1 10) example_temp_load r w1
       = (Ok (r2, lf2), w2)
    /\ (real r2 == real r)%Q.
Proof.
  destruct (max_power_available_mva_idempotent (threshold_external 10)
              (example_analyser 1 10) example_temp_load (Complex 64 32)
              example_world_active)
    as (r & lf & w1 & r2 & lf2 & w2 & H1 & H2 & H3 & _).
  - split; [reflexivity|]. eexists. reflexivity.
  - exists r, lf, w1, r2, lf2, w2. split; [exact H1|]. split; assumption.
Defined.

(** ** The temporary machine as an active scope *)

Lemma machine_has_key_refl (b : Z) (name id : string) (p : complex) :
  machine_has_key b id (mkMachine b name id p) = true.
Proof.
  unfold machine_has_key. simpl. rewrite Z.eqb_refl, String.eqb_refl.
  reflexivity.
Qed.

Lemma find_machine_add_machine (b : Z) (name id : string) (p : complex)
  (ms : list Machine) :
  find_machine b id ms = None ->
  find_machine b id (add_machine (mkMachine b name id p) ms)
  = Some (mkMachine b name id p).
Proof.
  unfold find_machine. induction ms as [|x ms IH]; simpl.
  - intros _. rewrite machine_has_key_refl. reflexivity.
  - destruct (machine_has_key b id x) eqn:Hx; [discriminate|]. intros Hnone.
    destruct (b <? Machine_number x); simpl.
    + rewrite machine_has_key_refl. reflexivity.
    + rewrite Hx. apply IH, Hnone.
Qed.

Lemma remove_machine_add_machine (b : Z) (name id : string) (p : complex)
  (ms : list Machine) :
  find_machine b id ms = None ->
  remove_machine b id (add_machine (mkMachine b name id p) ms) = ms.
Proof.
  unfold find_machine. induction ms as [|x ms IH]; simpl.
  - intros _. rewrite machine_has_key_refl. reflexivity.
  - destruct (machine_has_key b id x) eqn:Hx; [discriminate|]. intros Hnone.
    destruct (b <? Machine_number x); simpl.
    + rewrite machine_has_key_refl. reflexivity.
    + rewrite Hx, (IH Hnone). reflexivity.
Qed.

Lemma remove_machine_change_machine (b : Z) (id : string) (p : complex)
  (ms : list Machine) :
  remove_machine b id (change_machine b id p ms) = remove_machine b id ms.
Proof.
  induction ms as [|x ms IH]; simpl; [reflexivity|].
  destruct (machine_has_key b id x) eqn:Hx; simpl.
  - unfold machine_has_key in *. simpl. rewrite Hx. reflexivity.
  - rewrite Hx, IH. reflexivity.
Qed.

Lemma find_machine_change_machine (b : Z) (id : string) (p : complex)
  (ms : list Machine) (m : Machine) :
  find_machine b id ms = Some m ->
  find_machine b id (change_machine b id p ms)
  = Some (mkMachine (Machine_number m) (Machine_ex_name m) (Machine_id m) p).
Proof.
  unfold find_machine. induction ms as [|x ms IH]; simpl; [discriminate|].
  destruct (machine_has_key b id x) eqn:Hx; simpl.
  - intros [= ->]. unfold machine_has_key in *. simpl. rewrite Hx.
    reflexivity.
  - rewrite Hx. exact IH.
Qed.

Lemma TemporaryBusMachine_call_active (temp : TemporaryBusMachine)
  (p : complex) (w : World) :
  heap w !! TemporaryBusMachine_ref temp = Some true ->
  TemporaryBusMachine___call__ temp p w = (Ok tt, set_temp_machine temp p w).
Proof.
  intros Hflag.
  unfold TemporaryBusMachine___call__, bind, get_flag. rewrite Hflag.
  reflexivity.
Qed.

Lemma machine_scope_active_after_enter (b : Bus) (w : World) :
  machine_scope_active (mkTemporaryBusMachine b (fresh (dom (heap w))))
    (snd (TemporaryBusMachine___enter__
            (mkTemporaryBusMachine b (fresh (dom (heap w))))
            (snd (TemporaryBusMachine___init__ b w)))).
Proof.
  split; [apply lookup_insert_eq|]. simpl.
  destruct (find_machine (Bus_number b) TEMP_MACHINE_ID
              (net_machines (net w))) as [m|] eqn:Hm; simpl.
  - exists m. exact Hm.
  - eexists. apply find_machine_add_machine. exact Hm.
Qed.

Lemma max_power_available_mva_machine_in_scope (ext : External)
  (self : CapacityAnalyser) (temp : TemporaryBusMachine) (U : complex)
  (w : World) :
  machine_scope_active temp w ->
  exists r lf w' evs,
    max_power_available_mva ext self temp U w = (Ok (r, lf), w')
    /\ machine_scope_active temp w'
    /\ trace w' = trace w ++ evs
    /\ (1 <= count_checks evs)%nat
    /\ (count_checks evs <= S (Z.to_nat (_max_iterations self - 1)))%nat.
Proof.
  apply (max_power_available_mva_in_scope ext self temp
           (machine_scope_active temp) (set_temp_machine temp)).
  - intros p w0 [Hflag _]. apply TemporaryBusMachine_call_active, Hflag.
  - intros p w0 [Hflag [m Hm]]. split; [exact Hflag|]. simpl.
    eexists. apply find_machine_change_machine. exact Hm.
  - intros evs w0 Hact. exact Hact.
  - intros p w0. eexists. split; reflexivity.
Qed.

Lemma with_TemporaryBusMachine_run {A} (temp : TemporaryBusMachine)
  (body : M A) (w : World) :
  let w1 := snd (TemporaryBusMachine___enter__ temp w) in
  let wb := snd (body w1) in
  with_subsystem temp body w
  = (fst (body w1), snd (TemporaryBusMachine___exit__ temp wb)).
Proof.
  intros w1 wb. unfold with_subsystem, with_stmt.
  cbn [subsystem_enter subsystem_exit TemporaryBusMachine_subsystem].
  rewrite (bind_run _ _ w w1 tt) by reflexivity.
  unfold try_finally. fold wb.
  destruct (body w1) as [r wb'] eqn:Hb. reflexivity.
Qed.

Lemma gen_headroom_block_unfold (ext : External) (self : CapacityAnalyser)
  (b : Bus) (w : World) :
  let temp := mkTemporaryBusMachine b (fresh (dom (heap w))) in
  let w1 := snd (TemporaryBusMachine___enter__ temp
                   (snd (TemporaryBusMachine___init__ b w))) in
  gen_headroom_block ext self b w
  = (fst (max_power_available_mva ext self temp
            (_upper_gen_limit_mva self) w1),
     snd (TemporaryBusMachine___exit__ temp
            (snd (max_power_available_mva ext self temp
                    (_upper_gen_limit_mva self) w1)))).
Proof.
  intros temp w1. unfold gen_headroom_block.
  rewrite (bind_run _ _ w (snd (TemporaryBusMachine___init__ b w)) temp)
    by reflexivity.
  apply with_TemporaryBusMachine_run.
Qed.

(** Both blocks return from every state. *)
Lemma load_headroom_block_returns (ext : External) (self : CapacityAnalyser)
  (b : Bus) (w : World) :
  exists r lf w', load_headroom_block ext self b w = (Ok (r, lf), w').
Proof.
  rewrite load_headroom_block_unfold.
  destruct (max_power_available_mva_load_in_scope ext self _
              (_upper_load_limit_mva self) _ (scope_active_after_enter b w))
    as (r & lf & w' & evs & Hrun & _).
  rewrite Hrun. eexists _, _, _. reflexivity.
Qed.

Lemma gen_headroom_block_returns (ext : External) (self : CapacityAnalyser)
  (b : Bus) (w : World) :
  exists r lf w', gen_headroom_block ext self b w = (Ok (r, lf), w').
Proof.
  rewrite gen_headroom_block_unfold.
  destruct (max_power_available_mva_machine_in_scope ext self _
              (_upper_gen_limit_mva self) _
              (machine_scope_active_after_enter b w))
    as (r & lf & w' & evs & Hrun & _).
  rewrite Hrun. eexists _, _, _. reflexivity.
Qed.

(** The search reads the settings of the analyser, not its cursors. *)
Lemma bisection_cursors {Sub : Type} `{TemporaryBusSubsystem Sub}
  (ext : External) (self : CapacityAnalyser) (lc : LoadCursor)
  (mc : MachineCursor) (temp : Sub) (n : nat) :
  forall lower upper lf w,
  bisection ext (set_machines_cursor mc (set_loads_cursor lc self)) temp n
    lower upper lf w
  = bisection ext self temp n lower upper lf w.
Proof.
  induction n as [|n IH]; intros lower upper lf w; simpl; [reflexivity|].
  unfold bind at 1 3.
  destruct (subsystem_call temp _ w) as [[[]|e] w1]; [|reflexivity].
  change (feasibility_check ext
            (set_machines_cursor mc (set_loads_cursor lc self)))
    with (feasibility_check ext self).
  unfold bind.
  destruct (feasibility_check ext self w1) as [[[feas lf']|e] w2];
    [|reflexivity].
  destruct (Q_ltb _ _); [reflexivity|apply IH].
Qed.

Lemma max_power_available_mva_cursors {Sub : Type}
  `{TemporaryBusSubsystem Sub}
  (ext : External) (self : CapacityAnalyser) (lc : LoadCursor)
  (mc : MachineCursor) (temp : Sub) (U : complex) (w : World) :
  max_power_available_mva ext
    (set_machines_cursor mc (set_loads_cursor lc self)) temp U w
  = max_power_available_mva ext self temp U w.
Proof.
  unfold max_power_available_mva. unfold bind at 1 3.
  destruct (subsystem_call temp U w) as [[[]|e] w1]; [|reflexivity].
  change (feasibility_check ext
            (set_machines_cursor mc (set_loads_cursor lc self)))
    with (feasibility_check ext self).
  unfold bind.
  destruct (feasibility_check ext self w1) as [[[feas lf']|e] w2];
    [|reflexivity].
  destruct feas; [reflexivity|]. apply bisection_cursors.
Qed.

(** ** One bus *)

Lemma load_headroom_block_cursors (ext : External) (self : CapacityAnalyser)
  (lc : LoadCursor) (mc : MachineCursor) (b : Bus) (w : World) :
  load_headroom_block ext (set_machines_cursor mc (set_loads_cursor lc self))
    b w
  = load_headroom_block ext self b w.
Proof.
  rewrite !load_headroom_block_unfold.
  change (_upper_load_limit_mva
            (set_machines_cursor mc (set_loads_cursor lc self)))
    with (_upper_load_limit_mva self).
  rewrite max_power_available_mva_cursors. reflexivity.
Qed.

Lemma gen_headroom_block_cursors (ext : External) (self : CapacityAnalyser)
  (lc : LoadCursor) (mc : MachineCursor) (b : Bus) (w : World) :
  gen_headroom_block ext (set_machines_cursor mc (set_loads_cursor lc self))
    b w
  = gen_headroom_block ext self b w.
Proof.
  rewrite !gen_headroom_block_unfold.
  change (_upper_gen_limit_mva
            (set_machines_cursor mc (set_loads_cursor lc self)))
    with (_upper_gen_limit_mva self).
  rewrite max_power_available_mva_cursors. reflexivity.
Qed.

(** What [bus_headroom] does, piece by piece, for an analyser whose
    cursors are in order. *)
Lemma bus_headroom_run (ext : External) (self : CapacityAnalyser) (b : Bus)
  (w : World) :
  cursor_ok (_loads_cursor self) ->
  machine_cursor_ok (_machines_cursor self) ->
  exists al lc ag mc la llf w1 ga glf w',
    bus_actual_load_mva (_loads_cursor self) (Bus_number b) = Ok (al, lc)
    /\ cursor_ok lc
    /\ bus_actual_gen_mva (_machines_cursor self) (Bus_number b) = Ok (ag, mc)
    /\ machine_cursor_ok mc
    /\ load_headroom_block ext self b w = (Ok (la, llf), w1)
    /\ (if negb (ceqb ag c0) && negb (ceqb la c0)
        then gen_headroom_block ext self b w1 = (Ok (ga, glf), w')
        else ga = c0 /\ glf = None /\ w' = w1)
    /\ bus_headroom ext self b w
       = (Ok (mkBusHeadroom b al ag la ga llf glf,
              set_machines_cursor mc (set_loads_cursor lc self)), w').
Proof.
  intros Hlok Hmok.
  destruct (bus_actual_load_mva_spec (_loads_cursor self) (Bus_number b) Hlok)
    as (pre & lc & Hload & _ & _ & Hlok' & _).
  destruct (bus_actual_gen_mva_as_load (_machines_cursor self) (Bus_number b)
              Hmok) as (ag & mc & Hgen & _ & Hmok').
  destruct (load_headroom_block_returns ext self b w)
    as (la & llf & w1 & Hlblock).
  set (self2 := set_machines_cursor mc (set_loads_cursor lc self)).
  assert (Hgblock : exists ga glf w',
             (if negb (ceqb ag c0) && negb (ceqb la c0)
              then gen_headroom_block ext self b w1 = (Ok (ga, glf), w')
              else ga = c0 /\ glf = None /\ w' = w1)).
  { destruct (negb (ceqb ag c0) && negb (ceqb la c0)).
    - apply gen_headroom_block_returns.
    - exists c0, None, w1. auto. }
  destruct Hgblock as (ga & glf & w' & Hgblock).
  exists (bus_load_sum (Bus_number b) pre), lc, ag, mc, la, llf, w1, ga, glf, w'.
  split; [exact Hload|]. split; [exact Hlok'|]. split; [exact Hgen|].
  split; [exact Hmok'|]. split; [exact Hlblock|]. split; [exact Hgblock|].
  unfold bus_headroom.
  rewrite (bind_run _ _ w w (bus_load_sum (Bus_number b) pre, lc))
    by (unfold lift; rewrite Hload; reflexivity).
  cbv beta iota zeta.
  rewrite (bind_run _ _ w w (ag, mc))
    by (unfold lift; simpl; rewrite Hgen; reflexivity).
  cbv beta iota zeta. fold self2.
  rewrite (bind_run _ _ w (snd (TemporaryBusLoad___init__ b w))
             (mkTemporaryBusLoad b (fresh (dom (heap w)))))
    by reflexivity.
  rewrite (bind_run _ _ _ w1 (la, llf)).
  2:{ rewrite <- Hlblock, <- (load_headroom_block_cursors ext self lc mc).
      reflexivity. }
  cbv beta iota zeta.
  destruct (negb (ceqb ag c0) && negb (ceqb la c0)).
  - rewrite (bind_run _ _ w1 w' (ga, glf)); [reflexivity|].
    rewrite <- Hgblock, <- (gen_headroom_block_cursors ext self lc mc).
    reflexivity.
  - destruct Hgblock as (-> & -> & ->). reflexivity.
Qed.

(** X11: [bus_headroom] returns a record for the bus it was given, whose
    load headroom is the answer of the load search.  The generation search
    runs only when the bus has generation and some load headroom;
    otherwise the generation headroom is [0j] with no limiting factor and
    nothing happens after the load search (no temporary machine is
    created). *)
Theorem bus_headroom_generation_gate (ext : External)
  (self : CapacityAnalyser) (b : Bus) (w : World) :
  cursor_ok (_loads_cursor self) ->
  machine_cursor_ok (_machines_cursor self) ->
  exists h self' w',
    bus_headroom ext self b w = (Ok (h, self'), w')
    /\ bus h = b
    /\ fst (load_headroom_block ext self b w)
       = Ok (load_avail_mva h, load_lf h)
    /\ (ceqb (actual_gen_mva h) c0 || ceqb (load_avail_mva h) c0 = true ->
        gen_avail_mva h = c0 /\ gen_lf h = None
        /\ w' = snd (load_headroom_block ext self b w))
    /\ (ceqb (actual_gen_mva h) c0 || ceqb (load_avail_mva h) c0 = false ->
        gen_headroom_block ext self b (snd (load_headroom_block ext self b w))
        = (Ok (gen_avail_mva h, gen_lf h), w')).
Proof.
  intros Hlok Hmok.
  destruct (bus_headroom_run ext self b w Hlok Hmok)
    as (al & lc & ag & mc & la & llf & w1 & ga & glf & w'
        & _ & _ & _ & _ & Hlblock & Hgblock & Hrun).
  eexists _, _, w'. split; [exact Hrun|]. simpl.
  split; [reflexivity|]. rewrite Hlblock. simpl.
  split; [reflexivity|].
  destruct (ceqb ag c0), (ceqb la c0); simpl in *; split;
    try discriminate; intros _; try exact Hgblock.
Qed.

(** Bus 1 of the example case has no machine: no generation search. *)
Lemma bus_headroom_generation_gate_example :
  exists h self' w',
    bus_headroom (threshold_external 10) example_sweep_analyser bus_A
      example_sweep_world
    = (Ok (h, self'), w')
    /\ gen_avail_mva h = c0 /\ gen_lf h = None.
Proof.
  destruct (bus_headroom_generation_gate (threshold_external 10)
              example_sweep_analyser bus_A example_sweep_world)
    as (h & self' & w' & Hrun & _ & _ & Hclosed & _).
  - intros _. eexists. reflexivity.
  - intros _. eexists. reflexivity.
  - exists h, self', w'. split; [exact Hrun|].
    assert (Hgate : ceqb (actual_gen_mva h) c0
                    || ceqb (load_avail_mva h) c0 = true).
    { vm_compute in Hrun. injection Hrun as <- _ _. reflexivity. }
    destruct (Hclosed Hgate) as (Hga & Hglf & _).
    split; [exact Hga|exact Hglf].
Defined.

(** ** The sweep *)

Lemma StronglySorted_map_filter {A} (f : A -> Z) (p : A -> bool)
  (l : list A) :
  StronglySorted Z.lt (map f l) ->
  StronglySorted Z.lt (map f (List.filter p l)).
Proof.
  induction l as [|x l IH]; simpl; [auto|].
  intros Hs. apply StronglySorted_inv in Hs as [Hs Hall].
  destruct (p x); simpl; [|auto].
  constructor; [auto|].
  rewrite List.Forall_map in *. rewrite List.Forall_forall in *.
  intros y Hy. apply Hall. apply List.filter_In in Hy. apply Hy.
Qed.

(** The sweep threads the two cursors through the selected buses. *)
Lemma buses_headroom_sweep_run (ext : External) (buses : list Bus) :
  forall (self : CapacityAnalyser) (w : World),
  cursor_ok (_loads_cursor self) ->
  machine_cursor_ok (_machines_cursor self) ->
  exists hs w' lc mc,
    buses_headroom_sweep ext self buses w = (Ok hs, w')
    /\ map bus hs = List.filter (selected self) buses
    /\ query_sweep (_loads_cursor self)
         (map Bus_number (List.filter (selected self) buses))
       = Ok (map actual_load_mva hs, lc)
    /\ gen_query_sweep (_machines_cursor self)
         (map Bus_number (List.filter (selected self) buses))
       = Ok (map actual_gen_mva hs, mc).
Proof.
  induction buses as [|b buses IH]; intros self w Hlok Hmok.
  - exists [], w, (_loads_cursor self), (_machines_cursor self).
    repeat split.
  - cbn [buses_headroom_sweep List.filter].
    change (match _selected_buses_ids self with
            | Some ids => existsb (Z.eqb (Bus_number b)) ids
            | None => true
            end) with (selected self b).
    destruct (selected self b) eqn:Hsel.
    + destruct (bus_headroom_run ext self b w Hlok Hmok)
        as (al & lc & ag & mc & la & llf & w1 & ga & glf & w2
            & Hload & Hlok' & Hgen & Hmok' & _ & _ & Hrun).
      set (self2 := set_machines_cursor mc (set_loads_cursor lc self)) in *.
      destruct (IH self2 w2 Hlok' Hmok')
        as (hs & w' & lc' & mc' & Hsweep & Hbus & Hq & Hg).
      change (selected self2) with (selected self) in *.
      change (_loads_cursor self2) with lc in Hq.
      change (_machines_cursor self2) with mc in Hg.
      rewrite (bind_run _ _ _ _ _ Hrun). cbv beta iota.
      rewrite (bind_run _ _ _ _ _ Hsweep).
      eexists _, w', lc', mc'. split; [reflexivity|]. simpl.
      rewrite Hbus, Hload, Hq, Hgen, Hg. repeat split.
    + apply IH; assumption.
Qed.

Lemma buses_headroom_sweep_sums (ext : External)
  (self : CapacityAnalyser) (buses : list Bus) (loads : list Load)
  (machines : list Machine) (w : World) :
  _loads_cursor self = initial_cursor loads ->
  _machines_cursor self = initial_machine_cursor machines ->
  sorted_by_bus loads ->
  Sorted Z.le (map Machine_number machines) ->
  Sorted Z.lt (map Bus_number buses) ->
  exists hs w',
    buses_headroom_sweep ext self buses w = (Ok hs, w')
    /\ map bus hs = List.filter (selected self) buses
    /\ map actual_load_mva hs
       = map (fun h => bus_load_sum (Bus_number (bus h)) loads) hs
    /\ map actual_gen_mva hs
       = map (fun h => bus_gen_sum (Bus_number (bus h)) machines) hs.
Proof.
  intros Hlc Hmc Hloads Hmachines Hbuses.
  apply Sorted_StronglySorted in Hbuses; [|intros x y z; apply Z.lt_trans].
  pose proof (StronglySorted_map_filter Bus_number (selected self) buses
                Hbuses) as Hns.
  destruct (buses_headroom_sweep_run ext buses self w)
    as (hs & w' & lc & mc & Hsweep & Hbus & Hq & Hg).
  { rewrite Hlc. apply initial_cursor_ok. }
  { rewrite Hmc. apply initial_machine_cursor_ok. }
  exists hs, w'. split; [exact Hsweep|]. split; [exact Hbus|].
  rewrite <- Hbus in Hq, Hg, Hns. rewrite Hlc in Hq. rewrite Hmc in Hg.
  split.
  - destruct (query_sweep_increasing (map Bus_number (map bus hs))
                (initial_cursor loads) [] (initial_cursor_ok loads))
      as (c' & pre & Hsw & _).
    + rewrite remaining_initial_cursor. exact Hloads.
    + exact Hns.
    + constructor.
    + rewrite remaining_initial_cursor in Hsw. simpl in Hsw.
      rewrite Hsw in Hq. injection Hq as Hq _.
      rewrite <- Hq, !map_map. reflexivity.
  - destruct (gen_query_sweep_sums machines _ Hmachines Hns) as [c' Hsw].
    rewrite Hsw in Hg. injection Hg as Hg _.
    rewrite <- Hg, !map_map. reflexivity.
Qed.

(** X12: on a case whose loads and machines are ordered by bus number and
    whose buses have strictly increasing numbers, the [buses_headroom]
    method returns one record per selected bus, in bus order, and the
    actual load and actual generation of every record are the totals of
    its bus over the whole case: skipping unselected buses does not lose
    or misplace a load. *)
Theorem CapacityAnalyser_buses_headroom_reports (ext : External)
  (self : CapacityAnalyser) (loads : list Load) (machines : list Machine)
  (w : World) :
  _loads_cursor self = initial_cursor loads ->
  _machines_cursor self = initial_machine_cursor machines ->
  sorted_by_bus loads ->
  Sorted Z.le (map Machine_number machines) ->
  Sorted Z.lt (map Bus_number (net_buses (net w))) ->
  exists hs w',
    CapacityAnalyser_buses_headroom ext self w = (Ok hs, w')
    /\ map bus hs = List.filter (selected self) (net_buses (net w))
    /\ map actual_load_mva hs
       = map (fun h => bus_load_sum (Bus_number (bus h)) loads) hs
    /\ map actual_gen_mva hs
       = map (fun h => bus_gen_sum (Bus_number (bus h)) machines) hs.
Proof.
  intros Hlc Hmc Hloads Hmachines Hbuses.
  unfold CapacityAnalyser_buses_headroom.
  rewrite (bind_run _ _ w w (net_buses (net w))) by reflexivity.
  apply (buses_headroom_sweep_sums ext self (net_buses (net w)) loads
           machines w Hlc Hmc Hloads Hmachines Hbuses).
Qed.

(** The example case, buses 1 and 3 selected: bus 1 has 10+5j of load,
    bus 3 has none, and the load of the skipped bus 2 shows up nowhere. *)
Lemma CapacityAnalyser_buses_headroom_reports_example :
  exists hs w',
    CapacityAnalyser_buses_headroom (threshold_external 10)
      example_sweep_analyser example_sweep_world
    = (Ok hs, w')
    /\ map bus hs = [bus_A; mkBus 3 "C"]
    /\ map actual_load_mva hs
       = map (fun h =>
                bus_load_sum (Bus_number (bus h))
                  (net_loads example_sweep_net)) hs.
Proof.
  destruct (CapacityAnalyser_buses_headroom_reports (threshold_external 10)
              example_sweep_analyser (net_loads example_sweep_net)
              (net_machines example_sweep_net) example_sweep_world)
    as (hs & w' & Hrun & Hbus & Hload & _).
  - reflexivity.
  - reflexivity.
  - repeat constructor; discriminate.
  - repeat constructor.
  - repeat constructor.
  - exists hs, w'. split; [exact Hrun|]. split; [exact Hbus|exact Hload].
Defined.

(** ** The sweep leaves the network as it found it *)

Lemma net_bind {A B} (m : M A) (k : A -> M B) (w : World) (n : Network) :
  (forall e w1, m w = (Raise e, w1) -> net w1 = n) ->
  (forall a w1, m w = (Ok a, w1) -> net (snd (k a w1)) = n) ->
  net (snd (bind m k w)) = n.
Proof.
  intros Hraise Hok. unfold bind.
  destruct (m w) as [[a|e] w1]; simpl.
  - apply Hok. reflexivity.
  - apply (Hraise e). reflexivity.
Qed.

Lemma net_frame_bind {A B} (f : Network -> Network) (m : M A)
  (k : A -> M B) :
  net_frame f m -> (forall a, net_frame f (k a)) -> net_frame f (bind m k).
Proof.
  intros Hm Hk w. unfold bind. specialize (Hm w).
  destruct (m w) as [[a|e] w1]; simpl in *.
  - rewrite (Hk a w1). exact Hm.
  - exact Hm.
Qed.

Lemma net_frame_ret {A} (f : Network -> Network) (a : A) :
  net_frame f (ret a).
Proof. intros w. reflexivity. Qed.

Lemma net_frame_feasibility_check (f : Network -> Network) (ext : External)
  (self : CapacityAnalyser) :
  net_frame f (feasibility_check ext self).
Proof. intros w. rewrite feasibility_check_run. reflexivity. Qed.

Lemma net_frame_machine_call (temp : TemporaryBusMachine) (p : complex) :
  net_frame (machine_purged temp) (TemporaryBusMachine___call__ temp p).
Proof.
  intros w. unfold TemporaryBusMachine___call__, bind, get_flag.
  destruct (heap w !! TemporaryBusMachine_ref temp) as [[|]|]; simpl;
    try reflexivity.
  unfold machine_purged. simpl. rewrite remove_machine_change_machine.
  reflexivity.
Qed.

Lemma net_frame_machine_bisection (ext : External) (self : CapacityAnalyser)
  (temp : TemporaryBusMachine) (n : nat) :
  forall (lower upper : complex) (lf : option LimitingFactor),
  net_frame (machine_purged temp)
    (bisection ext self temp n lower upper lf).
Proof.
  induction n as [|n IH]; intros lower upper lf; simpl.
  - apply net_frame_ret.
  - apply net_frame_bind; [apply net_frame_machine_call|]. intros _.
    apply net_frame_bind; [apply net_frame_feasibility_check|].
    intros [feas lf'].
    destruct (Q_ltb _ _); [apply net_frame_ret|apply IH].
Qed.

Lemma net_frame_machine_search (ext : External) (self : CapacityAnalyser)
  (temp : TemporaryBusMachine) (U : complex) :
  net_frame (machine_purged temp) (max_power_available_mva ext self temp U).
Proof.
  unfold max_power_available_mva.
  apply net_frame_bind; [apply net_frame_machine_call|]. intros _.
  apply net_frame_bind; [apply net_frame_feasibility_check|].
  intros [feas lf].
  destruct feas; [apply net_frame_ret|apply net_frame_machine_bisection].
Qed.

Lemma load_search_restores_net (ext : External) (self : CapacityAnalyser)
  (temp : TemporaryBusLoad) (U : complex) (w : World) :
  find_load (Bus_number (TemporaryBusLoad_bus temp)) TEMP_LOAD_ID
    (net_loads (net w)) = None ->
  net (snd (with_subsystem temp (max_power_available_mva ext self temp U) w))
  = net w.
Proof.
  intros Hnone. rewrite with_TemporaryBusLoad_run.
  change (purged temp
            (net (snd (max_power_available_mva ext self temp U
                         (snd (TemporaryBusLoad___enter__ temp w)))))
          = net w).
  rewrite (keeps_purged_max_power_available_mva ext self temp U).
  apply purged_after_enter, Hnone.
Qed.

Lemma machine_search_restores_net (ext : External) (self : CapacityAnalyser)
  (temp : TemporaryBusMachine) (U : complex) (w : World) :
  find_machine (Bus_number (TemporaryBusMachine_bus temp)) TEMP_MACHINE_ID
    (net_machines (net w)) = None ->
  net (snd (with_subsystem temp (max_power_available_mva ext self temp U) w))
  = net w.
Proof.
  intros Hnone. rewrite with_TemporaryBusMachine_run.
  change (machine_purged temp
            (net (snd (max_power_available_mva ext self temp U
                         (snd (TemporaryBusMachine___enter__ temp w)))))
          = net w).
  rewrite (net_frame_machine_search ext self temp U).
  unfold machine_purged. simpl. rewrite Hnone. simpl.
  rewrite (remove_machine_add_machine _ _ _ _ _ Hnone).
  destruct (net w); reflexivity.
Qed.

Lemma bus_headroom_restores_net (ext : External) (self : CapacityAnalyser)
  (b : Bus) (w : World) :
  no_temporary_element (net w) b ->
  net (snd (bus_headroom ext self b w)) = net w.
Proof.
  intros [Hload Hmach]. unfold bus_headroom.
  apply net_bind; [intros e w1 [= _ <-]; reflexivity|].
  intros [al lc] w1 H1. assert (w1 = w) as -> by (unfold lift in H1; congruence).
  apply net_bind; [intros e w1 [= _ <-]; reflexivity|].
  intros [ag mc] w1 H2. assert (w1 = w) as -> by (unfold lift in H2; congruence).
  apply net_bind; [intros e w1 [=]|].
  intros temp_load w1 [= <- <-].
  apply net_bind.
  { intros e w2 Hw2.
    replace w2 with (snd (with_subsystem
                            (mkTemporaryBusLoad b (fresh (dom (heap w))))
                            (max_power_available_mva ext
                               (set_machines_cursor mc (set_loads_cursor lc self))
                               (mkTemporaryBusLoad b (fresh (dom (heap w))))
                               (_upper_load_limit_mva
                                  (set_machines_cursor mc
                                     (set_loads_cursor lc self))))
                            (snd (TemporaryBusLoad___init__ b w))))
      by (simpl in *; rewrite Hw2; reflexivity).
    rewrite load_search_restores_net; [reflexivity|exact Hload]. }
  intros [la llf] w2 Hw2.
  assert (Hnet2 : net w2 = net w).
  { replace w2 with (snd (with_subsystem
                            (mkTemporaryBusLoad b (fresh (dom (heap w))))
                            (max_power_available_mva ext
                               (set_machines_cursor mc (set_loads_cursor lc self))
                               (mkTemporaryBusLoad b (fresh (dom (heap w))))
                               (_upper_load_limit_mva
                                  (set_machines_cursor mc
                                     (set_loads_cursor lc self))))
                            (snd (TemporaryBusLoad___init__ b w))))
      by (simpl in *; rewrite Hw2; reflexivity).
    rewrite load_search_restores_net; [reflexivity|exact Hload]. }
  assert (Hgen : forall w3,
            net w3 = net w ->
            net (snd ((if negb (ceqb ag c0) && negb (ceqb la c0)
                       then
                         bind (TemporaryBusMachine___init__ b)
                           (fun temp_gen =>
                              with_subsystem temp_gen
                                (max_power_available_mva ext
                                   (set_machines_cursor mc
                                      (set_loads_cursor lc self))
                                   temp_gen
                                   (_upper_gen_limit_mva
                                      (set_machines_cursor mc
                                         (set_loads_cursor lc self)))))
                       else ret (c0, None)) w3)) = net w).
  { intros w3 H3. destruct (negb (ceqb ag c0) && negb (ceqb la c0));
      [|exact H3].
    apply net_bind; [intros e w4 [=]|].
    intros temp_gen w4 [= <- <-].
    rewrite machine_search_restores_net; [exact H3|].
    simpl. rewrite H3. exact Hmach. }
  apply net_bind.
  - intros e w3 Hw3. rewrite <- (Hgen w2 Hnet2), Hw3. reflexivity.
  - intros [ga glf] w3 Hw3. simpl.
    rewrite <- (Hgen w2 Hnet2), Hw3. reflexivity.
Qed.

Lemma buses_headroom_sweep_restores_net (ext : External) (buses : list Bus) :
  forall (self : CapacityAnalyser) (w : World),
  Forall (no_temporary_element (net w)) buses ->
  net (snd (buses_headroom_sweep ext self buses w)) = net w.
Proof.
  induction buses as [|b buses IH]; intros self w Hall; [reflexivity|].
  apply List.Forall_cons_iff in Hall as [Hb Hall].
  cbn [buses_headroom_sweep].
  destruct (match _selected_buses_ids self with
            | Some ids => existsb (Z.eqb (Bus_number b)) ids
            | None => true
            end); [|apply IH, Hall].
  pose proof (bus_headroom_restores_net ext self b w Hb) as Hnet.
  apply net_bind.
  - intros e w1 Hw1. rewrite Hw1 in Hnet. exact Hnet.
  - intros [h self'] w1 Hw1. rewrite Hw1 in Hnet. simpl in Hnet.
    apply net_bind.
    + intros e w2 Hw2. rewrite <- Hnet, <- (IH self' w1).
      * rewrite Hw2. reflexivity.
      * rewrite Hnet. exact Hall.
    + intros hs w2 Hw2. simpl. rewrite <- Hnet, <- (IH self' w1).
      * rewrite Hw2. reflexivity.
      * rewrite Hnet. exact Hall.
Qed.

(** X13: when no temporary element (id ["Tm"]) is left over at any bus of
    the case, the [buses_headroom] method ends with the network exactly as
    it found it, whatever the oracle answers and whether the sweep returns
    or raises. *)
Theorem CapacityAnalyser_buses_headroom_restores_network (ext : External)
  (self : CapacityAnalyser) (w : World) :
  Forall (no_temporary_element (net w)) (net_buses (net w)) ->
  net (snd (CapacityAnalyser_buses_headroom ext self w)) = net w.
Proof.
  intros Hall. unfold CapacityAnalyser_buses_headroom.
  rewrite (bind_run _ _ w w (net_buses (net w))) by reflexivity.
  apply buses_headroom_sweep_restores_net, Hall.
Qed.

Lemma CapacityAnalyser_buses_headroom_restores_network_example :
  net (snd (CapacityAnalyser_buses_headroom (threshold_external 10)
              example_sweep_analyser example_sweep_world))
  = example_sweep_net.
Proof.
  apply (CapacityAnalyser_buses_headroom_restores_network
           (threshold_external 10) example_sweep_analyser
           example_sweep_world).
  repeat constructor.
Defined.

(** ** The cost of the sweep *)

Lemma gen_headroom_block_budget (ext : External) (self : CapacityAnalyser)
  (b : Bus) (w : World) :
  exists r lf w' evs,
    gen_headroom_block ext self b w = (Ok (r, lf), w')
    /\ trace w' = trace w ++ evs
    /\ (1 <= count_checks evs)%nat
    /\ (count_checks evs <= Z.to_nat (Z.max 1 (_max_iterations self)))%nat.
Proof.
  rewrite gen_headroom_block_unfold.
  destruct (max_power_available_mva_machine_in_scope ext self _
              (_upper_gen_limit_mva self) _
              (machine_scope_active_after_enter b w))
    as (r & lf & w' & evs & Hrun & _ & Htr & Hlo & Hhi).
  rewrite Hrun. simpl fst. simpl snd.
  exists r, lf. eexists.
  exists ([EvMachineData (Bus_number b) TEMP_MACHINE_ID] ++ evs
          ++ [EvPurgMach (Bus_number b) TEMP_MACHINE_ID]).
  split; [reflexivity|]. split.
  - simpl. rewrite Htr. simpl. rewrite <- !app_assoc. reflexivity.
  - rewrite !count_checks_app.
    change (count_checks [EvMachineData (Bus_number b) TEMP_MACHINE_ID])
      with 0%nat.
    change (count_checks [EvPurgMach (Bus_number b) TEMP_MACHINE_ID])
      with 0%nat.
    assert (Hbound : S (Z.to_nat (_max_iterations self - 1))
                     = Z.to_nat (Z.max 1 (_max_iterations self))) by lia.
    rewrite <- Hbound. split; lia.
Qed.

Lemma bus_headroom_budget (ext : External) (self : CapacityAnalyser)
  (b : Bus) (w : World) :
  cursor_ok (_loads_cursor self) ->
  machine_cursor_ok (_machines_cursor self) ->
  exists h lc mc w' evs,
    bus_headroom ext self b w
    = (Ok (h, set_machines_cursor mc (set_loads_cursor lc self)), w')
    /\ cursor_ok lc /\ machine_cursor_ok mc
    /\ bus h = b
    /\ trace w' = trace w ++ evs
    /\ bus_events self h evs.
Proof.
  intros Hlok Hmok.
  destruct (bus_headroom_run ext self b w Hlok Hmok)
    as (al & lc & ag & mc & la & llf & w1 & ga & glf & w'
        & _ & Hlok' & _ & Hmok' & Hlblock & Hgblock & Hrun).
  destruct (load_headroom_block_budget ext self b w)
    as (r & lf & w1' & evs1 & Hl & Htr1 & Hlo1 & Hhi1 & rest & Hshape).
  rewrite Hlblock in Hl. injection Hl as _ _ <-.
  destruct (negb (ceqb ag c0) && negb (ceqb la c0)).
  - destruct (gen_headroom_block_budget ext self b w1)
      as (r2 & lf2 & w2 & evs2 & Hg & Htr2 & Hlo2 & Hhi2).
    rewrite Hgblock in Hg. injection Hg as _ _ <-.
    eexists _, lc, mc, w', (evs1 ++ evs2). split; [exact Hrun|].
    split; [exact Hlok'|]. split; [exact Hmok'|]. split; [reflexivity|].
    split; [rewrite Htr2, Htr1, app_assoc; reflexivity|].
    unfold bus_events. simpl bus. rewrite count_checks_app.
    split; [exists (rest ++ evs2); rewrite Hshape; reflexivity|]. lia.
  - destruct Hgblock as (_ & _ & ->).
    eexists _, lc, mc, w1, evs1. split; [exact Hrun|].
    split; [exact Hlok'|]. split; [exact Hmok'|]. split; [reflexivity|].
    split; [exact Htr1|].
    unfold bus_events. simpl bus.
    split; [exists rest; exact Hshape|]. lia.
Qed.

Lemma bus_events_cursors (self : CapacityAnalyser) (lc : LoadCursor)
  (mc : MachineCursor) (h : BusHeadroom) (evs : list Event) :
  bus_events (set_machines_cursor mc (set_loads_cursor lc self)) h evs
  <-> bus_events self h evs.
Proof. reflexivity. Qed.

Lemma buses_headroom_sweep_budget (ext : External) (buses : list Bus) :
  forall (self : CapacityAnalyser) (w : World),
  cursor_ok (_loads_cursor self) ->
  machine_cursor_ok (_machines_cursor self) ->
  exists hs w' segments,
    buses_headroom_sweep ext self buses w = (Ok hs, w')
    /\ map bus hs = List.filter (selected self) buses
    /\ trace w' = trace w ++ concat segments
    /\ Forall2 (bus_events self) hs segments.
Proof.
  induction buses as [|b buses IH]; intros self w Hlok Hmok.
  - exists [], w, []. split; [reflexivity|]. split; [reflexivity|].
    split; [simpl; rewrite app_nil_r; reflexivity|]. constructor.
  - cbn [buses_headroom_sweep List.filter].
    change (match _selected_buses_ids self with
            | Some ids => existsb (Z.eqb (Bus_number b)) ids
            | None => true
            end) with (selected self b).
    destruct (selected self b) eqn:Hsel; [|apply IH; assumption].
    destruct (bus_headroom_budget ext self b w Hlok Hmok)
      as (h & lc & mc & w1 & evs1 & Hrun & Hlok' & Hmok' & Hbus & Htr1
          & Hevs1).
    destruct (IH (set_machines_cursor mc (set_loads_cursor lc self)) w1
                Hlok' Hmok')
      as (hs & w' & segments & Hsweep & Hmap & Htr & Hall).
    rewrite (bind_run _ _ _ _ _ Hrun). cbv beta iota.
    rewrite (bind_run _ _ _ _ _ Hsweep).
    exists (h :: hs), w', (evs1 :: segments). split; [reflexivity|].
    split; [simpl; rewrite Hbus, Hmap; reflexivity|].
    split; [simpl; rewrite Htr, Htr1, app_assoc; reflexivity|].
    constructor; [exact Hevs1|].
    eapply Forall2_impl; [exact Hall|].
    intros h' evs'. apply bus_events_cursors.
Qed.

(** X15: the [buses_headroom] method returns one record per selected bus,
    in bus order, and what it does splits into one run of events per
    record: the run of a bus starts with the creation of the temporary
    load of that bus and holds at least one and at most
    [2 * max(1, max_iterations)] violation checks of the intact network
    (one search for load, at most one for generation). *)
Theorem CapacityAnalyser_buses_headroom_budget (ext : External)
  (self : CapacityAnalyser) (w : World) :
  cursor_ok (_loads_cursor self) ->
  machine_cursor_ok (_machines_cursor self) ->
  exists hs w' segments,
    CapacityAnalyser_buses_headroom ext self w = (Ok hs, w')
    /\ map bus hs = List.filter (selected self) (net_buses (net w))
    /\ trace w' = trace w ++ concat segments
    /\ Forall2 (bus_events self) hs segments.
Proof.
  intros Hlok Hmok. unfold CapacityAnalyser_buses_headroom.
  rewrite (bind_run _ _ w w (net_buses (net w))) by reflexivity.
  apply buses_headroom_sweep_budget; assumption.
Qed.

Lemma CapacityAnalyser_buses_headroom_budget_example :
  exists hs w' segments,
    CapacityAnalyser_buses_headroom (threshold_external 10)
      example_sweep_analyser example_sweep_world
    = (Ok hs, w')
    /\ trace w' = concat segments
    /\ Forall2 (bus_events example_sweep_analyser) hs segments.
Proof.
  destruct (CapacityAnalyser_buses_headroom_budget (threshold_external 10)
              example_sweep_analyser example_sweep_world)
    as (hs & w' & segments & Hrun & _ & Htr & Hall).
  - intros _. eexists. reflexivity.
  - intros _. eexists. reflexivity.
  - exists hs, w', segments. split; [exact Hrun|]. split; [exact Htr|].
    exact Hall.
Defined.

(** ** End to end *)

(** X16: with power factors in the domain of [math.acos], on a case that
    exists, has no violation in its base state, and
    lists loads and machines by non-decreasing and buses by strictly
    increasing bus number, the module-level [buses_headroom] returns one
    record per selected bus, in bus order; the actual load and generation
    reported for a bus are its totals in the case; and, when the case
    holds no element with the temporary id, the working network at the
    end is the case as stored. *)
Theorem buses_headroom_end_to_end (ext : External)
  (case_name : string) (upper_load_limit_p_mw upper_gen_limit_p_mw : Q)
  (load_power_factor gen_power_factor : Q)
  (selected_buses_ids : option (list Z)) (solver_tolerance_p_mw : Q)
  (solver_opts : SolverOpts) (max_iterations : Z)
  (normal_limits contingency_limits : option ViolationsLimits)
  (contingency_scenario : option ContingencyScenario)
  (w : World) (base : Network) :
  math_acos_defined load_power_factor = true ->
  math_acos_defined gen_power_factor = true ->
  case_file ext case_name = Some base ->
  violations_of ext normal_limits
    (negb (power_flow_converges ext false solver_opts base)) solver_opts base
  = NO_VIOLATIONS ->
  sorted_by_bus (net_loads base) ->
  Sorted Z.le (map Machine_number (net_machines base)) ->
  Sorted Z.lt (map Bus_number (net_buses base)) ->
  exists hs w',
    buses_headroom ext case_name upper_load_limit_p_mw upper_gen_limit_p_mw
      load_power_factor gen_power_factor selected_buses_ids
      solver_tolerance_p_mw solver_opts max_iterations normal_limits
      contingency_limits contingency_scenario w
    = (Ok hs, w')
    /\ map bus hs
       = List.filter
           (fun b =>
              match selected_buses_ids with
              | None => true
              | Some ids => existsb (Z.eqb (Bus_number b)) ids
              end) (net_buses base)
    /\ map actual_load_mva hs
       = map (fun h => bus_load_sum (Bus_number (bus h)) (net_loads base)) hs
    /\ map actual_gen_mva hs
       = map (fun h => bus_gen_sum (Bus_number (bus h)) (net_machines base))
           hs
    /\ (Forall (no_temporary_element base) (net_buses base) -> net w' = base).
Proof.
  intros Hload Hgen Hcase Hbase Hloads Hmachines Hbuses.
  destruct (CapacityAnalyser_init_run ext case_name upper_load_limit_p_mw
              upper_gen_limit_p_mw load_power_factor gen_power_factor
              selected_buses_ids solver_tolerance_p_mw solver_opts
              max_iterations normal_limits contingency_limits
              contingency_scenario w base Hload Hgen Hcase Hbase)
    as (self & w1 & Hinit & Hnet & _ & _ & Hlc & Hmc & Hsel & _).
  unfold buses_headroom. rewrite (bind_run _ _ _ _ _ Hinit).
  unfold CapacityAnalyser_buses_headroom.
  rewrite (bind_run _ _ w1 w1 (net_buses (net w1))) by reflexivity.
  rewrite Hnet.
  destruct (buses_headroom_sweep_sums ext self (net_buses base)
              (net_loads base) (net_machines base) w1 Hlc Hmc Hloads
              Hmachines Hbuses)
    as (hs & w' & Hsweep & Hbus & Hal & Hag).
  exists hs, w'. split; [exact Hsweep|].
  split; [rewrite Hbus; unfold selected; rewrite Hsel; reflexivity|].
  split; [exact Hal|]. split; [exact Hag|].
  intros Hclean.
  pose proof (buses_headroom_sweep_restores_net ext (net_buses base) self w1)
    as Hrestore.
  rewrite Hsweep, Hnet in Hrestore. apply Hrestore, Hclean.
Qed.

(** The example case with the default settings and every bus selected. *)
Lemma buses_headroom_end_to_end_example :
  exists hs w',
    buses_headroom (threshold_external 30) "case" 50 50 (9 # 10) (9 # 10)
      None 5 [("options1", 1); ("options5", 1)] 10 None None None
      example_world
    = (Ok hs, w')
    /\ map bus hs = [bus_A; mkBus 2 "B"; mkBus 3 "C"]
    /\ net w' = example_net.
Proof.
  destruct (buses_headroom_end_to_end (threshold_external 30) "case" 50 50
              (9 # 10) (9 # 10) None 5 [("options1", 1); ("options5", 1)] 10
              None None None example_world example_net)
    as (hs & w' & Hrun & Hbus & _ & _ & Hnet).
  - reflexivity.
  - reflexivity.
  - reflexivity.
  - reflexivity.
  - repeat constructor.
  - repeat constructor.
  - repeat constructor.
  - exists hs, w'. split; [exact Hrun|]. split; [exact Hbus|].
    apply Hnet. repeat constructor.
Defined.

(** ** The search under machine arithmetic *)

Lemma exact_narrow_sound : narrow_sound exact_narrow.
Proof. intros u l tol H. apply Q_ltb_true in H. exact H. Qed.

Lemma exact_midpoint_between : midpoint_between exact_midpoint.
Proof.
  intros l u. unfold between, exact_midpoint. simpl.
  assert (Hr : (2 * ((real l + real u) / 2) == real l + real u)%Q) by field.
  assert (Hi : (2 * ((imag l + imag u) / 2) == imag l + imag u)%Q) by field.
  revert Hr Hi.
  generalize ((real l + real u) / 2)%Q, ((imag l + imag u) / 2)%Q.
  intros x y Hx Hy. split.
  - destruct (Qlt_le_dec (real u) (real l)); [right|left]; split; lra.
  - destruct (Qlt_le_dec (imag u) (imag l)); [right|left]; split; lra.
Qed.

(** With exact arithmetic the search is the one of the engine. *)
Lemma bisection_rounded_exact {Sub : Type} `{TemporaryBusSubsystem Sub}
  (ext : External) (self : CapacityAnalyser) (temp : Sub) (n : nat) :
  forall (lower upper : complex) (lf : option LimitingFactor) (w : World),
  bisection_rounded ext exact_midpoint exact_narrow self temp n lower upper
    lf w
  = bisection ext self temp n lower upper lf w.
Proof.
  induction n as [|n IH]; intros lower upper lf w; simpl; [reflexivity|].
  unfold bind at 1 3.
  destruct (subsystem_call temp _ w) as [[[]|e] w1]; [|reflexivity].
  rewrite !(bind_run _ _ _ _ _ (feasibility_check_run ext self w1)).
  unfold exact_midpoint, exact_narrow.
  destruct (feasible ext self (net w1)); destruct (Q_ltb _ _);
    try reflexivity; apply IH.
Qed.

Lemma max_power_available_mva_rounded_exact {Sub : Type}
  `{TemporaryBusSubsystem Sub} (ext : External) (self : CapacityAnalyser)
  (temp : Sub) (U : complex) (w : World) :
  max_power_available_mva_rounded ext exact_midpoint exact_narrow self temp
    U w
  = max_power_available_mva ext self temp U w.
Proof.
  unfold max_power_available_mva_rounded, max_power_available_mva.
  unfold bind at 1 3.
  destruct (subsystem_call temp U w) as [[[]|e] w1]; [|reflexivity].
  rewrite !(bind_run _ _ _ _ _ (feasibility_check_run ext self w1)).
  destruct (feasible ext self (net w1)); [reflexivity|].
  apply bisection_rounded_exact.
Qed.

Lemma load_headroom_block_rounded_unfold (ext : External)
  (midpoint : complex -> complex -> complex) (narrow : Q -> Q -> Q -> bool)
  (self : CapacityAnalyser) (b : Bus) (w : World) :
  let temp := mkTemporaryBusLoad b (fresh (dom (heap w))) in
  let w1 := snd (TemporaryBusLoad___enter__ temp
                   (snd (TemporaryBusLoad___init__ b w))) in
  load_headroom_block_rounded ext midpoint narrow self b w
  = (fst (max_power_available_mva_rounded ext midpoint narrow self temp
            (_upper_load_limit_mva self) w1),
     snd (TemporaryBusLoad___exit__ temp
            (snd (max_power_available_mva_rounded ext midpoint narrow self
                    temp (_upper_load_limit_mva self) w1)))).
Proof.
  intros temp w1. unfold load_headroom_block_rounded.
  rewrite (bind_run _ _ w (snd (TemporaryBusLoad___init__ b w)) temp)
    by reflexivity.
  apply with_TemporaryBusLoad_run.
Qed.

Lemma load_headroom_block_rounded_exact (ext : External)
  (self : CapacityAnalyser) (b : Bus) (w : World) :
  load_headroom_block_rounded ext exact_midpoint exact_narrow self b w
  = load_headroom_block ext self b w.
Proof.
  rewrite load_headroom_block_rounded_unfold, load_headroom_block_unfold.
  rewrite max_power_available_mva_rounded_exact. reflexivity.
Qed.

(** An oracle that is a threshold on every state holding the temporary
    load is one at every bus of every case. *)
Lemma threshold_oracle_at_bus (ext : External) (self : CapacityAnalyser)
  (b : Bus) (T : Q) (w : World) :
  threshold_oracle ext self (Bus_number b) T ->
  threshold_at_bus ext self b T w.
Proof.
  intros Horacle p.
  destruct (temp_load_power (mkTemporaryBusLoad b (fresh (dom (heap w)))) p _
              (scope_active_after_enter b w)) as [l [Hl Hp]].
  rewrite (Horacle _ l Hl), Hp. reflexivity.
Qed.

(** The oracle that compares the total load of the case with a capacity
    of 20 MW is a threshold at bus 1 and at bus 2 of the example case,
    which draws 10 MW: either bus can take 10 MW more. *)
Lemma capacity_external_at_bus (self : CapacityAnalyser) :
  threshold_at_bus (capacity_external 20) self bus_A 10 example_world
  /\ threshold_at_bus (capacity_external 20) self (mkBus 2 "B") 10
       example_world.
Proof.
  assert (H : forall p : complex,
             Qle_bool (10 + (real p + 0)) 20 = Qle_bool (real p) 10).
  { intros p. destruct (Qle_bool (real p) 10) eqn:E.
    - apply Qle_bool_iff in E. apply Qle_bool_iff. lra.
    - apply Qle_bool_false in E. apply Qle_bool_false. lra. }
  split; intros p; unfold feasible; cbn; rewrite H;
    destruct (Qle_bool (real p) 10); reflexivity.
Qed.

(** *** Against a threshold *)

Section RoundedThreshold.
Variable ext : External.
Variable midpoint : complex -> complex -> complex.
Variable narrow : Q -> Q -> Q -> bool.
Variable self : CapacityAnalyser.
Variable temp : TemporaryBusLoad.
Variable T : Q.
Variable w1 : World.
Hypothesis narrow_ok : narrow_sound narrow.
Hypothesis oracle :
  forall p : complex,
    feasible ext self (net (set_temp_load temp p w1)) = Qle_bool (real p) T.

Lemma same_case_probe (q : complex) (evs : list Event) (w : World) :
  same_case temp w1 w ->
  same_case temp w1 (add_trace evs (set_temp_load temp q w)).
Proof.
  intros Hsame p.
  transitivity (net (set_temp_load temp p (set_temp_load temp q w)));
    [reflexivity|].
  rewrite net_set_temp_load_twice. apply Hsame.
Qed.

(** The loop keeps [lower <= T < upper] whatever the midpoint is; it ends
    on the width test, with the answer less than the tolerance below [T],
    or after [n] probes. *)
Lemma bisection_rounded_threshold (n : nat) :
  forall (lower upper : complex) (lf : option LimitingFactor) (w : World),
  scope_active temp w -> same_case temp w1 w ->
  (real lower <= T)%Q -> (T < real upper)%Q ->
  exists (r : complex) (lf' : option LimitingFactor) (w' : World)
         (evs : list Event),
    bisection_rounded ext midpoint narrow self temp n lower upper lf w
    = (Ok (r, lf'), w')
    /\ trace w' = trace w ++ evs
    /\ (real r <= T)%Q
    /\ ((T - real r < _solver_tolerance_p_mw self)%Q
        \/ count_checks evs = n).
Proof.
  induction n as [|n IH]; intros lower upper lf w Hact Hsame Hlo Hup.
  - exists lower, lf, w, []. simpl. split; [reflexivity|].
    split; [rewrite app_nil_r; reflexivity|]. split; [exact Hlo|].
    right. reflexivity.
  - cbn [bisection_rounded subsystem_call TemporaryBusLoad_subsystem].
    set (mid := midpoint lower upper).
    rewrite (bind_run _ _ w (set_temp_load temp mid w) tt);
      [|apply TemporaryBusLoad_call_active, Hact].
    rewrite (bind_run _ _ _ _ _ (feasibility_check_run ext self _)).
    set (evs1 := probe_events ext self (net (set_temp_load temp mid w))).
    set (w2 := add_trace evs1 (set_temp_load temp mid w)).
    assert (Hact2 : scope_active temp w2).
    { apply scope_active_add_trace, scope_active_set_temp_load, Hact. }
    assert (Hsame2 : same_case temp w1 w2) by (apply same_case_probe, Hsame).
    assert (Htr2 : exists e,
               trace w2 = trace w ++ (e :: evs1)
               /\ count_checks (e :: evs1) = 1%nat).
    { eexists. split; [unfold w2; simpl; rewrite <- app_assoc; reflexivity|].
      change (count_checks (?e :: evs1))
        with (count_checks ([e] ++ evs1)).
      rewrite count_checks_app. unfold evs1.
      rewrite count_checks_probe_events. reflexivity. }
    destruct Htr2 as (e & Htr2 & Hone).
    rewrite (Hsame mid), (oracle mid).
    destruct (Qle_bool (real mid) T) eqn:Hfeas.
    + apply Qle_bool_iff in Hfeas.
      destruct (narrow (real upper) (real mid) (_solver_tolerance_p_mw self))
        eqn:Htol.
      * apply narrow_ok in Htol.
        exists mid. eexists. exists w2, (e :: evs1).
        split; [reflexivity|]. split; [exact Htr2|].
        split; [exact Hfeas|]. left. lra.
      * destruct (IH mid upper
                    (limiting_factor_at ext self
                       (net (set_temp_load temp mid w1))) w2 Hact2 Hsame2 Hfeas Hup)
          as (r & lf' & w' & evs & Hrun & Htr & Hr & Hclose).
        exists r, lf', w', ((e :: evs1) ++ evs).
        split; [exact Hrun|].
        split; [rewrite Htr, Htr2, app_assoc; reflexivity|].
        split; [exact Hr|].
        destruct Hclose as [Hclose|Hclose]; [left; exact Hclose|right].
        rewrite count_checks_app, Hone, Hclose. reflexivity.
    + apply Qle_bool_false in Hfeas.
      destruct (narrow (real mid) (real lower) (_solver_tolerance_p_mw self))
        eqn:Htol.
      * apply narrow_ok in Htol.
        exists lower. eexists. exists w2, (e :: evs1).
        split; [reflexivity|]. split; [exact Htr2|].
        split; [exact Hlo|]. left. lra.
      * destruct (IH lower mid
                    (limiting_factor_at ext self
                       (net (set_temp_load temp mid w1))) w2 Hact2 Hsame2 Hlo Hfeas)
          as (r & lf' & w' & evs & Hrun & Htr & Hr & Hclose).
        exists r, lf', w', ((e :: evs1) ++ evs).
        split; [exact Hrun|].
        split; [rewrite Htr, Htr2, app_assoc; reflexivity|].
        split; [exact Hr|].
        destruct Hclose as [Hclose|Hclose]; [left; exact Hclose|right].
        rewrite count_checks_app, Hone, Hclose. reflexivity.
Qed.

Lemma max_power_available_mva_rounded_threshold (U : complex) :
  scope_active temp w1 ->
  (0 <= T)%Q ->
  exists r lf w' evs,
    max_power_available_mva_rounded ext midpoint narrow self temp U w1
    = (Ok (r, lf), w')
    /\ trace w' = trace w1 ++ evs
    /\ ((real U <= T)%Q -> r = U)
    /\ ((T < real U)%Q ->
        (real r <= T)%Q
        /\ ((T - real r < _solver_tolerance_p_mw self)%Q
            \/ count_checks evs = S (Z.to_nat (_max_iterations self - 1)))).
Proof.
  intros Hact HT. unfold max_power_available_mva_rounded.
  cbn [subsystem_call TemporaryBusLoad_subsystem].
  rewrite (bind_run _ _ w1 (set_temp_load temp U w1) tt);
    [|apply TemporaryBusLoad_call_active, Hact].
  rewrite (bind_run _ _ _ _ _ (feasibility_check_run ext self _)).
  set (evs1 := probe_events ext self (net (set_temp_load temp U w1))).
  set (w2 := add_trace evs1 (set_temp_load temp U w1)).
  assert (Htr2 : exists e,
             trace w2 = trace w1 ++ (e :: evs1)
             /\ count_checks (e :: evs1) = 1%nat).
  { eexists. split; [unfold w2; simpl; rewrite <- app_assoc; reflexivity|].
    change (count_checks (?e :: evs1)) with (count_checks ([e] ++ evs1)).
    rewrite count_checks_app. unfold evs1.
    rewrite count_checks_probe_events. reflexivity. }
  destruct Htr2 as (e & Htr2 & Hone).
  rewrite (oracle U).
  destruct (Qle_bool (real U) T) eqn:Hfeas.
  - exists U. eexists. exists w2, (e :: evs1).
    split; [reflexivity|]. split; [exact Htr2|]. split; [reflexivity|].
    apply Qle_bool_iff in Hfeas. intros Hlt. lra.
  - apply Qle_bool_false in Hfeas.
    destruct (bisection_rounded_threshold
                (Z.to_nat (_max_iterations self - 1)) c0 U
                (limiting_factor_at ext self (net (set_temp_load temp U w1)))
                w2)
      as (r & lf' & w' & evs & Hrun & Htr & Hr & Hclose).
    + apply scope_active_add_trace, scope_active_set_temp_load, Hact.
    + apply same_case_probe. intros p. reflexivity.
    + exact HT.
    + exact Hfeas.
    + exists r, lf', w', ((e :: evs1) ++ evs). split; [exact Hrun|].
      split; [rewrite Htr, Htr2, app_assoc; reflexivity|].
      split; [intros Hle; lra|]. intros _. split; [exact Hr|].
      destruct Hclose as [Hclose|Hclose]; [left; exact Hclose|right].
      rewrite count_checks_app, Hone, Hclose. reflexivity.
Qed.

End RoundedThreshold.



(** *** Where the answer lies *)

Lemma between_in_interval (a b l u x : Q) :
  (a <= l)%Q -> (l <= b)%Q -> (a <= u)%Q -> (u <= b)%Q ->
  between l u x -> (a <= x)%Q /\ (x <= b)%Q.
Proof. intros H1 H2 H3 H4 [[H5 H6]|[H5 H6]]; split; lra. Qed.

Lemma midpoint_in_box (midpoint : complex -> complex -> complex)
  (a b c d : Q) (l u : complex) :
  midpoint_between midpoint ->
  in_box a b c d l -> in_box a b c d u -> in_box a b c d (midpoint l u).
Proof.
  intros Hmid [[Hl1 Hl2] [Hl3 Hl4]] [[Hu1 Hu2] [Hu3 Hu4]].
  destruct (Hmid l u) as [Hr Hi]. split.
  - apply (between_in_interval a b (real l) (real u)); assumption.
  - apply (between_in_interval c d (imag l) (imag u)); assumption.
Qed.

Lemma bisection_rounded_in_box (ext : External)
  (midpoint : complex -> complex -> complex) (narrow : Q -> Q -> Q -> bool)
  (self : CapacityAnalyser) (temp : TemporaryBusLoad) (a b c d : Q)
  (n : nat) :
  midpoint_between midpoint ->
  forall (lower upper : complex) (lf : option LimitingFactor) (w : World),
  scope_active temp w ->
  in_box a b c d lower -> in_box a b c d upper ->
  exists (r : complex) (lf' : option LimitingFactor) (w' : World),
    bisection_rounded ext midpoint narrow self temp n lower upper lf w
    = (Ok (r, lf'), w')
    /\ in_box a b c d r.
Proof.
  intros Hmid.
  induction n as [|n IH]; intros lower upper lf w Hact Hlo Hup.
  - exists lower, lf, w. split; [reflexivity|exact Hlo].
  - cbn [bisection_rounded subsystem_call TemporaryBusLoad_subsystem].
    set (mid := midpoint lower upper).
    assert (Hbox : in_box a b c d mid)
      by (apply midpoint_in_box; assumption).
    rewrite (bind_run _ _ w (set_temp_load temp mid w) tt);
      [|apply TemporaryBusLoad_call_active, Hact].
    rewrite (bind_run _ _ _ _ _ (feasibility_check_run ext self _)).
    assert (Hact2 : scope_active temp
                      (add_trace
                         (probe_events ext self
                            (net (set_temp_load temp mid w)))
                         (set_temp_load temp mid w))).
    { apply scope_active_add_trace, scope_active_set_temp_load, Hact. }
    destruct (feasible ext self (net (set_temp_load temp mid w)));
      destruct (narrow _ _ _).
    + eexists _, _, _. split; [reflexivity|exact Hbox].
    + apply IH; assumption.
    + eexists _, _, _. split; [reflexivity|exact Hlo].
    + apply IH; assumption.
Qed.

Lemma max_power_available_mva_rounded_in_box (ext : External)
  (midpoint : complex -> complex -> complex) (narrow : Q -> Q -> Q -> bool)
  (self : CapacityAnalyser) (temp : TemporaryBusLoad) (U : complex)
  (w : World) :
  midpoint_between midpoint ->
  scope_active temp w ->
  exists (r : complex) (lf : option LimitingFactor) (w' : World),
    max_power_available_mva_rounded ext midpoint narrow self temp U w
    = (Ok (r, lf), w')
    /\ between 0 (real U) (real r)
    /\ between 0 (imag U) (imag r).
Proof.
  intros Hmid Hact. unfold max_power_available_mva_rounded.
  cbn [subsystem_call TemporaryBusLoad_subsystem].
  rewrite (bind_run _ _ w (set_temp_load temp U w) tt);
    [|apply TemporaryBusLoad_call_active, Hact].
  rewrite (bind_run _ _ _ _ _ (feasibility_check_run ext self _)).
  destruct (feasible ext self (net (set_temp_load temp U w))).
  - eexists _, _, _. split; [reflexivity|]. unfold between.
    split.
    + destruct (Qlt_le_dec (real U) 0); [right|left]; split; lra.
    + destruct (Qlt_le_dec (imag U) 0); [right|left]; split; lra.
  - assert (Hact2 : scope_active temp
                      (add_trace
                         (probe_events ext self
                            (net (set_temp_load temp U w)))
                         (set_temp_load temp U w))).
    { apply scope_active_add_trace, scope_active_set_temp_load, Hact. }
    destruct (Qlt_le_dec (real U) 0) as [Hre|Hre];
      destruct (Qlt_le_dec (imag U) 0) as [Him|Him].
    + destruct (bisection_rounded_in_box ext midpoint narrow self temp
                  (real U) 0 (imag U) 0
                  (Z.to_nat (_max_iterations self - 1)) Hmid c0 U
                  (limiting_factor_at ext self
                     (net (set_temp_load temp U w))) _ Hact2)
        as (r & lf & w' & Hrun & [Hr Hi]);
        [unfold in_box; simpl; lra|unfold in_box; lra|].
      exists r, lf, w'. split; [exact Hrun|]. unfold between. split; right; lra.
    + destruct (bisection_rounded_in_box ext midpoint narrow self temp
                  (real U) 0 0 (imag U)
                  (Z.to_nat (_max_iterations self - 1)) Hmid c0 U
                  (limiting_factor_at ext self
                     (net (set_temp_load temp U w))) _ Hact2)
        as (r & lf & w' & Hrun & [Hr Hi]);
        [unfold in_box; simpl; lra|unfold in_box; lra|].
      exists r, lf, w'. split; [exact Hrun|]. unfold between.
      split; [right|left]; lra.
    + destruct (bisection_rounded_in_box ext midpoint narrow self temp
                  0 (real U) (imag U) 0
                  (Z.to_nat (_max_iterations self - 1)) Hmid c0 U
                  (limiting_factor_at ext self
                     (net (set_temp_load temp U w))) _ Hact2)
        as (r & lf & w' & Hrun & [Hr Hi]);
        [unfold in_box; simpl; lra|unfold in_box; lra|].
      exists r, lf, w'. split; [exact Hrun|]. unfold between.
      split; [left|right]; lra.
    + destruct (bisection_rounded_in_box ext midpoint narrow self temp
                  0 (real U) 0 (imag U)
                  (Z.to_nat (_max_iterations self - 1)) Hmid c0 U
                  (limiting_factor_at ext self
                     (net (set_temp_load temp U w))) _ Hact2)
        as (r & lf & w' & Hrun & [Hr Hi]);
        [unfold in_box; simpl; lra|unfold in_box; lra|].
      exists r, lf, w'. split; [exact Hrun|]. unfold between.
      split; left; lra.
Qed.

(** X8: the load headroom returned for a bus lies, component by
    component, between [0j] and the upper limit [U]: the search never
    returns more than the upper limit and never an answer of the opposite
    sign, whatever the oracle answers.  This holds for every arithmetic
    in which each component of [(lower + upper) / 2] lies between those of
    [lower] and [upper]. *)
Theorem load_headroom_within_limit (ext : External)
  (midpoint : complex -> complex -> complex) (narrow : Q -> Q -> Q -> bool)
  (self : CapacityAnalyser) (b : Bus) (w : World) :
  midpoint_between midpoint ->
  exists r lf w',
    load_headroom_block_rounded ext midpoint narrow self b w
    = (Ok (r, lf), w')
    /\ between 0 (real (_upper_load_limit_mva self)) (real r)
    /\ between 0 (imag (_upper_load_limit_mva self)) (imag r).
Proof.
  intros Hmid. rewrite load_headroom_block_rounded_unfold.
  destruct (max_power_available_mva_rounded_in_box ext midpoint narrow self
              (mkTemporaryBusLoad b (fresh (dom (heap w))))
              (_upper_load_limit_mva self) _ Hmid
              (scope_active_after_enter b w))
    as (r & lf & w' & Hrun & Hre & Him).
  rewrite Hrun. exists r, lf. eexists.
  split; [reflexivity|]. split; assumption.
Qed.

(** The engine on the example case: the load headroom of bus 1 is between
    [0j] and [64+32j]. *)
Lemma load_headroom_within_limit_example :
  exists r lf w',
    load_headroom_block (threshold_external 10) (example_analyser 1 10)
      bus_A example_world
    = (Ok (r, lf), w')
    /\ between 0 64 (real r) /\ between 0 32 (imag r).
Proof.
  destruct (load_headroom_within_limit (threshold_external 10)
              exact_midpoint exact_narrow (example_analyser 1 10) bus_A
              example_world exact_midpoint_between)
    as (r & lf & w' & Hrun & Hre & Him).
  rewrite load_headroom_block_rounded_exact in Hrun.
  exists r, lf, w'. split; [exact Hrun|]. split; [exact Hre|exact Him].
Defined.
